(** * monday-email-app: the email ingestion pipeline of [server.js]

    A shallow embedding of the mailbox poller, the field extractor, the
    tenant store, the schema resolution and the record creator of
    [src/server.js], and the properties of the specification that can be
    settled on them.

    Conventions of the embedding.
    - A JavaScript string is the list of its UTF-16 code units ([list N]).
    - [undefined] and [null] are [None]; a value that may be either a string
      or absent is an [option jsstr].
    - An object used as a map ([boardStore], [values], [columns]) is
      modelled by its own properties, in the order JavaScript keeps them;
      what it inherits is modelled where the program can reach it: the
      prototype of [boardStore], and the one property the program can put
      on [Object.prototype].
    - Every [await] on an external collaborator (mail parser, IMAP server,
      monday.com API) is a suspension point: the collaborator's answer is
      supplied by the environment, and may be a rejection. *)

From Stdlib Require Import NArith Ascii String List Bool Lia.
From stdpp Require Import base numbers option list gmap.
Import ListNotations.

Local Open Scope N_scope.
Set Warnings "-register-all".

(* ================================================================== *)
(** ** JavaScript strings                                              *)
(* ================================================================== *)

Abbreviation jsstr := (list N).

(** Code units of an ASCII literal, for readable examples. *)
Definition u (s : string) : jsstr :=
  List.map N_of_ascii (list_ascii_of_string s).

Definition QUOTE : N := 34.
Definition BACKSLASH : N := 92.
Definition NL : N := 10.
Definition COLON : N := 58.

(** ECMAScript LineTerminator: LF, CR, LS, PS. *)
Definition is_line_terminator (c : N) : bool :=
  (c =? 10) || (c =? 13) || (c =? 8232) || (c =? 8233).

(** ECMAScript WhiteSpace: TAB, VT, FF, SP, NBSP, ZWNBSP and category Zs. *)
Definition is_white_space (c : N) : bool :=
  (c =? 9) || (c =? 11) || (c =? 12) || (c =? 32) || (c =? 160)
  || (c =? 65279) || (c =? 5760) || ((8192 <=? c) && (c <=? 8202))
  || (c =? 8239) || (c =? 8287) || (c =? 12288).

(** What [String.prototype.trim] strips and what the class [\s] matches. *)
Definition is_space (c : N) : bool :=
  is_white_space c || is_line_terminator c.

Fixpoint trimStart (s : jsstr) : jsstr :=
  match s with
  | c :: s' => if is_space c then trimStart s' else s
  | [] => []
  end.

Definition trimEnd (s : jsstr) : jsstr := rev (trimStart (rev s)).

(** [String.prototype.trim]. *)
Definition trim (s : jsstr) : jsstr := trimEnd (trimStart s).

(** [s.split(sep)] for a one-code-unit separator: never empty, the empty
    string splits into one empty piece. *)
Fixpoint split (sep : N) (s : jsstr) : list jsstr :=
  match s with
  | [] => [[]]
  | c :: s' =>
      if c =? sep then [] :: split sep s'
      else match split sep s' with
           | l :: ls => (c :: l) :: ls
           | [] => [[c]]
           end
  end.

(** [Array.prototype.join] with a one-code-unit separator. *)
Fixpoint join (sep : N) (ls : list jsstr) : jsstr :=
  match ls with
  | [] => []
  | [l] => l
  | l :: ls' => l ++ sep :: join sep ls'
  end.

(** Truthiness of a string: every string but the empty one. *)
Definition truthy (s : jsstr) : bool :=
  match s with [] => false | _ => true end.

(** Truthiness of a string-or-absent value. *)
Definition truthy_opt (o : option jsstr) : bool :=
  match o with Some s => truthy s | None => false end.

(* ================================================================== *)
(** ** Field extractor (server.js, EMAIL HELPERS)                      *)
(* ================================================================== *)

(** [function extractPatientName(text)]:
    [text.split("\n").map(l => l.trim()).filter(Boolean)[0]].
    Index [0] of an empty array is [undefined]. *)
Definition extractPatientName (text : jsstr) : option jsstr :=
  head (List.filter truthy (List.map trim (split NL text))).

(** *** The regular expression [`${label}:\\s*(.+)`] with flag [i]

    The expression has no [u] flag, so it runs over code units.  Under
    [i] two code units match when their canonical forms agree; the
    canonical form is the upper-case mapping, except that a code unit
    above 127 is never identified with one below 128.  For the pattern
    characters used here (ASCII letters, the space and the colon) this
    is agreement up to ASCII case. *)
Definition ascii_upper (c : N) : N :=
  if (97 <=? c) && (c <=? 122) then c - 32 else c.

Definition ci_eq (p c : N) : bool := ascii_upper p =? ascii_upper c.

(** The literal part of the pattern at the head of [s]; the rest of [s]
    after it. *)
Fixpoint match_literal (pat s : jsstr) : option jsstr :=
  match pat with
  | [] => Some s
  | p :: pat' =>
      match s with
      | c :: s' => if ci_eq p c then match_literal pat' s' else None
      | [] => None
      end
  end.

(** The longest prefix without a line terminator: what a greedy [.+]
    consumes when nothing follows it in the pattern. *)
Fixpoint dot_run (s : jsstr) : jsstr :=
  match s with
  | c :: s' => if is_line_terminator c then [] else c :: dot_run s'
  | [] => []
  end.

(** The group [(.+)]: at least one code unit. *)
Definition dot_plus (s : jsstr) : option jsstr :=
  match dot_run s with
  | [] => None
  | r => Some r
  end.

(** [\s*(.+)]: the star is greedy, so it first tries to take one more
    space, and gives it back when the group cannot match after it. *)
Fixpoint spaces_then_group (s : jsstr) : option jsstr :=
  match s with
  | c :: s' =>
      if is_space c then
        match spaces_then_group s' with
        | Some g => Some g
        | None => dot_plus s
        end
      else dot_plus s
  | [] => dot_plus []
  end.

(** The whole pattern anchored at the head of [s]; the capture. *)
Definition match_here (label s : jsstr) : option jsstr :=
  match match_literal (label ++ [COLON]) s with
  | Some rest => spaces_then_group rest
  | None => None
  end.

(** [text.match(r)] for a non-global expression: the leftmost start
    position at which the pattern matches; its first capture. *)
Fixpoint regexp_capture (label s : jsstr) : option jsstr :=
  match match_here label s with
  | Some g => Some g
  | None =>
      match s with
      | [] => None
      | _ :: s' => regexp_capture label s'
      end
  end.

(** [function extractValue(label, text)]: [m ? m[1].trim() : null].
    The label is spliced into the expression source; the four labels of
    the program contain no regular-expression metacharacter. *)
Definition extractValue (label text : jsstr) : option jsstr :=
  match regexp_capture label text with
  | Some g => Some (trim g)
  | None => None
  end.

Definition LABEL_PHONE : jsstr := u "Phone Number".
Definition LABEL_EMAIL : jsstr := u "Email Address".
Definition LABEL_SERVICE : jsstr := u "Service".
Definition LABEL_NOTE : jsstr := u "Special Note".

(* ================================================================== *)
(** ** Host functions and external collaborators                       *)
(* ================================================================== *)

(** One column of a monday.com board, as the [columns { id title }]
    query returns it. *)
Record column := Column { col_id : jsstr; col_title : jsstr }.

(** What the program calls and does not define.
    - [toLowerCase]: [String.prototype.toLowerCase].
    - [htmlToText]: the package html-to-text.
    - [newColumnId board title type]: the identifier the store assigns
      when [create_column] is run against a board with columns [board];
      [None] when the call fails (transport error, or an answer without
      [data.create_column]).
    - [exitsOnUnhandledRejection]: what the runtime does with a rejected
      promise that nobody handles.  Node ends the process (its default
      since version 15); with [--unhandled-rejections=warn], or before
      version 15, it prints a warning and goes on. *)
Class Env := {
  toLowerCase : jsstr -> jsstr;
  htmlToText : jsstr -> jsstr;
  newColumnId : list column -> jsstr -> jsstr -> option jsstr;
  exitsOnUnhandledRejection : bool;
}.

(** An environment to run examples in: ASCII lower-casing, HTML taken
    as text, column identifiers [c0], [c1], ... by position, and the
    default of a current Node for unhandled rejections. *)
Definition ascii_lower (c : N) : N :=
  if (65 <=? c) && (c <=? 90) then c + 32 else c.

Definition demoEnv : Env := {|
  toLowerCase := List.map ascii_lower;
  htmlToText := fun h => h;
  newColumnId := fun board _ _ =>
    Some (u "c" ++ [48 + N.of_nat (length board)]);
  exitsOnUnhandledRejection := true;
|}.

(* ================================================================== *)
(** ** JSON values of the record payload, [JSON.stringify]             *)
(* ================================================================== *)

(** The values [createItem] builds: strings and objects of them.  An
    object is the list of its own properties in the order
    [JSON.stringify] and [for ... in] visit them. *)
Inductive json :=
| JString (s : jsstr)
| JObject (props : list (jsstr * json)).

Definition hex_digit (n : N) : N :=
  if n <? 10 then 48 + n else 87 + n.

(** [\uXXXX] with lower-case hexadecimal digits. *)
Definition unicode_escape (c : N) : jsstr :=
  [BACKSLASH; 117; hex_digit (c / 4096 mod 16); hex_digit (c / 256 mod 16);
   hex_digit (c / 16 mod 16); hex_digit (c mod 16)].

Definition is_high_surrogate (c : N) : bool := (55296 <=? c) && (c <=? 56319).
Definition is_low_surrogate (c : N) : bool := (56320 <=? c) && (c <=? 57343).

(** The body of QuoteJSONString: quote, backslash and control
    characters are escaped, a surrogate that is not part of a pair is
    written as an escape, everything else is copied. *)
Fixpoint quote_json_body (s : jsstr) : jsstr :=
  match s with
  | [] => []
  | c :: s' =>
      if c =? 8 then BACKSLASH :: 98 :: quote_json_body s'
      else if c =? 9 then BACKSLASH :: 116 :: quote_json_body s'
      else if c =? 10 then BACKSLASH :: 110 :: quote_json_body s'
      else if c =? 12 then BACKSLASH :: 102 :: quote_json_body s'
      else if c =? 13 then BACKSLASH :: 114 :: quote_json_body s'
      else if c =? QUOTE then BACKSLASH :: QUOTE :: quote_json_body s'
      else if c =? BACKSLASH then BACKSLASH :: BACKSLASH :: quote_json_body s'
      else if c <? 32 then unicode_escape c ++ quote_json_body s'
      else if is_high_surrogate c then
        match s' with
        | d :: s'' =>
            if is_low_surrogate d then c :: d :: quote_json_body s''
            else unicode_escape c ++ quote_json_body s'
        | [] => unicode_escape c
        end
      else if is_low_surrogate c then unicode_escape c ++ quote_json_body s'
      else c :: quote_json_body s'
  end.

Definition quote_json (s : jsstr) : jsstr :=
  QUOTE :: quote_json_body s ++ [QUOTE].

(** [JSON.stringify(v)] without indentation. *)
Fixpoint stringify (v : json) : jsstr :=
  match v with
  | JString s => quote_json s
  | JObject props =>
      let fix members (ps : list (jsstr * json)) : list jsstr :=
        match ps with
        | [] => []
        | (k, w) :: ps' => (quote_json k ++ COLON :: stringify w) :: members ps'
        end in
      u "{" ++ join 44 (members props) ++ u "}"
  end.

(** *** Property names of an ordinary object *)

(** The name through which an object's prototype is read and set. *)
Definition PROTO : jsstr := u "__proto__".

Definition is_digit (c : N) : bool := (48 <=? c) && (c <=? 57).

Fixpoint decimal_value (acc : N) (s : jsstr) : N :=
  match s with
  | [] => acc
  | c :: s' => decimal_value (10 * acc + (c - 48)) s'
  end.

(** The number a property name stands for when it is an array index:
    the canonical decimal writing of an integer below [2^32 - 1]. *)
Definition array_index (k : jsstr) : option N :=
  match k with
  | [] => None
  | c :: k' =>
      if forallb is_digit k
         && (negb (c =? 48) || match k' with [] => true | _ :: _ => false end)
         && (decimal_value 0 k <? 4294967295)
      then Some (decimal_value 0 k)
      else None
  end.

(** [k in o], for own properties. *)
Definition obj_has (o : list (jsstr * json)) (k : jsstr) : bool :=
  existsb (fun e => bool_decide (fst e = k)) o.

(** A new value for the own property [k]: it keeps its place. *)
Definition obj_replace (o : list (jsstr * json)) (k : jsstr) (v : json)
  : list (jsstr * json) :=
  List.map (fun e => if bool_decide (fst e = k) then (k, v) else e) o.

(** A new own property whose name is the array index [n]: array
    indices come first, in ascending order. *)
Fixpoint obj_insert_index (o : list (jsstr * json)) (n : N) (k : jsstr)
    (v : json) : list (jsstr * json) :=
  match o with
  | [] => [(k, v)]
  | (k', v') :: o' =>
      match array_index k' with
      | Some n' =>
          if n' <? n then (k', v') :: obj_insert_index o' n k v
          else (k, v) :: o
      | None => (k, v) :: o
      end
  end.

(** [o[k] = v] on an object created by [{}] and used as a map.  The
    name [__proto__] is the accessor of [Object.prototype]: the
    assignment makes no own property (it replaces the prototype when
    [v] is an object and does nothing when [v] is a string).  An
    existing own property keeps its place.  A new one goes among the
    array indices when its name is one, and after every other property
    otherwise. *)
Definition obj_set (o : list (jsstr * json)) (k : jsstr) (v : json)
  : list (jsstr * json) :=
  if decide (k = PROTO) then o
  else if obj_has o k then obj_replace o k v
  else
    match array_index k with
    | Some n => obj_insert_index o n k v
    | None => o ++ [(k, v)]
    end.


(* ================================================================== *)
(** ** Tenant store and the sender-configuration endpoint              *)
(* ================================================================== *)

(** The four logical field keys of [required]. *)
Inductive fieldKey := KEmail | KPhone | KService | KNote.

#[global] Instance fieldKey_eq_dec : EqDecision fieldKey.
Proof. solve_decision. Defined.

(** The property name of a logical key. *)
Definition key_name (k : fieldKey) : jsstr :=
  match k with
  | KEmail => u "email"
  | KPhone => u "phone"
  | KService => u "service"
  | KNote => u "note"
  end.

Definition SENDER_KEY : jsstr := u "allowedSenderEmail".
Definition UNDEFINED : jsstr := u "undefined".

(** [boardStore[boardId]]: [{ accessToken, columns }], and
    [allowedSenderEmail] once the sender has been configured.
    [columns] is the object [ensureColumns] returns: its own
    properties, by name. *)
Record boardCfg := BoardCfg {
  accessToken : jsstr;
  columns : list (jsstr * jsstr);
  allowedSenderEmail : option jsstr;
}.

(** The own property [k] of a [columns] object. *)
Definition lookup_key (k : jsstr) (m : list (jsstr * jsstr)) : option jsstr :=
  snd <$> List.find (fun e => bool_decide (fst e = k)) m.

(** [m[k] = v] on a [columns] object. *)
Definition set_key (k v : jsstr) (m : list (jsstr * jsstr))
  : list (jsstr * jsstr) :=
  if existsb (fun e => bool_decide (fst e = k)) m
  then List.map (fun e => if bool_decide (fst e = k) then (k, v) else e) m
  else m ++ [(k, v)].

(** [cfg.columns.<key>] used as a property name: a missing entry is
    [undefined], whose property name is the string "undefined". *)
Definition column_of (cfg : boardCfg) (k : fieldKey) : jsstr :=
  default UNDEFINED (lookup_key (key_name k) (columns cfg)).

(** The module-level state shared by every listener and handler, and
    what the program can reach of the prototype chain of [boardStore].
    - [processedUids]: the set of line 37.
    - [boardStore]: the own properties of the object of line 25.
    - [storePrototype]: the object the prototype of [boardStore] has
      been replaced with, if it has been (by [boardStore["__proto__"] =
      { accessToken, columns }]).  Its own prototype is
      [Object.prototype].
    - [protoSender]: the property [allowedSenderEmail] of
      [Object.prototype], which every object of the process inherits.
    - [builtinSender]: the property [allowedSenderEmail] of the
      functions that are properties of [Object.prototype], by the name
      of the function. *)
Record globals := Globals {
  processedUids : gset N;
  boardStore : gmap jsstr boardCfg;
  storePrototype : option boardCfg;
  protoSender : option jsstr;
  builtinSender : gmap jsstr jsstr;
}.

(** The function-valued properties of [Object.prototype]. *)
Definition OBJECT_BUILTINS : list jsstr :=
  [ u "constructor"; u "hasOwnProperty"; u "isPrototypeOf";
    u "propertyIsEnumerable"; u "toLocaleString"; u "toString";
    u "valueOf"; u "__defineGetter__"; u "__defineSetter__";
    u "__lookupGetter__"; u "__lookupSetter__" ].

(** What [boardStore[k]] evaluates to. *)
Inductive found :=
| FUndefined
| FBoard (cfg : boardCfg)
| FObjectPrototype
| FBuiltin (name : jsstr)
| FString (s : jsstr)
| FColumns (cols : list (jsstr * jsstr)).

(** [Object.prototype[k]]. *)
Definition object_prototype_get (g : globals) (k : jsstr) : found :=
  if decide (k = SENDER_KEY) then
    match protoSender g with
    | Some s => FString s
    | None => FUndefined
    end
  else if bool_decide (k ∈ OBJECT_BUILTINS) then FBuiltin k
  else FUndefined.

(** [boardStore[k]]: the prototype itself for [__proto__]; an own
    property; a property of the replaced prototype; a property of
    [Object.prototype]. *)
Definition store_get (g : globals) (k : jsstr) : found :=
  if decide (k = PROTO) then
    match storePrototype g with
    | Some cfg => FBoard cfg
    | None => FObjectPrototype
    end
  else
    match boardStore g !! k with
    | Some cfg => FBoard cfg
    | None =>
        match storePrototype g with
        | Some cfgP =>
            if decide (k = u "accessToken") then FString (accessToken cfgP)
            else if decide (k = u "columns") then FColumns (columns cfgP)
            else if decide (k = SENDER_KEY) then
              match allowedSenderEmail cfgP with
              | Some s => FString s
              | None => object_prototype_get g k
              end
            else object_prototype_get g k
        | None => object_prototype_get g k
        end
    end.

(** Truthiness of such a value: [undefined] and the empty string are
    falsy. *)
Definition truthy_found (f : found) : bool :=
  match f with
  | FUndefined => false
  | FString s => truthy s
  | _ => true
  end.

(** [x.allowedSenderEmail] for [x] such a value: an own property, or
    the one inherited from [Object.prototype].  [None]: [x] is
    [undefined] and the read throws. *)
Definition sender_of (g : globals) (f : found) : option (option jsstr) :=
  match f with
  | FUndefined => None
  | FBoard cfg =>
      Some (match allowedSenderEmail cfg with
            | Some s => Some s
            | None => protoSender g
            end)
  | FObjectPrototype => Some (protoSender g)
  | FBuiltin name =>
      Some (match builtinSender g !! name with
            | Some s => Some s
            | None => protoSender g
            end)
  | FString _ => Some (protoSender g)
  | FColumns cols =>
      Some (match lookup_key SENDER_KEY cols with
            | Some s => Some s
            | None => protoSender g
            end)
  end.

Definition with_sender (cfg : boardCfg) (v : jsstr) : boardCfg :=
  BoardCfg (accessToken cfg) (columns cfg) (Some v).

(** [boardStore[k].allowedSenderEmail = v], where [boardStore[k]] has
    evaluated to [f]: the property is written on that object, whichever
    it is.  On a string the assignment is dropped (the module is not in
    strict mode). *)
Definition store_write (g : globals) (k : jsstr) (f : found) (v : jsstr)
  : globals :=
  match f with
  | FUndefined | FString _ => g
  | FBoard cfg =>
      if decide (k = PROTO) then
        Globals (processedUids g) (boardStore g) (Some (with_sender cfg v))
          (protoSender g) (builtinSender g)
      else
        Globals (processedUids g) (<[k := with_sender cfg v]> (boardStore g))
          (storePrototype g) (protoSender g) (builtinSender g)
  | FObjectPrototype =>
      Globals (processedUids g) (boardStore g) (storePrototype g) (Some v)
        (builtinSender g)
  | FBuiltin name =>
      Globals (processedUids g) (boardStore g) (storePrototype g)
        (protoSender g) (<[name := v]> (builtinSender g))
  | FColumns cols =>
      Globals (processedUids g) (boardStore g)
        (match storePrototype g with
         | Some cfgP =>
             Some (BoardCfg (accessToken cfgP) (set_key SENDER_KEY v cols)
                     (allowedSenderEmail cfgP))
         | None => None
         end)
        (protoSender g) (builtinSender g)
  end.

(** A value of the parsed JSON request body, as far as the handler can
    tell values apart: only a string has [toLowerCase]. *)
Inductive jsvalue :=
| VUndefined
| VNull
| VBool (b : bool)
| VNumber (z : Z)
| VString (s : jsstr)
| VObject.

(** [req.body] of POST /config/sender, by its own properties;
    [req_boardId] is the property name [boardStore] is indexed with,
    and [VUndefined] for [req_allowedSenderEmail] is a body without
    that property. *)
Record senderRequest := SenderRequest {
  req_boardId : jsstr;
  req_allowedSenderEmail : jsvalue;
}.

(** [allowedSenderEmail] of [const { boardId, allowedSenderEmail } =
    req.body]: the body's own property, or the one the body inherits
    from [Object.prototype]. *)
Definition body_sender (g : globals) (req : senderRequest) : jsvalue :=
  match req_allowedSenderEmail req with
  | VUndefined =>
      match protoSender g with
      | Some s => VString s
      | None => VUndefined
      end
  | v => v
  end.

Inductive responseBody :=
| ErrorBody (error : jsstr)
| SavedBody (message : jsstr) (boardId : jsstr) (allowedSender : jsvalue).

(** What the handler does with the request: it answers, or it throws. *)
Inductive handlerResult :=
| Respond (status : N) (body : responseBody)
| ThrowsTypeError.

Section Program.
Context {env : Env}.

(** [app.post("/config/sender", ...)]. *)
Definition configSender (g : globals) (req : senderRequest)
  : globals * handlerResult :=
  let f := store_get g (req_boardId req) in
  if negb (truthy_found f) then
    (g, Respond 404 (ErrorBody (u "Board not registered")))
  else
    match body_sender g req with
    | VString s =>
        (store_write g (req_boardId req) f (toLowerCase s),
         Respond 200 (SavedBody (u "Allowed sender email saved")
                        (req_boardId req) (VString s)))
    | _ => (g, ThrowsTypeError)
    end.

(** [boardStore[boardId] = { accessToken, columns }] of the OAuth
    callback: a fresh object, without [allowedSenderEmail].  For the
    name [__proto__] the object becomes the prototype of [boardStore]. *)
Definition registerBoard (g : globals) (boardId token : jsstr)
    (cols : list (jsstr * jsstr)) : globals :=
  if decide (boardId = PROTO) then
    Globals (processedUids g) (boardStore g) (Some (BoardCfg token cols None))
      (protoSender g) (builtinSender g)
  else
    Globals (processedUids g)
      (<[boardId := BoardCfg token cols None]> (boardStore g))
      (storePrototype g) (protoSender g) (builtinSender g).

(* ================================================================== *)
(** ** Schema resolution: [ensureColumns]                              *)
(* ================================================================== *)

(** The own properties of the object [required], in creation order. *)
Definition required : list (fieldKey * (jsstr * jsstr)) :=
  [ (KEmail, (u "Email Address", u "email"));
    (KPhone, (u "Phone Number", u "phone"));
    (KService, (u "Service", u "status"));
    (KNote, (u "Special Note", u "long_text")) ].

(** The keys [for (const key in required)] visits, each with the
    [title] and [type] of [required[key]]: the four own properties,
    and after them the enumerable properties [required] inherits, that
    is [allowedSenderEmail] when [Object.prototype] has it.  That
    inherited value is a string: it has neither [title] nor [type]. *)
Definition required_entries : list (jsstr * option (jsstr * jsstr)) :=
  List.map (fun e => (key_name (fst e), Some (snd e))) required.

Definition inherited_entries (inherited : option jsstr)
  : list (jsstr * option (jsstr * jsstr)) :=
  match inherited with
  | Some _ => [(SENDER_KEY, None)]
  | None => []
  end.

Definition for_in_required (inherited : option jsstr)
  : list (jsstr * option (jsstr * jsstr)) :=
  required_entries ++ inherited_entries inherited.

(** [required[key].title] and [required[key].type] spliced into the
    template literal of the mutation. *)
Definition spec_title (spec : option (jsstr * jsstr)) : jsstr :=
  match spec with Some (title, _) => title | None => UNDEFINED end.

Definition spec_type (spec : option (jsstr * jsstr)) : jsstr :=
  match spec with Some (_, type) => type | None => UNDEFINED end.

(** [boardColumns.find(c => c.title === title)]. *)
Definition find_column (title : jsstr) (boardColumns : list column)
  : option column :=
  List.find (fun c => bool_decide (col_title c = title)) boardColumns.

(** [boardColumns.find(c => c.title === required[key].title)]: no
    column has [undefined] for a title. *)
Definition find_spec (spec : option (jsstr * jsstr))
    (boardColumns : list column) : option column :=
  match spec with
  | Some (title, _) => find_column title boardColumns
  | None => None
  end.

(** One [create_column] mutation issued by the program. *)
Record createColumn := CreateColumn { cc_title : jsstr; cc_type : jsstr }.

(** The remote board after a successful [create_column]. *)
Definition add_column (board : list column) (id title : jsstr) : list column :=
  board ++ [Column id title].

(** The loop of [ensureColumns].  [boardColumns] is the answer of the
    one query made before the loop; [board] is the remote board, which
    the mutations change: a created column is added after the existing
    ones, and a failed mutation is taken to leave the board as it was.
    The result is the map (absent when a mutation failed and the
    function threw), the remote board, and the mutations issued.  The
    query itself is taken to succeed and to list the board's columns
    in a fixed order.  The keys a [for ... in] visits are distinct, so
    each assignment to [map] adds a property. *)
Fixpoint ensure_loop (boardColumns board : list column)
    (todo : list (jsstr * option (jsstr * jsstr)))
    (map : list (jsstr * jsstr))
  : option (list (jsstr * jsstr)) * list column * list createColumn :=
  match todo with
  | [] => (Some map, board, [])
  | (key, spec) :: todo' =>
      match find_spec spec boardColumns with
      | Some found =>
          ensure_loop boardColumns board todo' (map ++ [(key, col_id found)])
      | None =>
          match newColumnId board (spec_title spec) (spec_type spec) with
          | Some id =>
              let '(r, board', calls) :=
                ensure_loop boardColumns
                  (add_column board id (spec_title spec)) todo'
                  (map ++ [(key, id)]) in
              (r, board', CreateColumn (spec_title spec) (spec_type spec) :: calls)
          | None =>
              (None, board, [CreateColumn (spec_title spec) (spec_type spec)])
          end
      end
  end.

(** [async function ensureColumns(boardId, token)] run against the
    remote board [board], while [Object.prototype.allowedSenderEmail]
    is [inherited]. *)
Definition ensureColumns (inherited : option jsstr) (board : list column)
  : option (list (jsstr * jsstr)) * list column * list createColumn :=
  ensure_loop board board (for_in_required inherited) [].

(* ================================================================== *)
(** ** Record creator: [createItem]                                    *)
(* ================================================================== *)

(** [str.replace(/"/g, '\\"')]: a backslash before every quote. *)
Definition escape_quotes (s : jsstr) : jsstr :=
  flat_map (fun c => if c =? QUOTE then [BACKSLASH; QUOTE] else [c]) s.

(** The object [values] after the four guarded assignments. *)
Definition createItem_values (cfg : boardCfg)
    (email phone service note : option jsstr) : list (jsstr * json) :=
  let values := [] in
  let values :=
    match email with
    | Some e =>
        if truthy e then
          obj_set values (column_of cfg KEmail)
            (JObject [(u "email", JString e); (u "text", JString e)])
        else values
    | None => values
    end in
  let values :=
    match phone with
    | Some p =>
        if truthy p then
          obj_set values (column_of cfg KPhone)
            (JObject [(u "phone", JString p);
                      (u "countryShortName", JString (u "IN"))])
        else values
    | None => values
    end in
  let values :=
    match service with
    | Some sv =>
        if truthy sv then
          obj_set values (column_of cfg KService)
            (JObject [(u "label", JString sv)])
        else values
    | None => values
    end in
  match note with
  | Some n =>
      if truthy n then obj_set values (column_of cfg KNote) (JString n)
      else values
  | None => values
  end.

(** The pieces of the template literal around the three splices. *)
Definition QUERY_HEAD : jsstr := u "
    mutation {
      create_item(
        board_id: ".

Definition QUERY_NAME : jsstr := u ",
        item_name: " ++ [QUOTE].

Definition QUERY_VALUES : jsstr := [QUOTE] ++ u ",
        column_values: " ++ [QUOTE].

Definition QUERY_TAIL : jsstr := [QUOTE] ++ u "
      ) {
        id
      }
    }
  ".

(** The mutation text of [createItem]. *)
Definition createItem_query (boardId name : jsstr)
    (values : list (jsstr * json)) : jsstr :=
  QUERY_HEAD ++ boardId ++ QUERY_NAME ++ name ++ QUERY_VALUES
    ++ escape_quotes (stringify (JObject values)) ++ QUERY_TAIL.

(** [async function createItem(boardId, name, email, phone, service,
    note)] up to the request of [mondayQuery]: the token and the query
    it posts.  [None]: the function throws before the request.  That
    is the case when [cfg] is [undefined]; and when [cfg.columns] is
    [undefined] and one of the four values is truthy, so that a
    property of [cfg.columns] is read.  A [cfg] that is not a board
    entry gets as far as the request otherwise, with what it has for
    [accessToken], and with the column name [undefined] when
    [cfg.columns] is a string. *)
Definition createItem (g : globals) (boardId name : jsstr)
    (email phone service note : option jsstr) : option (jsstr * jsstr) :=
  match store_get g boardId with
  | FBoard cfg =>
      Some (accessToken cfg,
            createItem_query boardId name
              (createItem_values cfg email phone service note))
  | FUndefined => None
  | FColumns cols =>
      let token := default UNDEFINED (lookup_key (u "accessToken") cols) in
      match lookup_key (u "columns") cols with
      | Some _ =>
          Some (token,
                createItem_query boardId name
                  (createItem_values (BoardCfg [] [] None)
                     email phone service note))
      | None =>
          if truthy_opt email || truthy_opt phone || truthy_opt service
             || truthy_opt note
          then None
          else Some (token, createItem_query boardId name [])
      end
  | FObjectPrototype | FBuiltin _ | FString _ =>
      if truthy_opt email || truthy_opt phone || truthy_opt service
         || truthy_opt note
      then None
      else Some (UNDEFINED, createItem_query boardId name [])
  end.

(* ================================================================== *)
(** ** Mailbox poller: [startEmailListener]                            *)
(* ================================================================== *)

(** One search result: [res.attributes.uid] and [res.parts[0].body]. *)
Record message := Message { uid : N; body : jsstr }.

(** What the callback reads of the [simpleParser] result:
    [parsed.from?.value?.[0]?.address], [parsed.text], [parsed.html]. *)
Record parsedMail := ParsedMail {
  p_from : option jsstr;
  p_text : option jsstr;
  p_html : option jsstr;
}.

(** Operations the listener performs on the ledger and on its
    collaborators, in the order it performs them.  [CreateItem] is the
    request posted by [createItem]; it carries the identifier of the
    message it is issued for. *)
Inductive call :=
| ImapConnect
| OpenBox
| SearchUnseen
| LedgerAdd (id : N)
| Parse (id : N) (raw : jsstr)
| AddFlagsSeen (id : N)
| CreateItem (id : N) (token query : jsstr).

(** Where an asynchronous function of the listener is suspended:
    [startEmailListener] itself, before its timer exists, or one run
    of the interval callback.  The message in hand and the messages the
    [for] loop has still to visit are part of the suspended frame. *)
Inductive stage :=
| AwaitConnect
| AwaitOpenBox
| Listening
| AwaitSearch
| AwaitParse (m : message) (rest : list message)
| AwaitRejectFlag (m : message) (rest : list message)
| AwaitCreate (m : message) (rest : list message)
| AwaitSeenFlag (m : message) (rest : list message)
| Finished
| Threw.

(** The answer that resumes a suspended run. *)
Inductive answer :=
| Results (results : list message)
| Parsed (parsed : parsedMail)
| Done
| Rejected.

(** [processedUids.add(id)]. *)
Definition claim (g : globals) (id : N) : globals :=
  Globals ({[id]} ∪ processedUids g) (boardStore g) (storePrototype g)
    (protoSender g) (builtinSender g).

(** The head of the [for] loop, up to the first [await]: messages whose
    identifier is in the ledger are skipped; the first other one is
    entered into the ledger and handed to the parser. *)
Fixpoint loop (g : globals) (results : list message)
  : globals * stage * list call :=
  match results with
  | [] => (g, Finished, [])
  | m :: rest =>
      if decide (uid m ∈ processedUids g) then loop g rest
      else (claim g (uid m),
            AwaitParse m rest,
            [LedgerAdd (uid m); Parse (uid m) (body m)])
  end.

(** [parsed.text || htmlToText(parsed.html || EMPTY)], [EMPTY] the empty
    string. *)
Definition mail_text (parsed : parsedMail) : jsstr :=
  if truthy_opt (p_text parsed) then default [] (p_text parsed)
  else htmlToText (if truthy_opt (p_html parsed)
                   then default [] (p_html parsed) else []).

(** [!allowedSender || from !== allowedSender]. *)
Definition sender_rejected (allowedSender from : option jsstr) : bool :=
  negb (truthy_opt allowedSender) || negb (bool_decide (from = allowedSender)).

(** The loop body from the answer of the parser to the next [await].
    [boardStore[boardId].allowedSenderEmail] is read through the
    prototype chain. *)
Definition after_parse (g : globals) (boardId : jsstr) (m : message)
    (rest : list message) (parsed : parsedMail)
  : globals * stage * list call :=
  let from := p_from parsed in
  match sender_of g (store_get g boardId) with
  | None => (g, Threw, [])
  | Some allowedSender =>
      if sender_rejected allowedSender from then
        (g, AwaitRejectFlag m rest, [AddFlagsSeen (uid m)])
      else
        let text := mail_text parsed in
        let name := extractPatientName text in
        if negb (truthy_opt name) then loop g rest
        else
          let phone := extractValue LABEL_PHONE text in
          let email := extractValue LABEL_EMAIL text in
          let service := extractValue LABEL_SERVICE text in
          let note := extractValue LABEL_NOTE text in
          match createItem g boardId (default [] name)
                  email phone service note with
          | Some (token, query) =>
              (g, AwaitCreate m rest, [CreateItem (uid m) token query])
          | None => (g, Threw, [])
          end
  end.

(** One resumption of a suspended function of the listener for board
    [boardId]: from the answer to the pending [await] up to the next
    one.  [startEmailListener] awaits the connection, then the opening
    of the mailbox, and only then installs the timer.  There is no
    [try] around any of these awaits: a rejected one ends the function
    with a rejected promise.  [None]: not an answer to what the
    function is waiting for. *)
Definition resume (g : globals) (boardId : jsstr) (st : stage) (a : answer)
  : option (globals * stage * list call) :=
  match st, a with
  | AwaitConnect, Done => Some (g, AwaitOpenBox, [OpenBox])
  | AwaitOpenBox, Done => Some (g, Listening, [])
  | AwaitSearch, Results results => Some (loop g results)
  | AwaitParse m rest, Parsed parsed => Some (after_parse g boardId m rest parsed)
  | AwaitRejectFlag m rest, Done => Some (loop g rest)
  | AwaitCreate m rest, Done =>
      Some (g, AwaitSeenFlag m rest, [AddFlagsSeen (uid m)])
  | AwaitSeenFlag m rest, Done => Some (loop g rest)
  | AwaitConnect, Rejected
  | AwaitOpenBox, Rejected
  | AwaitSearch, Rejected
  | AwaitParse _ _, Rejected
  | AwaitRejectFlag _ _, Rejected
  | AwaitCreate _ _, Rejected
  | AwaitSeenFlag _ _, Rejected => Some (g, Threw, [])
  | _, _ => None
  end.

(** One run of the callback driven by a list of answers, one for each
    [await] it reaches. *)
Fixpoint run_cycle (g : globals) (boardId : jsstr) (st : stage)
    (answers : list answer) : globals * stage * list call :=
  match answers with
  | [] => (g, st, [])
  | a :: answers' =>
      match resume g boardId st a with
      | Some (g', st', calls) =>
          let '(g'', st'', calls') := run_cycle g' boardId st' answers' in
          (g'', st'', calls ++ calls')
      | None => (g, st, [])
      end
  end.

(** *** The process: asynchronous functions interleaved at their awaits

    [setInterval] starts a run every 15 seconds whether or not earlier
    runs have finished, and each registered board has a listener of its
    own; all of them share [processedUids] and [boardStore]. *)
Record task := Task { t_board : jsstr; t_stage : stage }.

(** The process: the shared state, the boards whose interval timer is
    installed, the asynchronous functions that have started (the
    listeners and the runs of their callbacks), and the calls made so
    far. *)
Record process := Process {
  shared : globals;
  timers : list jsstr;
  tasks : list task;
  trace : list call;
}.

(** [async function startEmailListener(boardId)] up to its first
    [await]: nothing for a board for which [boardStore[boardId]] is
    falsy; otherwise the connection is asked for. *)
Definition startEmailListener (s : process) (boardId : jsstr) : process :=
  if truthy_found (store_get (shared s) boardId) then
    Process (shared s) (timers s) (tasks s ++ [Task boardId AwaitConnect])
      (trace s ++ [ImapConnect])
  else s.

(** The resumption that reaches [setInterval]. *)
Definition installs_timer (before after : stage) : bool :=
  match before, after with
  | AwaitOpenBox, Listening => true
  | _, _ => false
  end.

(** What can happen next: timer [k] fires; the collaborator that
    function [i] waits for answers; a sender configuration request is
    handled; an OAuth callback completes with the columns [cols] for a
    board. *)
Inductive action :=
| Tick (k : nat)
| Resume (i : nat) (a : answer)
| ConfigSender (req : senderRequest)
| Onboard (boardId token : jsstr) (cols : list (jsstr * jsstr)).

(** One action on a live process. *)
Definition step (s : process) (act : action) : option process :=
  match act with
  | Tick k =>
      match timers s !! k with
      | Some b =>
          Some (Process (shared s) (timers s) (tasks s ++ [Task b AwaitSearch])
                  (trace s ++ [SearchUnseen]))
      | None => None
      end
  | Resume i a =>
      match tasks s !! i with
      | Some t =>
          match resume (shared s) (t_board t) (t_stage t) a with
          | Some (g', st', calls) =>
              Some (Process g'
                      (if installs_timer (t_stage t) st'
                       then timers s ++ [t_board t] else timers s)
                      (<[i := Task (t_board t) st']> (tasks s))
                      (trace s ++ calls))
          | None => None
          end
      | None => None
      end
  | ConfigSender req =>
      Some (Process (fst (configSender (shared s) req))
              (timers s) (tasks s) (trace s))
  | Onboard b token cols =>
      Some (startEmailListener
              (Process (registerBoard (shared s) b token cols)
                 (timers s) (tasks s) (trace s))
              b)
  end.

(** An asynchronous function of the listener has ended with a rejected
    promise.  Nothing handles it: [startEmailListener] is called
    without [await] or [catch], and the promise of a callback of
    [setInterval] is dropped by the timer. *)
Definition threw (t : task) : bool :=
  match t_stage t with
  | Threw => true
  | _ => false
  end.

(** The process has been ended by an unhandled rejection. *)
Definition exited (s : process) : bool :=
  exitsOnUnhandledRejection && existsb threw (tasks s).

(** One action: nothing happens in a process that has ended. *)
Definition exec (s : process) (act : action) : option process :=
  if exited s then None else step s act.

Fixpoint run (s : process) (schedule : list action) : option process :=
  match schedule with
  | [] => Some s
  | act :: schedule' =>
      match exec s act with
      | Some s' => run s' schedule'
      | None => None
      end
  end.

(** The process at start-up: [processedUids = new Set()],
    [boardStore = {}], no timer yet, [Object.prototype] as the runtime
    makes it. *)
Definition start : process := Process (Globals ∅ ∅ None None ∅) [] [] [].

End Program.

(* ================================================================== *)
(** ** The transport: [mondayQuery]                                    *)
(* ================================================================== *)

(** The request [fetch] is called with. *)
Record fetchRequest := FetchRequest {
  fr_url : jsstr;
  fr_method : jsstr;
  fr_headers : list (jsstr * jsstr);
  fr_body : jsstr;
}.

(** [async function mondayQuery(token, query)], up to the call of
    [fetch]: the body is [JSON.stringify({ query })]. *)
Definition mondayQuery (token query : jsstr) : fetchRequest :=
  FetchRequest (u "https://api.monday.com/v2") (u "POST")
    [(u "Authorization", token); (u "Content-Type", u "application/json")]
    (stringify (JObject [(u "query", JString query)])).

(* ================================================================== *)
(** ** What the external store reads: GraphQL string literals          *)
(* ================================================================== *)

Definition hex_value (c : N) : option N :=
  if (48 <=? c) && (c <=? 57) then Some (c - 48)
  else if (97 <=? c) && (c <=? 102) then Some (c - 87)
  else if (65 <=? c) && (c <=? 70) then Some (c - 55)
  else None.

(** The character an escape [\c] of a GraphQL string stands for. *)
Definition gql_escape (c : N) : option N :=
  if c =? QUOTE then Some QUOTE
  else if c =? BACKSLASH then Some BACKSLASH
  else if c =? 47 then Some 47
  else if c =? 98 then Some 8
  else if c =? 102 then Some 12
  else if c =? 110 then Some 10
  else if c =? 114 then Some 13
  else if c =? 116 then Some 9
  else None.

(** The code unit four hexadecimal digits stand for. *)
Definition hex4 (h1 h2 h3 h4 : N) : option N :=
  match hex_value h1, hex_value h2, hex_value h3, hex_value h4 with
  | Some a, Some b, Some c, Some d => Some (a * 4096 + b * 256 + c * 16 + d)
  | _, _, _, _ => None
  end.

(** A control character other than the tabulator. *)
Definition gql_control (c : N) : bool := (c <? 32) && negb (c =? 9).

(** A GraphQL StringValue (not a block string) read from just after
    its opening quote: the value and the input after the closing quote.
    The two editions of the grammar in use differ on what a document
    may contain: June 2018 has no control character but tabulator and
    line breaks among its source characters, and takes any [\uXXXX];
    October 2021 admits control characters, and admits a surrogate,
    written out or as an escape, only as half of a pair.  The reader
    accepts what both accept, and there they read the same value.
    [None]: not a string literal for one of them (unterminated, a line
    break or another control character inside, a bad escape, a
    surrogate without its other half). *)
Fixpoint gql_string (s : jsstr) : option (jsstr * jsstr) :=
  match s with
  | [] => None
  | c :: s' =>
      if c =? QUOTE then Some ([], s')
      else if gql_control c then None
      else if c =? BACKSLASH then
        match s' with
        | e :: s'' =>
            if e =? 117 then
              match s'' with
              | h1 :: h2 :: h3 :: h4 :: s5 =>
                  match hex4 h1 h2 h3 h4 with
                  | Some w =>
                      if is_low_surrogate w then None
                      else if is_high_surrogate w then
                        match s5 with
                        | b :: e' :: k1 :: k2 :: k3 :: k4 :: s11 =>
                            if (b =? BACKSLASH) && (e' =? 117) then
                              match hex4 k1 k2 k3 k4, gql_string s11 with
                              | Some w', Some (v, r) =>
                                  if is_low_surrogate w'
                                  then Some (w :: w' :: v, r) else None
                              | _, _ => None
                              end
                            else None
                        | _ => None
                        end
                      else
                        match gql_string s5 with
                        | Some (v, r) => Some (w :: v, r)
                        | None => None
                        end
                  | None => None
                  end
              | _ => None
              end
            else
              match gql_escape e, gql_string s'' with
              | Some d, Some (v, r) => Some (d :: v, r)
              | _, _ => None
              end
        | [] => None
        end
      else if is_high_surrogate c then
        match s' with
        | d :: s'' =>
            if is_low_surrogate d then
              match gql_string s'' with
              | Some (v, r) => Some (c :: d :: v, r)
              | None => None
              end
            else None
        | [] => None
        end
      else if is_low_surrogate c then None
      else
        match gql_string s' with
        | Some (v, r) => Some (c :: v, r)
        | None => None
        end
  end.

(** The literal that starts after an opening quote: two more quotes
    open a block string, which is not read here. *)
Definition gql_literal (s : jsstr) : option (jsstr * jsstr) :=
  match s with
  | q1 :: q2 :: _ =>
      if (q1 =? QUOTE) && (q2 =? QUOTE) then None else gql_string s
  | _ => gql_string s
  end.

(** A JSON string read from just after its opening quote, as a JSON
    parser reads it: the value and the input after the closing quote.
    [None]: not a string (unterminated, a control character inside, a
    bad escape). *)
Fixpoint json_string (s : jsstr) : option (jsstr * jsstr) :=
  match s with
  | [] => None
  | c :: s' =>
      if c =? QUOTE then Some ([], s')
      else if c <? 32 then None
      else if c =? BACKSLASH then
        match s' with
        | e :: s'' =>
            if e =? 117 then
              match s'' with
              | h1 :: h2 :: h3 :: h4 :: s5 =>
                  match hex_value h1, hex_value h2, hex_value h3, hex_value h4,
                        json_string s5 with
                  | Some a, Some b, Some c', Some d, Some (v, r) =>
                      Some (a * 4096 + b * 256 + c' * 16 + d :: v, r)
                  | _, _, _, _, _ => None
                  end
              | _ => None
              end
            else
              match gql_escape e, json_string s'' with
              | Some d, Some (v, r) => Some (d :: v, r)
              | _, _ => None
              end
        | [] => None
        end
      else
        match json_string s' with
        | Some (v, r) => Some (c :: v, r)
        | None => None
        end
  end.

(** [s] without the prefix [p]. *)
Fixpoint strip_prefix (p s : jsstr) : option jsstr :=
  match p, s with
  | [], _ => Some s
  | a :: p', b :: s' => if a =? b then strip_prefix p' s' else None
  | _ :: _, [] => None
  end.

(** The input after the first occurrence of [marker]. *)
Fixpoint find_after (marker s : jsstr) : option jsstr :=
  match strip_prefix marker s with
  | Some r => Some r
  | None =>
      match s with
      | [] => None
      | _ :: s' => find_after marker s'
      end
  end.

(** The string literal the store reads for the argument [arg] of the
    mutation, and what follows it in the document. *)
Definition argument_literal (arg query : jsstr) : option (jsstr * jsstr) :=
  match find_after (arg ++ u ": " ++ [QUOTE]) query with
  | Some r => gql_literal r
  | None => None
  end.

(* ================================================================== *)
(** ** The specification's reading of the extractor and the payload    *)
(* ================================================================== *)

(** The specification's field rule: a line of the form
    [<Label>: <value>], label in any case; the remainder of that line,
    trimmed. *)
Definition spec_label_line (label line : jsstr) : option jsstr :=
  trim <$> match_literal (label ++ [COLON]) line.

Fixpoint spec_first_label_line (label : jsstr) (lines : list jsstr)
  : option jsstr :=
  match lines with
  | [] => None
  | l :: ls =>
      match spec_label_line label l with
      | Some v => Some v
      | None => spec_first_label_line label ls
      end
  end.

Definition spec_extractValue (label text : jsstr) : option jsstr :=
  spec_first_label_line label (split NL text).

(** The specification's encoding of a field value for its kind. *)
Definition spec_encode (k : fieldKey) (v : jsstr) : json :=
  match k with
  | KEmail => JObject [(u "email", JString v); (u "text", JString v)]
  | KPhone => JObject [(u "phone", JString v);
                       (u "countryShortName", JString (u "IN"))]
  | KService => JObject [(u "label", JString v)]
  | KNote => JString v
  end.

(** The extracted value the program passes for a logical key. *)
Definition field_of (email phone service note : option jsstr) (k : fieldKey)
  : option jsstr :=
  match k with
  | KEmail => email
  | KPhone => phone
  | KService => service
  | KNote => note
  end.

(** The mutations a run of [ensureColumns] is expected to issue: one
    for each visited key whose title no column of the board carries. *)
Definition creates_for (boardColumns : list column)
    (todo : list (jsstr * option (jsstr * jsstr))) : list createColumn :=
  List.map (fun e => CreateColumn (spec_title (snd e)) (spec_type (snd e)))
    (List.filter
       (fun e => match find_spec (snd e) boardColumns with
                 | Some _ => false
                 | None => true
                 end)
       todo).

(** The entry of the map for a visited key: under that key, the
    identifier of the first column of [board] with the title of the
    key; for the inherited key, which has no title, the identifier of
    a column of [board] titled [undefined]. *)
Definition resolves (board : list column)
    (e : jsstr * option (jsstr * jsstr)) (entry : jsstr * jsstr) : Prop :=
  fst entry = fst e
  /\ match snd e with
     | Some (title, _) =>
         exists c, find_column title board = Some c /\ snd entry = col_id c
     | None => Column (snd entry) UNDEFINED ∈ board
     end.

(** The titles of the four required fields. *)
Definition required_titles : list jsstr :=
  List.map (fun e => fst (snd e)) required.

(** The columns of a board that carry the title of a required field. *)
Definition required_columns (board : list column) : list column :=
  List.filter (fun c => bool_decide (col_title c ∈ required_titles)) board.

(** The mutation asks for a column with the title of a required
    field. *)
Definition creates_required (c : createColumn) : bool :=
  bool_decide (cc_title c ∈ required_titles).

(** The expression [<Label>:] matches at the head of [s]. *)
Definition label_at (label s : jsstr) : bool :=
  match match_literal (label ++ [COLON]) s with Some _ => true | None => false end.

(** [<Label>:] matches at none of the first [n] positions of [s]. *)
Fixpoint no_label_before (label : jsstr) (n : nat) (s : jsstr) : bool :=
  match n with
  | O => true
  | S n' =>
      negb (label_at label s)
      && match s with
         | [] => true
         | _ :: s' => no_label_before label n' s'
         end
  end.

(* ================================================================== *)
(** ** Counting on traces and tasks                                    *)
(* ================================================================== *)

Definition is_create_for (id : N) (c : call) : bool :=
  match c with CreateItem id' _ _ => id' =? id | _ => false end.

Definition is_add_for (id : N) (c : call) : bool :=
  match c with LedgerAdd id' => id' =? id | _ => false end.

Definition is_flag_for (id : N) (c : call) : bool :=
  match c with AddFlagsSeen id' => id' =? id | _ => false end.

Definition mentions (id : N) (c : call) : bool :=
  match c with
  | ImapConnect | OpenBox | SearchUnseen => false
  | LedgerAdd id' | Parse id' _ | AddFlagsSeen id' | CreateItem id' _ _ =>
      id' =? id
  end.

(** Number of calls of a trace that satisfy [p]. *)
Definition count (p : call -> bool) (t : list call) : nat :=
  length (List.filter p t).

(** The run is suspended in the parser on message [id]: the only
    suspension from which a [CreateItem] for [id] can follow. *)
Definition parsing (id : N) (t : task) : bool :=
  match t_stage t with
  | AwaitParse m _ => uid m =? id
  | _ => false
  end.

Definition pending (id : N) (ts : list task) : nat :=
  length (List.filter (parsing id) ts).

(** A call that touches neither the ledger nor the record store. *)
Definition quiet (c : call) : bool :=
  match c with
  | LedgerAdd _ | CreateItem _ _ _ => false
  | _ => true
  end.

(** In a trace, every [CreateItem] for a message comes after a
    [LedgerAdd] for it. *)
Definition ordered (t : list call) : Prop :=
  forall id t1 c t2,
    t = t1 ++ c :: t2 -> is_create_for id c = true ->
    (1 <= count (is_add_for id) t1)%nat.

(** The invariant of the process that carries the dedup guarantee: the
    trace has one [LedgerAdd] for each identifier of the ledger and
    none for the others; the runs suspended in the parser on a message
    and the [CreateItem] calls already issued for it are together no
    more than its [LedgerAdd]; the trace is ordered. *)
Definition ledger_inv (s : process) : Prop :=
  (forall id,
      count (is_add_for id) (trace s)
      = if decide (id ∈ processedUids (shared s)) then 1%nat else 0%nat)
  /\ (forall id,
         (pending id (tasks s) + count (is_create_for id) (trace s)
          <= count (is_add_for id) (trace s))%nat)
  /\ ordered (trace s).

Definition is_parse_for (id : N) (c : call) : bool :=
  match c with Parse id' _ => id' =? id | _ => false end.

(** The run has claimed message [id] and has not yet asked for its
    flag: it waits for the parser or for the record store. *)
Definition handling (id : N) (t : task) : bool :=
  match t_stage t with
  | AwaitParse m _ | AwaitCreate m _ => uid m =? id
  | _ => false
  end.

(** In a trace, every call that satisfies [q] for a message comes
    after one that satisfies [p] for it. *)
Definition preceded_by (p q : N -> call -> bool) (t : list call) : Prop :=
  forall id t1 c t2,
    t = t1 ++ c :: t2 -> q id c = true -> (1 <= count (p id) t1)%nat.

(** The invariant behind the flag guarantee: a message is parsed as
    often as it is entered into the ledger; the runs handling it and
    the flag calls already issued for it are together no more than
    that; a flag call comes after the parse call. *)
Definition flag_inv (s : process) : Prop :=
  (forall id,
      count (is_parse_for id) (trace s) = count (is_add_for id) (trace s))
  /\ (forall id,
         (length (List.filter (handling id) (tasks s))
          + count (is_flag_for id) (trace s)
          <= count (is_add_for id) (trace s))%nat)
  /\ preceded_by is_parse_for is_flag_for (trace s).

(** Every allowed sender a board entry has or inherits is the
    lower-casing of some string. *)
Definition senders_lowercased {env : Env} (g : globals) : Prop :=
  (forall b cfg a,
      boardStore g !! b = Some cfg -> allowedSenderEmail cfg = Some a ->
      exists s, a = toLowerCase s)
  /\ (forall cfg a,
         storePrototype g = Some cfg -> allowedSenderEmail cfg = Some a ->
         exists s, a = toLowerCase s)
  /\ (forall a, protoSender g = Some a -> exists s, a = toLowerCase s).

(** The messages a suspended run has still to visit. *)
Definition remaining (st : stage) : list message :=
  match st with
  | AwaitParse _ rest | AwaitRejectFlag _ rest
  | AwaitCreate _ rest | AwaitSeenFlag _ rest => rest
  | AwaitConnect | AwaitOpenBox | Listening
  | AwaitSearch | Finished | Threw => []
  end.

(** A code unit that a GraphQL string literal holds as it is,
    whatever stands next to it. *)
Definition gql_plain (c : N) : bool :=
  negb (c =? QUOTE) && negb (c =? BACKSLASH) && negb (gql_control c)
  && negb ((55296 <=? c) && (c <=? 57343)).

(** A text that a GraphQL string literal holds as it is: no quote, no
    backslash, no control character but the tabulator, and surrogates
    only in pairs. *)
Fixpoint gql_verbatim (s : jsstr) : bool :=
  match s with
  | [] => true
  | c :: s' =>
      if (c =? QUOTE) || (c =? BACKSLASH) || gql_control c then false
      else if is_high_surrogate c then
        match s' with
        | d :: s'' => is_low_surrogate d && gql_verbatim s''
        | [] => false
        end
      else if is_low_surrogate c then false
      else gql_verbatim s'
  end.

(** A code unit that is plain but for being a quote: after
    [escape_quotes], a text of such code units is the inside of one
    string literal. *)
Definition gql_ok (c : N) : bool :=
  negb (c =? BACKSLASH) && negb (gql_control c)
  && negb ((55296 <=? c) && (c <=? 57343)).

(** A code unit that [JSON.stringify] copies into a string as it is. *)
Definition json_plain (c : N) : bool :=
  (32 <=? c) && negb (c =? QUOTE) && negb (c =? BACKSLASH)
  && negb ((55296 <=? c) && (c <=? 57343)).

(** Every property name and every string of the value is made of such
    code units. *)
Fixpoint json_all_plain (v : json) : bool :=
  match v with
  | JString s => forallb json_plain s
  | JObject props =>
      (fix all (ps : list (jsstr * json)) : bool :=
         match ps with
         | [] => true
         | (k, w) :: ps' => forallb json_plain k && json_all_plain w && all ps'
         end) props
  end.

(** One member of an object in the output of [stringify]. *)
Definition member_text (kv : jsstr * json) : jsstr :=
  quote_json (fst kv) ++ COLON :: stringify (snd kv).

Definition member_plain (kv : jsstr * json) : bool :=
  forallb json_plain (fst kv) && json_all_plain (snd kv).

(** Two states in which [boardStore] and what it inherits are the
    same. *)
Definition same_store (g g' : globals) : Prop :=
  boardStore g' = boardStore g
  /\ storePrototype g' = storePrototype g
  /\ protoSender g' = protoSender g
  /\ builtinSender g' = builtinSender g.

(** [boardStore[b]] is a board entry. *)
Definition is_board (f : found) : bool :=
  match f with
  | FBoard _ => true
  | _ => false
  end.

(** Every installed timer and every started function belongs to a
    board for which the store has an entry. *)
Definition boards_registered (s : process) : Prop :=
  (forall k b, timers s !! k = Some b ->
               is_board (store_get (shared s) b) = true)
  /\ (forall i t, tasks s !! i = Some t ->
                  is_board (store_get (shared s) (t_board t)) = true).

(** The sender the check of the callback compares with, for a board
    entry: its own [allowedSenderEmail], or else the inherited one. *)
Definition effective_sender (g : globals) (cfg : boardCfg) : option jsstr :=
  match allowedSenderEmail cfg with
  | Some s => Some s
  | None => protoSender g
  end.

(** The stage is a suspension on message [m] with [rest] still to be
    visited. *)
Definition awaits_on (st : stage) (m : message) (rest : list message) : Prop :=
  st = AwaitParse m rest \/ st = AwaitRejectFlag m rest
  \/ st = AwaitCreate m rest \/ st = AwaitSeenFlag m rest.

(* ================================================================== *)
(** ** A tenant and some mail, for worked scenarios                    *)
(* ================================================================== *)

Definition demoColumns : list (jsstr * jsstr) :=
  [(u "email", u "colE"); (u "phone", u "colP"); (u "service", u "colS");
   (u "note", u "colN")].

Definition demoCfg : boardCfg :=
  BoardCfg (u "tok") demoColumns (Some (u "doc@clinic.com")).

Definition demoGlobals : globals :=
  Globals ∅ {[ u "42" := demoCfg ]} None None ∅.

Definition msg1 : message := Message 1 (u "raw message 1").
Definition msg2 : message := Message 2 (u "raw message 2").

Definition mailJane : parsedMail :=
  ParsedMail (Some (u "doc@clinic.com"))
    (Some (u "Jane Doe
Phone Number: 555-1234
Email Address: jane@x.com
Service: Checkup"))
    None.

Definition mailEvil : parsedMail :=
  ParsedMail (Some (u "other@evil.com")) (Some (u "Mallory")) None.

Definition mailUpperCase : parsedMail :=
  ParsedMail (Some (u "Doc@Clinic.com")) (Some (u "Jane Doe")) None.

Definition mailBlank : parsedMail :=
  ParsedMail (Some (u "doc@clinic.com")) (Some (u "
   
")) None.

(** A board on which only the status column exists yet. *)
Definition demoBoard : list column :=
  [Column (u "name") (u "Name"); Column (u "status7") (u "Service")].

(** A store that refuses to create the phone column. *)
Definition failingEnv : Env := {|
  toLowerCase := List.map ascii_lower;
  htmlToText := fun h => h;
  newColumnId := fun board title _ =>
    if bool_decide (title = u "Phone Number") then None
    else Some (u "c" ++ [48 + N.of_nat (length board)]);
  exitsOnUnhandledRejection := true;
|}.

(** A runtime that only warns about an unhandled rejection. *)
Definition warningEnv : Env := {|
  toLowerCase := List.map ascii_lower;
  htmlToText := fun h => h;
  newColumnId := fun board _ _ =>
    Some (u "c" ++ [48 + N.of_nat (length board)]);
  exitsOnUnhandledRejection := false;
|}.

(** One onboarding, up to the first tick of the timer: the listener
    connects, opens the mailbox, installs its timer. *)
Definition demoOnboarding : list action :=
  [ Onboard (u "42") (u "tok") demoColumns;
    Resume 0 Done;
    Resume 0 Done;
    Tick 0 ].

Definition demoStarted : process :=
  default start (@run demoEnv start demoOnboarding).

(** The process when the first cycle has found two unseen messages
    and waits for the parser on the first. *)
Definition demoParsing : process :=
  default start
    (@run demoEnv start (demoOnboarding ++ [Resume 1 (Results [msg1; msg2])])).



(** A name with quotes in it, and a note with quotes in it. *)
Definition nameQuoted : jsstr :=
  u "Jane " ++ [QUOTE] ++ u "JD" ++ [QUOTE] ++ u " Doe".

Definition noteQuoted : jsstr :=
  u "say " ++ [QUOTE] ++ u "hi" ++ [QUOTE].

(** One board, two overlapping cycles that both find message 1 unseen,
    a third cycle that finds it unseen once more, and at the end a
    failure of the mail server in the second cycle. *)
Definition demoContinuation : list action :=
  [ ConfigSender (SenderRequest (u "42") (VString (u "Doc@Clinic.com")));
    Tick 0;
    Resume 1 (Results [msg1]);
    Resume 2 (Results [msg1; msg2]);
    Resume 1 (Parsed mailJane);
    Resume 1 Done;
    Resume 1 Done;
    Tick 0;
    Resume 3 (Results [msg1; msg2]);
    Resume 2 Rejected ].

Definition demoSchedule : list action := demoOnboarding ++ demoContinuation.

Definition demoFinal : process :=
  default start (@run demoEnv start demoSchedule).

(** A request that names the prototype of the store for a board. *)
Definition protoRequest : senderRequest :=
  SenderRequest PROTO (VString (u "Doc@Clinic.com")).

(** Board 42 is onboarded and never given a sender; a request for
    the board [__proto__] is answered; then the mailbox of board 42
    shows a message from the address of that request. *)
Definition pollutedSchedule : list action :=
  [ Onboard (u "42") (u "tok") demoColumns;
    Resume 0 Done;
    Resume 0 Done;
    ConfigSender protoRequest;
    Tick 0;
    Resume 1 (Results [msg1]);
    Resume 1 (Parsed mailJane) ].

Definition pollutedFinal : process :=
  default start (@run demoEnv start pollutedSchedule).

(* ================================================================== *)
(** * Properties                                                       *)
(* ================================================================== *)

(** ** Strings *)

Lemma truthy_false (s : jsstr) : truthy s = false <-> s = [].
Proof. destruct s; simpl; split; congruence. Qed.

Lemma truthy_true (s : jsstr) : truthy s = true <-> s <> [].
Proof. destruct s; simpl; split; congruence. Qed.

Lemma trimStart_nil (s : jsstr) :
  trimStart s = [] <-> forallb is_space s = true.
Proof.
  induction s as [|c s IH]; simpl; [tauto|].
  destruct (is_space c); simpl; [exact IH|].
  split; intros H; discriminate H.
Qed.

Lemma trimStart_all_space (s : jsstr) :
  forallb is_space s = true -> trimStart s = [].
Proof. apply trimStart_nil. Qed.

Lemma trimStart_head (s : jsstr) :
  match trimStart s with c :: _ => is_space c = false | [] => True end.
Proof.
  induction s as [|c s IH]; simpl; [exact I|].
  destruct (is_space c) eqn:E; [exact IH|exact E].
Qed.

(** A string trims to the empty string exactly when it consists of
    white space and line terminators. *)
Lemma trim_nil (s : jsstr) : trim s = [] <-> forallb is_space s = true.
Proof.
  unfold trim, trimEnd. split.
  - intros H. apply trimStart_nil.
    apply (f_equal (@rev N)) in H. rewrite rev_involutive in H. simpl in H.
    apply trimStart_nil in H. rewrite forallb_forall in H.
    pose proof (trimStart_head s) as Hh.
    destruct (trimStart s) as [|c r]; [reflexivity|].
    rewrite (H c) in Hh; [discriminate|].
    apply in_rev. rewrite rev_involutive. left. reflexivity.
  - intros H. apply trimStart_nil in H. rewrite H. reflexivity.
Qed.

(** [split] cuts exactly at the separators: joining gives the text
    back, and no piece contains the separator. *)
Lemma split_not_nil (sep : N) (s : jsstr) : split sep s <> [].
Proof.
  induction s as [|c s IH]; simpl; [discriminate|].
  destruct (c =? sep); [discriminate|].
  destruct (split sep s); [contradiction|discriminate].
Qed.

Lemma join_split (sep : N) (s : jsstr) : join sep (split sep s) = s.
Proof.
  induction s as [|c s IH]; simpl; [reflexivity|].
  destruct (N.eqb_spec c sep) as [->|Hne].
  - simpl. pose proof (split_not_nil sep s) as Hn.
    destruct (split sep s) as [|l ls]; [contradiction|].
    simpl in *. rewrite IH. reflexivity.
  - pose proof (split_not_nil sep s) as Hn.
    destruct (split sep s) as [|l ls]; [contradiction|].
    simpl in *. destruct ls; simpl in *; rewrite <- IH; reflexivity.
Qed.

Lemma split_pieces (sep : N) (s : jsstr) :
  Forall (fun l => ~ In sep l) (split sep s).
Proof.
  induction s as [|c s IH]; simpl.
  - constructor; [intros []|constructor].
  - destruct (N.eqb_spec c sep) as [->|Hne].
    + constructor; [intros []|exact IH].
    + destruct (split sep s) as [|l ls].
      * constructor; [|constructor]. intros [H|[]]. congruence.
      * inversion IH; subst. constructor; [|assumption].
        intros [H|H]; [congruence|contradiction].
Qed.

(** ** Field extractor: the name *)

Lemma filter_blank_prefix (pre rest : list jsstr) :
  Forall (fun x => trim x = []) pre ->
  List.filter truthy (List.map trim (pre ++ rest))
  = List.filter truthy (List.map trim rest).
Proof.
  induction 1 as [|x pre Hx _ IH]; simpl; [reflexivity|].
  rewrite Hx. simpl. exact IH.
Qed.

(** C2. For a text with at least one line that is non-blank after
    trimming, [extractPatientName] returns the first such line,
    trimmed; for a text whose lines are all blank after trimming it
    returns nothing.  The lines are the pieces of [text.split("\n")]. *)
Theorem C2_extractPatientName_first_nonblank_line (text : jsstr) :
  (forall pre l post,
      split NL text = pre ++ l :: post ->
      Forall (fun x => trim x = []) pre ->
      trim l <> [] ->
      extractPatientName text = Some (trim l))
  /\ (Forall (fun x => trim x = []) (split NL text) ->
      extractPatientName text = None).
Proof.
  unfold extractPatientName. split.
  - intros pre l post -> Hpre Hl.
    rewrite filter_blank_prefix by exact Hpre. simpl.
    apply truthy_true in Hl. rewrite Hl. reflexivity.
  - intros Hall.
    rewrite <- (app_nil_r (split NL text)).
    rewrite filter_blank_prefix by exact Hall. reflexivity.
Qed.

Lemma C2_witness :
  extractPatientName (u "
   
  Jane Doe  
Phone Number: 555-1234") = Some (u "Jane Doe")
  /\ extractPatientName (u " 
	
  ") = None.
Proof.
  split.
  - apply (proj1 (C2_extractPatientName_first_nonblank_line _)
             [[]; u "   "] (u "  Jane Doe  ") [u "Phone Number: 555-1234"]).
    + reflexivity.
    + repeat constructor.
    + discriminate.
  - apply (proj2 (C2_extractPatientName_first_nonblank_line _)).
    repeat constructor.
Defined.

(** ** Field extractor: the labelled fields *)

Lemma match_literal_app (p q lab s : jsstr) :
  match_literal p lab = Some [] ->
  match_literal (p ++ q) (lab ++ s) = match_literal q s.
Proof.
  revert lab. induction p as [|a p IH]; intros lab H; simpl in *.
  - injection H as ->. reflexivity.
  - destruct lab as [|c lab]; [discriminate|]. simpl.
    destruct (ci_eq a c); [apply IH; exact H|discriminate].
Qed.

Lemma dot_run_line (value post : jsstr) :
  forallb (fun c => negb (is_line_terminator c)) value = true ->
  (post = [] \/ exists c post', post = c :: post' /\ is_line_terminator c = true) ->
  dot_run (value ++ post) = value.
Proof.
  intros Hv Hp. induction value as [|c value IH]; simpl in *.
  - destruct Hp as [->|(c & post' & -> & Hc)]; simpl; [reflexivity|].
    rewrite Hc. reflexivity.
  - apply andb_prop in Hv as [Hc Hv]. apply negb_true_iff in Hc.
    rewrite Hc, IH by exact Hv. reflexivity.
Qed.

Lemma line_terminator_is_space (c : N) :
  is_line_terminator c = true -> is_space c = true.
Proof. unfold is_space. intros ->. apply orb_true_r. Qed.

Lemma spaces_then_group_value (gap v0 vs post : jsstr) (c0 : N) :
  forallb is_space gap = true ->
  is_space c0 = false ->
  forallb (fun c => negb (is_line_terminator c)) (c0 :: vs) = true ->
  (post = [] \/ exists c post', post = c :: post' /\ is_line_terminator c = true) ->
  spaces_then_group (gap ++ (c0 :: vs) ++ post) = Some (c0 :: vs).
Proof.
  intros Hgap Hc0 Hv Hp.
  assert (Hbase : spaces_then_group ((c0 :: vs) ++ post) = Some (c0 :: vs)).
  { change (spaces_then_group (c0 :: (vs ++ post)) = Some (c0 :: vs)).
    cbn [spaces_then_group]. rewrite Hc0. unfold dot_plus.
    change (c0 :: vs ++ post) with ((c0 :: vs) ++ post).
    rewrite dot_run_line by assumption. reflexivity. }
  induction gap as [|c gap IH]; [exact Hbase|].
  simpl in Hgap. apply andb_prop in Hgap as [Hc Hgap].
  change ((c :: gap) ++ (c0 :: vs) ++ post)
    with (c :: (gap ++ (c0 :: vs) ++ post)).
  cbn [spaces_then_group]. rewrite Hc, IH by exact Hgap. reflexivity.
Qed.

Lemma regexp_capture_skip (label pre rest : jsstr) :
  no_label_before label (length pre) (pre ++ rest) = true ->
  regexp_capture label (pre ++ rest) = regexp_capture label rest.
Proof.
  induction pre as [|c pre IH]; intros H; [reflexivity|].
  cbn [no_label_before length app] in H.
  apply andb_prop in H as [Hhere Hlater].
  apply negb_true_iff in Hhere. unfold label_at in Hhere.
  cbn [app regexp_capture]. unfold match_here.
  destruct (match_literal (label ++ [COLON]) (c :: pre ++ rest));
    [discriminate|].
  apply IH. exact Hlater.
Qed.

Lemma regexp_capture_none (label s : jsstr) :
  no_label_before label (S (length s)) s = true ->
  regexp_capture label s = None.
Proof.
  induction s as [|c s IH]; intros H.
  - simpl in H. rewrite andb_true_r in H. apply negb_true_iff in H.
    unfold label_at in H. simpl. unfold match_here.
    destruct (match_literal (label ++ [COLON]) []); [discriminate|reflexivity].
  - change (no_label_before label (S (S (length s))) (c :: s) = true) in H.
    cbn [no_label_before] in H. apply andb_prop in H as [Hhere Hlater].
    apply negb_true_iff in Hhere. unfold label_at in Hhere.
    cbn [regexp_capture]. unfold match_here.
    destruct (match_literal (label ++ [COLON]) (c :: s)); [discriminate|].
    apply IH. exact Hlater.
Qed.

(** C3 (as amended). [extractValue] looks for the first place of the
    text, at a line start or not, where [<Label>:] stands in any ASCII
    case.  When that place is followed by white space (line breaks
    included) and then by a character that is not white space, the
    result is the text from that character to the end of its line,
    trimmed.  When [<Label>:] stands nowhere in the text the result is
    [null].  The result is a function of the label and the text alone,
    defined for every text. *)
Theorem C3_extractValue_first_label (label text : jsstr) :
  (forall pre lab gap c0 vs post,
      text = pre ++ lab ++ COLON :: gap ++ (c0 :: vs) ++ post ->
      no_label_before label (length pre) text = true ->
      match_literal label lab = Some [] ->
      forallb is_space gap = true ->
      is_space c0 = false ->
      forallb (fun c => negb (is_line_terminator c)) (c0 :: vs) = true ->
      (post = [] \/
       exists c post', post = c :: post' /\ is_line_terminator c = true) ->
      extractValue label text = Some (trim (c0 :: vs)))
  /\ (no_label_before label (S (length text)) text = true ->
      extractValue label text = None).
Proof.
  unfold extractValue. split.
  - intros pre lab gap c0 vs post -> Hfree Hlab Hgap Hc0 Hv Hp.
    rewrite regexp_capture_skip by exact Hfree.
    assert (Hm : match_here label (lab ++ COLON :: gap ++ (c0 :: vs) ++ post)
                 = Some (c0 :: vs)).
    { unfold match_here.
      rewrite (match_literal_app label [COLON] lab) by exact Hlab.
      cbn [match_literal]. unfold ci_eq. rewrite N.eqb_refl.
      apply spaces_then_group_value; assumption. }
    destruct (lab ++ COLON :: gap ++ (c0 :: vs) ++ post) as [|x xs] eqn:E;
      cbn [regexp_capture]; rewrite Hm; reflexivity.
  - intros Hfree. rewrite regexp_capture_none by exact Hfree. reflexivity.
Qed.

Lemma C3_witness :
  extractValue LABEL_SERVICE (u "Jane
service:   Checkup 
x") = Some (u "Checkup")
  /\ extractValue LABEL_SERVICE (u "Jane
Phone Number: 1") = None.
Proof.
  split.
  - apply (proj1 (C3_extractValue_first_label LABEL_SERVICE _)
             (u "Jane
") (u "service") (u "   ") 67 (u "heckup ") (u "
x")); try reflexivity.
    right. eexists _, _. split; reflexivity.
  - apply (proj2 (C3_extractValue_first_label LABEL_SERVICE _)). reflexivity.
Defined.

(** C3 as the specification states it fails: the text has one line
    with the label, its remainder is empty, and the extractor returns
    the whole next line. *)
Lemma C3_counterexample :
  split NL (u "Service:
Special Note: hi") = [u "Service:"; u "Special Note: hi"]
  /\ spec_extractValue LABEL_SERVICE (u "Service:
Special Note: hi") = Some []
  /\ extractValue LABEL_SERVICE (u "Service:
Special Note: hi") = Some (u "Special Note: hi")
  /\ extractValue LABEL_SERVICE (u "Service:
Special Note: hi")
     <> spec_extractValue LABEL_SERVICE (u "Service:
Special Note: hi").
Proof. repeat split; try reflexivity. discriminate. Qed.

(** ** Sender configuration *)

Lemma store_get_own (g : globals) (k : jsstr) (cfg : boardCfg) :
  k <> PROTO -> boardStore g !! k = Some cfg -> store_get g k = FBoard cfg.
Proof.
  intros Hk Hcfg. unfold store_get.
  destruct (decide (k = PROTO)); [contradiction|]. rewrite Hcfg. reflexivity.
Qed.

Lemma configSender_unknown {env : Env} (g : globals) (req : senderRequest) :
  truthy_found (store_get g (req_boardId req)) = false ->
  configSender g req = (g, Respond 404 (ErrorBody (u "Board not registered"))).
Proof. unfold configSender. intros ->. reflexivity. Qed.

Lemma configSender_string {env : Env} (g : globals) (req : senderRequest)
    (cfg : boardCfg) (s : jsstr) :
  req_boardId req <> PROTO ->
  boardStore g !! req_boardId req = Some cfg ->
  body_sender g req = VString s ->
  configSender g req
  = (Globals (processedUids g)
       (<[req_boardId req := with_sender cfg (toLowerCase s)]> (boardStore g))
       (storePrototype g) (protoSender g) (builtinSender g),
     Respond 200 (SavedBody (u "Allowed sender email saved")
                    (req_boardId req) (VString s))).
Proof.
  intros Hk Hcfg Hs. unfold configSender.
  rewrite (store_get_own g _ cfg Hk Hcfg), Hs. cbn [truthy_found negb].
  unfold store_write. destruct (decide (req_boardId req = PROTO)); [contradiction|].
  reflexivity.
Qed.

(** C10. POST /config/sender looks the board up with
    [boardStore[boardId]], which also finds what [boardStore] inherits.
    In a process where no board is registered, the request for the
    board [__proto__] is answered with 200 and its lower-cased address
    becomes [Object.prototype.allowedSenderEmail]; the request for the
    board [constructor] is answered with 200 as well.  Once
    [Object.prototype] has the property, a request for a registered
    board whose body has no [allowedSenderEmail] is answered with 200
    and stores the inherited address for the board. *)
Theorem C10_configSender :
  @configSender demoEnv (shared start) protoRequest
  = (Globals ∅ ∅ None (Some (u "doc@clinic.com")) ∅,
     Respond 200 (SavedBody (u "Allowed sender email saved") PROTO
                    (VString (u "Doc@Clinic.com"))))
  /\ @configSender demoEnv (shared start)
       (SenderRequest (u "constructor") (VString (u "A@x.com")))
     = (Globals ∅ ∅ None None {[ u "constructor" := u "a@x.com" ]},
        Respond 200 (SavedBody (u "Allowed sender email saved")
                       (u "constructor") (VString (u "A@x.com"))))
  /\ @configSender demoEnv
       (Globals ∅ {[ u "42" := BoardCfg (u "tok") demoColumns None ]} None
          (Some (u "doc@clinic.com")) ∅)
       (SenderRequest (u "42") VUndefined)
     = (Globals ∅ {[ u "42" := demoCfg ]} None (Some (u "doc@clinic.com")) ∅,
        Respond 200 (SavedBody (u "Allowed sender email saved") (u "42")
                       (VString (u "doc@clinic.com")))).
Proof. repeat split; vm_compute; reflexivity. Qed.

(** ** Mailbox poller: one message *)

Lemma sender_rejected_true (allowed from : option jsstr) :
  allowed = None \/ from <> allowed -> sender_rejected allowed from = true.
Proof.
  unfold sender_rejected. intros [->|Hne]; [reflexivity|].
  rewrite bool_decide_eq_false_2 by exact Hne. apply orb_true_r.
Qed.

(** The sender is accepted exactly when an allowed sender is stored, it
    is not the empty string, and the parsed address is that very
    string. *)
Lemma sender_rejected_false (allowed from : option jsstr) :
  sender_rejected allowed from = false
  <-> exists a, allowed = Some a /\ a <> [] /\ from = Some a.
Proof.
  unfold sender_rejected. rewrite orb_false_iff, !negb_false_iff. split.
  - intros [Ht Heq]. apply bool_decide_eq_true_1 in Heq. subst from.
    destruct allowed as [a|]; [|discriminate]. exists a.
    split; [reflexivity|]. split; [|reflexivity]. apply truthy_true. exact Ht.
  - intros (a & -> & Ha & ->). split; [apply truthy_true; exact Ha|].
    apply bool_decide_eq_true_2. reflexivity.
Qed.

Lemma after_parse_rejected {env : Env} (g : globals) (boardId : jsstr)
    (m : message) (rest : list message) (parsed : parsedMail) (cfg : boardCfg) :
  store_get g boardId = FBoard cfg ->
  sender_rejected (effective_sender g cfg) (p_from parsed) = true ->
  after_parse g boardId m rest parsed
  = (g, AwaitRejectFlag m rest, [AddFlagsSeen (uid m)]).
Proof.
  unfold after_parse, effective_sender. intros -> H. cbn [sender_of].
  rewrite H. reflexivity.
Qed.

Lemma exec_step {env : Env} (s s' : process) (act : action) :
  exec s act = Some s' -> step s act = Some s'.
Proof. unfold exec. destruct (exited s); [discriminate|]. trivial. Qed.

Lemma exec_live {env : Env} (s : process) (act : action) :
  exited s = false -> exec s act = step s act.
Proof. unfold exec. intros ->. reflexivity. Qed.

Lemma resume_threw {env : Env} (g : globals) (b : jsstr) (a : answer) :
  resume g b Threw a = None.
Proof. destruct a; reflexivity. Qed.

(** A function that has ended with a rejection stays as it is. *)
Lemma step_keeps_threw {env : Env} (s s' : process) (act : action)
    (i : nat) (b : jsstr) :
  step s act = Some s' ->
  tasks s !! i = Some (Task b Threw) -> tasks s' !! i = Some (Task b Threw).
Proof.
  intros Hstep Hi. destruct act as [k|j a|req|b' token cols]; cbn [step] in Hstep.
  - destruct (timers s !! k); [|discriminate]. injection Hstep as <-.
    cbn [tasks]. apply lookup_app_l_Some. exact Hi.
  - destruct (tasks s !! j) as [t|] eqn:Hj; [|discriminate].
    destruct (resume (shared s) (t_board t) (t_stage t) a) as [[[g' st'] calls]|]
      eqn:Hr; [|discriminate].
    injection Hstep as <-. cbn [tasks].
    destruct (decide (j = i)) as [->|Hne].
    + rewrite Hi in Hj. injection Hj as <-. cbn [t_board t_stage] in Hr.
      rewrite resume_threw in Hr. discriminate.
    + rewrite list_lookup_insert_ne by exact Hne. exact Hi.
  - injection Hstep as <-. exact Hi.
  - injection Hstep as <-. unfold startEmailListener. cbn [shared tasks].
    destruct (truthy_found _); cbn [tasks]; [|exact Hi].
    apply lookup_app_l_Some. exact Hi.
Qed.

Lemma run_keeps_threw {env : Env} (schedule : list action) (s s' : process)
    (i : nat) (b : jsstr) :
  run s schedule = Some s' ->
  tasks s !! i = Some (Task b Threw) -> tasks s' !! i = Some (Task b Threw).
Proof.
  revert s. induction schedule as [|act schedule IH]; intros s Hrun Hi.
  - injection Hrun as <-. exact Hi.
  - cbn [run] in Hrun. destruct (exec s act) as [s1|] eqn:He; [|discriminate].
    apply (IH s1 Hrun). apply (step_keeps_threw s s1 act i b); [|exact Hi].
    apply exec_step. exact He.
Qed.

Lemma existsb_threw_insert (ts : list task) (i : nat) (b : jsstr) :
  (i < length ts)%nat ->
  existsb threw (<[i := Task b Threw]> ts) = true.
Proof.
  revert i. induction ts as [|t ts IH]; intros i Hi; [simpl in Hi; lia|].
  destruct i as [|i]; [reflexivity|]. cbn [insert list_insert existsb].
  change (list_insert i (Task b Threw) ts) with (<[i := Task b Threw]> ts).
  rewrite IH by (simpl in Hi; lia). apply orb_true_r.
Qed.

(** C4, what the program does: the check of the callback compares
    with [boardStore[boardId].allowedSenderEmail], which is the
    property [Object.prototype] has when the board entry has none of
    its own, and POST /config/sender writes that property when it is
    sent the board [__proto__].  Board 42 is onboarded and no sender is
    ever configured for it; after one such request, a message from the
    address of the request is not rejected for board 42: it is parsed,
    a record is created from it, and no call flags it seen before. *)
Theorem C4_sender_mismatch_marks_seen_and_skips :
  @run demoEnv start pollutedSchedule = Some pollutedFinal
  /\ boardStore (shared pollutedFinal) !! u "42"
     = Some (BoardCfg (u "tok") demoColumns None)
  /\ (exists query,
         trace pollutedFinal
         = [ImapConnect; OpenBox; SearchUnseen; LedgerAdd 1;
            Parse 1 (body msg1); CreateItem 1 (u "tok") query])
  /\ count (is_flag_for 1) (trace pollutedFinal) = O.
Proof.
  split; [vm_compute; reflexivity|]. split; [vm_compute; reflexivity|].
  split; [|vm_compute; reflexivity].
  eexists. vm_compute. reflexivity.
Qed.

(** C5, what the program does: a claimed message from the allowed
    sender whose text has no non-blank line is left by [continue]; the
    loop goes straight to the next message and the message is never
    flagged seen. *)
Theorem C5_nameless_message_is_not_marked_seen {env : Env}
    (g : globals) (boardId : jsstr) (m : message) (rest : list message)
    (parsed : parsedMail) (cfg : boardCfg) :
  store_get g boardId = FBoard cfg ->
  sender_rejected (effective_sender g cfg) (p_from parsed) = false ->
  extractPatientName (mail_text parsed) = None ->
  resume g boardId (AwaitParse m rest) (Parsed parsed) = Some (loop g rest)
  /\ forall id, count (is_flag_for id) (snd (loop g rest)) = O.
Proof.
  intros Hcfg Hacc Hname. split.
  - cbn [resume]. unfold after_parse. rewrite Hcfg. cbn [sender_of].
    fold (effective_sender g cfg). rewrite Hacc, Hname. reflexivity.
  - intros id. induction rest as [|m' rest IH]; [reflexivity|].
    cbn [loop]. destruct (decide (uid m' ∈ processedUids g)); [exact IH|].
    reflexivity.
Qed.

(** C8 (as amended). No await of the callback stands in a [try]: when
    the call a message is waiting on fails, the run of that cycle ends
    there with a rejected promise.  It has made no further call and
    changed nothing, and it is never resumed, so the messages after the
    failing one are not visited by it.  Nothing handles the rejection:
    where the runtime ends the process on an unhandled rejection, as
    Node does by default, no timer fires and nothing else happens
    afterwards, for any board; where it only warns, the timers go on
    starting new cycles. *)
Theorem C8_failure_ends_the_cycle {env : Env}
    (s : process) (i : nat) (t : task) (m : message) (rest : list message) :
  exited s = false ->
  tasks s !! i = Some t ->
  awaits_on (t_stage t) m rest ->
  let s' := Process (shared s) (timers s)
              (<[i := Task (t_board t) Threw]> (tasks s)) (trace s) in
  exec s (Resume i Rejected) = Some s'
  /\ (forall schedule s'',
         run s' schedule = Some s'' ->
         tasks s'' !! i = Some (Task (t_board t) Threw))
  /\ (exitsOnUnhandledRejection = true -> forall act, exec s' act = None)
  /\ (exitsOnUnhandledRejection = false ->
      forall k b,
        timers s !! k = Some b ->
        exec s' (Tick k)
        = Some (Process (shared s) (timers s)
                  (<[i := Task (t_board t) Threw]> (tasks s)
                   ++ [Task b AwaitSearch])
                  (trace s ++ [SearchUnseen]))).
Proof.
  intros Hlive Hi Hst s'.
  assert (Hlt : (i < length (tasks s))%nat)
    by (apply lookup_lt_is_Some; eexists; exact Hi).
  assert (Hthrew : tasks s' !! i = Some (Task (t_board t) Threw))
    by (subst s'; cbn [tasks]; apply list_lookup_insert_eq; exact Hlt).
  split; [|split; [|split]].
  - rewrite (exec_live s _ Hlive). cbn [step]. rewrite Hi.
    assert (Hr : resume (shared s) (t_board t) (t_stage t) Rejected
                 = Some (shared s, Threw, []))
      by (destruct Hst as [-> | [-> | [-> | ->]]]; reflexivity).
    rewrite Hr.
    assert (Hno : installs_timer (t_stage t) Threw = false)
      by (destruct (t_stage t); reflexivity).
    rewrite Hno, app_nil_r. reflexivity.
  - intros schedule s'' Hrun.
    apply (run_keeps_threw schedule s' s'' i (t_board t) Hrun Hthrew).
  - intros Hexit act. unfold exec, exited. rewrite Hexit. subst s'.
    cbn [tasks andb]. rewrite existsb_threw_insert by exact Hlt. reflexivity.
  - intros Hwarn k b Hk. unfold exec, exited. rewrite Hwarn.
    cbn [andb step]. subst s'. cbn [timers]. rewrite Hk. reflexivity.
Qed.

Lemma C5_witness :
  @resume demoEnv demoGlobals (u "42") (AwaitParse msg1 [msg2]) (Parsed mailBlank)
  = Some (loop demoGlobals [msg2])
  /\ forall id, count (is_flag_for id) (snd (loop demoGlobals [msg2])) = O.
Proof.
  apply (@C5_nameless_message_is_not_marked_seen demoEnv demoGlobals (u "42")
           msg1 [msg2] mailBlank demoCfg); reflexivity.
Defined.

Lemma C8_witness :
  @exec demoEnv demoParsing (Resume 1 Rejected)
  = Some (Process (shared demoParsing) (timers demoParsing)
            (<[1%nat := Task (u "42") Threw]> (tasks demoParsing))
            (trace demoParsing))
  /\ forall act,
       @exec demoEnv
         (Process (shared demoParsing) (timers demoParsing)
            (<[1%nat := Task (u "42") Threw]> (tasks demoParsing))
            (trace demoParsing))
         act
       = None.
Proof.
  destruct (@C8_failure_ends_the_cycle demoEnv demoParsing 1
              (Task (u "42") (AwaitParse msg1 [msg2])) msg1 [msg2])
    as (H1 & _ & H3 & _).
  - vm_compute. reflexivity.
  - vm_compute. reflexivity.
  - left. reflexivity.
  - split; [exact H1|]. apply H3. reflexivity.
Defined.

(** C8 as the specification states it fails: a cycle finds two unseen
    messages and the parser fails on the first.  The run ends: the
    second message is neither claimed nor parsed, whatever answers
    would have followed; and in a process run by a current Node the
    timer does not fire again. *)
Lemma C8_counterexample :
  (let r := @run_cycle warningEnv demoGlobals (u "42") AwaitSearch
              [Results [msg1; msg2]; Rejected; Parsed mailJane; Done; Done] in
   snd (fst r) = Threw
   /\ snd r = [LedgerAdd 1; Parse 1 (body msg1)]
   /\ count (mentions 2) (snd r) = O
   /\ 2 ∉ processedUids (fst (fst r)))
  /\ exists s',
       @exec demoEnv demoParsing (Resume 1 Rejected) = Some s'
       /\ count (mentions 2) (trace s') = O
       /\ (2 ∉ processedUids (shared s'))
       /\ @exec demoEnv s' (Tick 0) = None
       /\ @run demoEnv s' [Tick 0; Resume 2 (Results [msg2])] = None.
Proof.
  split.
  - cbv zeta. split; [reflexivity|]. split; [reflexivity|].
    split; [reflexivity|].
    apply (bool_decide_eq_false_1 (2 ∈ _)). vm_compute. reflexivity.
  - eexists. split; [vm_compute; reflexivity|].
    split; [vm_compute; reflexivity|].
    split; [|split; vm_compute; reflexivity].
    apply (bool_decide_eq_false_1 (2 ∈ _)). vm_compute. reflexivity.
Qed.

(** ** Record creator *)








Lemma truthy_opt_cases (o : option jsstr) :
  (truthy_opt o = false /\ (o = None \/ o = Some []))
  \/ (exists c s, o = Some (c :: s)).
Proof.
  destruct o as [[|c s]|]; [left|right|left]; eauto.
Qed.

(** A text without quote, backslash or control character, and with
    surrogates in pairs only, is read back as it is. *)
Lemma gql_string_verbatim (name rest : jsstr) :
  gql_verbatim name = true ->
  gql_string (name ++ QUOTE :: rest) = Some (name, rest).
Proof.
  remember (length name) as n eqn:Hn.
  assert (Hle : (length name <= n)%nat) by lia. clear Hn.
  revert name Hle. induction n as [|n IH]; intros name Hle H.
  - destruct name; [|simpl in Hle; lia]. reflexivity.
  - destruct name as [|c s]; [reflexivity|].
    cbn [gql_verbatim] in H. cbn [app gql_string].
    destruct (c =? QUOTE) eqn:E1; [discriminate H|].
    destruct (c =? BACKSLASH) eqn:E2; [discriminate H|].
    destruct (gql_control c) eqn:E3; [discriminate H|].
    cbn [orb] in H.
    destruct (is_high_surrogate c) eqn:E4.
    + destruct s as [|d s]; [discriminate H|].
      apply andb_true_iff in H as [Hd Hs]. cbn [app]. rewrite Hd.
      rewrite (IH s) by (try exact Hs; simpl in Hle; lia). reflexivity.
    + destruct (is_low_surrogate c); [discriminate H|].
      rewrite (IH s) by (try exact H; simpl in Hle; lia). reflexivity.
Qed.

Lemma gql_verbatim_head (c : N) (s : jsstr) :
  gql_verbatim (c :: s) = true -> (c =? QUOTE) = false.
Proof.
  cbn [gql_verbatim]. destruct (c =? QUOTE); [discriminate|reflexivity].
Qed.

(** The same for the literal as a whole, when what follows the closing
    quote is not a quote. *)
Lemma gql_literal_verbatim (name rest : jsstr) :
  gql_verbatim name = true ->
  (hd 0 rest =? QUOTE) = false ->
  gql_literal (name ++ QUOTE :: rest) = Some (name, rest).
Proof.
  intros Hv Hrest. rewrite <- (gql_string_verbatim name rest Hv).
  unfold gql_literal. destruct name as [|c s].
  - cbn [app]. destruct rest as [|r rest]; [reflexivity|].
    cbn [hd] in Hrest. rewrite Hrest, andb_false_r. reflexivity.
  - cbn [app]. rewrite (gql_verbatim_head c s Hv).
    destruct (s ++ QUOTE :: rest); reflexivity.
Qed.




(** For plain values the store reads back what the program meant: the
    name, and the JSON text of [values]. *)
Example createItem_plain_literals :
  let values :=
    createItem_values demoCfg (Some (u "jane@x.com")) (Some (u "555-1234"))
      (Some (u "Checkup")) None in
  let query := createItem_query (u "42") (u "Jane Doe") values in
  fst <$> argument_literal (u "item_name") query = Some (u "Jane Doe")
  /\ fst <$> argument_literal (u "column_values") query
     = Some (stringify (JObject values)).
Proof. split; reflexivity. Qed.

(** Column identifiers that are array indices come first in the
    payload, in ascending order, whatever the order of the
    assignments. *)
Example createItem_values_order :
  List.map fst
    (createItem_values
       (BoardCfg (u "tok")
          [(u "email", u "10"); (u "phone", u "text7"); (u "service", u "9");
           (u "note", u "007")]
          None)
       (Some (u "jane@x.com")) (Some (u "555-1234")) (Some (u "Checkup"))
       (Some (u "hello")))
  = [u "9"; u "10"; u "text7"; u "007"].
Proof. reflexivity. Qed.

(** C9, what the program does.  The name is spliced between two quotes
    as it is: a name with a quote in it ends the [item_name] literal at
    that quote, so the store reads the name [Jane ] and finds the rest
    of the name where the next argument should start.  In [values] only
    quotes are escaped, after [JSON.stringify] has already put a
    backslash before each quote of a value: the backslash is then read
    as an escaped backslash and the quote ends the [column_values]
    literal inside the value. *)
Theorem C9_createItem_splices_unescaped_text :
  (fst <$> argument_literal (u "item_name")
             (createItem_query (u "42") nameQuoted [])
   = Some (u "Jane ")
   /\ (take 2 ∘ snd) <$> argument_literal (u "item_name")
                          (createItem_query (u "42") nameQuoted [])
      = Some (u "JD"))
  /\ (let values := createItem_values demoCfg None None None (Some noteQuoted) in
      stringify (JObject values)
      = u "{" ++ [QUOTE] ++ u "colN" ++ [QUOTE] ++ u ":" ++ [QUOTE] ++ u "say "
          ++ [BACKSLASH; QUOTE] ++ u "hi" ++ [BACKSLASH; QUOTE; QUOTE] ++ u "}"
      /\ fst <$> argument_literal (u "column_values")
                   (createItem_query (u "42") (u "Jane") values)
         = Some (u "{" ++ [QUOTE] ++ u "colN" ++ [QUOTE] ++ u ":" ++ [QUOTE]
                   ++ u "say " ++ [BACKSLASH])).
Proof. repeat split; reflexivity. Qed.

(** ** Schema resolution *)

Lemma find_column_app (title : jsstr) (b l : list column) :
  find_column title (b ++ l)
  = match find_column title b with
    | Some c => Some c
    | None => find_column title l
    end.
Proof.
  unfold find_column. induction b as [|c b IH]; simpl; [reflexivity|].
  destruct (bool_decide (col_title c = title)); [reflexivity|exact IH].
Qed.

Lemma find_column_other (title title' id : jsstr) :
  title' <> title -> find_column title [Column id title'] = None.
Proof.
  intros H. unfold find_column. simpl.
  rewrite bool_decide_eq_false_2 by exact H. reflexivity.
Qed.

Lemma find_column_self (title id : jsstr) :
  find_column title [Column id title] = Some (Column id title).
Proof.
  unfold find_column. simpl. rewrite bool_decide_eq_true_2 by reflexivity.
  reflexivity.
Qed.

(** A column added for another title does not change what a key
    finds. *)
Lemma find_spec_add (spec : option (jsstr * jsstr)) (board : list column)
    (id title : jsstr) :
  spec_title spec <> title ->
  find_spec spec (add_column board id title) = find_spec spec board
  \/ (find_spec spec board = None
      /\ find_spec spec (add_column board id title) = None).
Proof.
  intros Hne. destruct spec as [[t ty]|]; cbn [find_spec spec_title] in *.
  - left. unfold add_column. rewrite find_column_app.
    destruct (find_column t board); [reflexivity|].
    apply find_column_other. congruence.
  - left. reflexivity.
Qed.

(** A successful run of the loop: what it adds to the map, to the
    board and to the list of mutations. *)
Lemma ensure_loop_success {env : Env} (snap : list column)
    (todo : list (jsstr * option (jsstr * jsstr))) :
  NoDup (List.map (fun e => spec_title (snd e)) todo) ->
  forall board map map' board' calls,
    (forall e, e ∈ todo -> find_spec (snd e) board = find_spec (snd e) snap) ->
    ensure_loop snap board todo map = (Some map', board', calls) ->
    exists entries added,
      map' = map ++ entries
      /\ board' = board ++ added
      /\ Forall2 (resolves board') todo entries
      /\ calls = creates_for snap todo
      /\ Forall (fun c => col_title c
                          ∈ List.map (fun e => spec_title (snd e)) todo) added.
Proof.
  induction todo as [|[key spec] todo IH];
    intros Hnd board map map' board' calls Hsame Hrun.
  - simpl in Hrun. injection Hrun as <- <- <-.
    exists [], []. rewrite !app_nil_r. repeat split; constructor.
  - cbn [List.map fst snd] in Hnd. apply NoDup_cons in Hnd as [Hfresh Hnd].
    cbn [ensure_loop] in Hrun.
    pose proof (Hsame (key, spec) ltac:(left)) as Hhead.
    cbn [fst snd] in Hhead.
    unfold creates_for. cbn [List.filter List.map fst snd].
    destruct (find_spec spec snap) as [found|] eqn:Hfound.
    + destruct (IH Hnd board (map ++ [(key, col_id found)]) map' board' calls)
        as (entries & added & -> & -> & Hres & -> & Hadded).
      { intros e He. apply Hsame. right. exact He. }
      { exact Hrun. }
      exists ((key, col_id found) :: entries), added.
      rewrite <- app_assoc. split; [reflexivity|]. split; [reflexivity|].
      split; [|split; [reflexivity|]].
      * constructor; [|exact Hres]. split; [reflexivity|]. cbn [fst snd].
        destruct spec as [[title type]|]; [|discriminate Hfound].
        cbn [find_spec] in Hhead.
        exists found. rewrite find_column_app, Hhead.
        split; reflexivity.
      * eapply Forall_impl; [exact Hadded|]. intros c Hc. right. exact Hc.
    + destruct (newColumnId board (spec_title spec) (spec_type spec))
        as [id|] eqn:Hid; [|discriminate Hrun].
      destruct (ensure_loop snap (add_column board id (spec_title spec)) todo
                  (map ++ [(key, id)])) as [[r b2] calls2] eqn:Hrec.
      injection Hrun as -> -> <-.
      destruct (IH Hnd (add_column board id (spec_title spec))
                  (map ++ [(key, id)]) map' board' calls2)
        as (entries & added & -> & -> & Hres & -> & Hadded).
      { intros e He. rewrite <- (Hsame e ltac:(right; exact He)).
        destruct (find_spec_add (snd e) board id (spec_title spec))
          as [H|[H1 H2]]; [|exact H|congruence].
        intros Heq. apply Hfresh. rewrite <- Heq.
        apply list_elem_of_fmap. exists e. split; [reflexivity|exact He]. }
      { exact Hrec. }
      exists ((key, id) :: entries), (Column id (spec_title spec) :: added).
      unfold add_column. rewrite <- !app_assoc. cbn [app].
      split; [reflexivity|]. split; [reflexivity|].
      split; [|split; [reflexivity|]].
      * constructor.
        -- split; [reflexivity|]. cbn [fst snd].
           destruct spec as [[title type]|]; cbn [spec_title find_spec] in *.
           ++ exists (Column id title).
              rewrite find_column_app, Hhead.
              change (Column id title :: added) with ([Column id title] ++ added).
              rewrite find_column_app, find_column_self. split; reflexivity.
           ++ apply elem_of_app. right. left.
        -- unfold add_column in Hres. rewrite <- app_assoc in Hres. exact Hres.
      * constructor; [left|].
        eapply Forall_impl; [exact Hadded|]. intros c Hc. right. exact Hc.
Qed.

(** A run on a board where every visited key finds its title changes
    nothing and issues no mutation. *)
Lemma ensure_loop_all_found {env : Env} (snap board : list column)
    (todo : list (jsstr * option (jsstr * jsstr)))
    (entries map : list (jsstr * jsstr)) :
  Forall (fun e => is_Some (snd e)) todo ->
  Forall2 (resolves snap) todo entries ->
  ensure_loop snap board todo map = (Some (map ++ entries), board, []).
Proof.
  intros Hsome H. revert map.
  induction H as [|[key spec] [k id] todo entries Hres _ IH]; intros map.
  - simpl. rewrite app_nil_r. reflexivity.
  - apply Forall_cons in Hsome as [[[title type] Hspec] Hsome].
    cbn [snd] in Hspec. subst spec.
    destruct Hres as [Hk (c & Hc & Hid)]. cbn [fst snd] in *. subst k id.
    cbn [ensure_loop find_spec]. rewrite Hc, (IH Hsome), <- app_assoc.
    reflexivity.
Qed.

(** The loop over two lists of keys is the loop over the first and
    then, unless it threw, over the second. *)
Lemma ensure_loop_app {env : Env} (snap : list column)
    (todo1 todo2 : list (jsstr * option (jsstr * jsstr))) :
  forall board map,
    ensure_loop snap board (todo1 ++ todo2) map
    = match ensure_loop snap board todo1 map with
      | (Some map', board', calls) =>
          let '(r, board'', calls') := ensure_loop snap board' todo2 map' in
          (r, board'', calls ++ calls')
      | (None, board', calls) => (None, board', calls)
      end.
Proof.
  induction todo1 as [|[key spec] todo1 IH]; intros board map.
  - cbn [app ensure_loop].
    destruct (ensure_loop snap board todo2 map) as [[r b] c]. reflexivity.
  - cbn [app ensure_loop]. destruct (find_spec spec snap) as [found|].
    + apply IH.
    + destruct (newColumnId board (spec_title spec) (spec_type spec)) as [id|];
        [|reflexivity].
      rewrite IH.
      destruct (ensure_loop snap (add_column board id (spec_title spec)) todo1
                  (map ++ [(key, id)])) as [[[m'|] b'] c']; [|reflexivity].
      destruct (ensure_loop snap b' todo2 m') as [[r b''] c'']. reflexivity.
Qed.

Lemma for_in_titles_NoDup (inherited : option jsstr) :
  NoDup (List.map (fun e : jsstr * option (jsstr * jsstr) => spec_title (snd e))
           (for_in_required inherited)).
Proof.
  destruct inherited; apply (bool_decide_eq_true_1 (NoDup _));
    vm_compute; reflexivity.
Qed.

Lemma required_entries_Some :
  Forall (fun e : jsstr * option (jsstr * jsstr) => is_Some (snd e))
    required_entries.
Proof. repeat constructor; eexists; reflexivity. Qed.

Lemma lookup_key_app (k : jsstr) (m1 m2 : list (jsstr * jsstr)) :
  lookup_key k (m1 ++ m2)
  = match lookup_key k m1 with
    | Some v => Some v
    | None => lookup_key k m2
    end.
Proof.
  unfold lookup_key. induction m1 as [|e m1 IH]; cbn [app List.find].
  - reflexivity.
  - destruct (bool_decide (fst e = k)); [reflexivity|exact IH].
Qed.

(** The entries the inherited key adds to the map do not answer for
    any of the four logical keys. *)
Lemma lookup_key_inherited (board : list column) (inherited : option jsstr)
    (entries et : list (jsstr * jsstr)) (k : fieldKey) :
  Forall2 (resolves board) (inherited_entries inherited) et ->
  lookup_key (key_name k) (entries ++ et) = lookup_key (key_name k) entries.
Proof.
  intros H. rewrite lookup_key_app.
  destruct (lookup_key (key_name k) entries); [reflexivity|].
  destruct inherited; cbn [inherited_entries] in H.
  - apply Forall2_cons_inv_l in H as ([k' id] & et' & [Hk _] & Hnil & ->).
    apply Forall2_nil_inv_l in Hnil. subst et'. cbn [fst snd] in Hk. subst k'.
    destruct k; reflexivity.
  - apply Forall2_nil_inv_l in H. subst et. reflexivity.
Qed.

(** What the loop does with the inherited key alone. *)
Lemma ensure_loop_inherited {env : Env} (snap board : list column)
    (inherited : option jsstr) (map : list (jsstr * jsstr))
    (r : option (list (jsstr * jsstr))) (board' : list column)
    (calls : list createColumn) :
  ensure_loop snap board (inherited_entries inherited) map = (r, board', calls) ->
  Forall (fun c => creates_required c = false) calls
  /\ required_columns board' = required_columns board
  /\ (inherited = None -> r = Some map /\ board' = board /\ calls = [])
  /\ (forall map', r = Some map' ->
                   forall k, lookup_key (key_name k) map'
                             = lookup_key (key_name k) map).
Proof.
  destruct inherited as [s|]; cbn [inherited_entries ensure_loop find_spec
                                   spec_title spec_type].
  - destruct (newColumnId board UNDEFINED UNDEFINED) as [id|].
    + intros H. injection H as <- <- <-.
      split; [repeat constructor|]. split.
      * unfold required_columns, add_column. rewrite List.filter_app.
        cbn [List.filter col_title]. apply app_nil_r.
      * split; [discriminate|]. intros map' H k. injection H as <-.
        rewrite lookup_key_app.
        destruct (lookup_key (key_name k) map); [reflexivity|].
        destruct k; reflexivity.
    + intros H. injection H as <- <- <-.
      split; [repeat constructor|]. split; [reflexivity|].
      split; [discriminate|]. discriminate.
  - intros H. injection H as <- <- <-.
    split; [constructor|]. split; [reflexivity|].
    split; [intros _; repeat split|]. intros map' H k. injection H as <-.
    reflexivity.
Qed.

(** C7. When [ensureColumns] has succeeded on a board, running it again
    on the board it left creates no column for any of the four titles,
    leaves the columns that carry these titles as they are, and, when
    it returns, maps each of the four keys to the same identifier as
    before; while [Object.prototype] has no enumerable property it
    issues no mutation at all and leaves the whole board as it is, and
    then it returns the very same map if the first run was made in such
    a state too.  In the first run a column is created exactly for the
    visited titles that no column of the board carries; a required
    title that a column carries is mapped to the identifier of (the
    first) such column; the map has the keys the loop visits. *)
Theorem C7_ensureColumns_idempotent {env : Env} (inherited1 inherited2 : option jsstr)
    (board board1 board2 : list column) (map1 : list (jsstr * jsstr))
    (calls1 calls2 : list createColumn) (r2 : option (list (jsstr * jsstr))) :
  ensureColumns inherited1 board = (Some map1, board1, calls1) ->
  ensureColumns inherited2 board1 = (r2, board2, calls2) ->
  Forall (fun c => creates_required c = false) calls2
  /\ required_columns board2 = required_columns board1
  /\ (forall map2, r2 = Some map2 ->
                   forall k, lookup_key (key_name k) map2
                             = lookup_key (key_name k) map1)
  /\ (inherited2 = None ->
      calls2 = [] /\ board2 = board1
      /\ (inherited1 = None -> r2 = Some map1))
  /\ calls1 = creates_for board (for_in_required inherited1)
  /\ (forall key title type c,
         (key, (title, type)) ∈ required ->
         find_column title board = Some c ->
         (key_name key, col_id c) ∈ map1)
  /\ List.map fst map1 = List.map fst (for_in_required inherited1).
Proof.
  unfold ensureColumns. intros Hrun1 Hrun2.
  destruct (ensure_loop_success board (for_in_required inherited1)
              (for_in_titles_NoDup inherited1)
              board [] map1 board1 calls1 (fun _ _ => eq_refl) Hrun1)
    as (entries & added & Hmap & -> & Hres & -> & _).
  cbn [app] in Hmap. subst map1. unfold for_in_required in Hres.
  apply Forall2_app_inv_l in Hres as (e4 & et & Hres4 & Hrest & ->).
  unfold for_in_required in Hrun2 at 1. rewrite ensure_loop_app in Hrun2.
  rewrite (ensure_loop_all_found _ _ _ e4 [] required_entries_Some Hres4)
    in Hrun2.
  cbn [app] in Hrun2.
  destruct (ensure_loop (board ++ added) (board ++ added)
              (inherited_entries inherited2) e4) as [[r b] c] eqn:Htail.
  injection Hrun2 as <- <- <-. cbn [app].
  destruct (ensure_loop_inherited _ _ _ _ _ _ _ Htail)
    as (Hcalls & Hcols & Hnone & Hsame).
  split; [exact Hcalls|]. split; [exact Hcols|]. split; [|split].
  - intros map2 Hr k. rewrite (Hsame map2 Hr k).
    symmetry. apply (lookup_key_inherited (board ++ added) inherited1).
    exact Hrest.
  - intros Hinh. destruct (Hnone Hinh) as (-> & -> & ->).
    split; [reflexivity|]. split; [reflexivity|].
    intros ->. cbn [inherited_entries] in Hrest.
    apply Forall2_nil_inv_l in Hrest. subst et. rewrite app_nil_r. reflexivity.
  - split; [reflexivity|]. split.
    + intros key title type c0 He Hc.
      apply elem_of_app. left.
      assert (Hin : (key_name key, Some (title, type)) ∈ required_entries).
      { unfold required_entries. apply list_elem_of_fmap.
        exists (key, (title, type)). split; [reflexivity|exact He]. }
      apply list_elem_of_lookup in Hin as [i Hi].
      destruct (Forall2_lookup_l _ _ _ _ _ Hres4 Hi)
        as ([k id] & Hentry & Hk & c' & Hc' & Hid).
      cbn [fst snd] in *. subst k id.
      rewrite find_column_app, Hc in Hc'. injection Hc' as <-.
      apply list_elem_of_lookup. exists i. exact Hentry.
    + assert (Hfst : forall (todo : list (jsstr * option (jsstr * jsstr))) es,
                 Forall2 (resolves (board ++ added)) todo es ->
                 List.map fst es = List.map fst todo).
      { induction 1 as [|e en todo es [Hk _] _ IH]; simpl; [reflexivity|].
        rewrite Hk, IH. reflexivity. }
      unfold for_in_required. rewrite !List.map_app.
      rewrite (Hfst _ _ Hres4), (Hfst _ _ Hrest). reflexivity.
Qed.

Lemma C7_witness :
  let map1 := [(u "email", u "c2"); (u "phone", u "c3");
               (u "service", u "status7"); (u "note", u "c4")] in
  let board1 := demoBoard ++ [Column (u "c2") (u "Email Address");
                              Column (u "c3") (u "Phone Number");
                              Column (u "c4") (u "Special Note")] in
  required_columns (board1 ++ [Column (u "c5") UNDEFINED])
  = required_columns board1
  /\ (forall k, lookup_key (key_name k) (map1 ++ [(SENDER_KEY, u "c5")])
                = lookup_key (key_name k) map1)
  /\ [CreateColumn (u "Email Address") (u "email");
      CreateColumn (u "Phone Number") (u "phone");
      CreateColumn (u "Special Note") (u "long_text")]
     = creates_for demoBoard (for_in_required None).
Proof.
  intros map1 board1.
  destruct (@C7_ensureColumns_idempotent demoEnv None (Some (u "doc@clinic.com"))
              demoBoard board1 (board1 ++ [Column (u "c5") UNDEFINED]) map1
              [CreateColumn (u "Email Address") (u "email");
               CreateColumn (u "Phone Number") (u "phone");
               CreateColumn (u "Special Note") (u "long_text")]
              [CreateColumn UNDEFINED UNDEFINED]
              (Some (map1 ++ [(SENDER_KEY, u "c5")]))
              eq_refl eq_refl) as (_ & H2 & H3 & _ & H5 & _).
  split; [exact H2|]. split; [|exact H5].
  apply H3. reflexivity.
Defined.

(** Two runs in a process whose [Object.prototype] stays as the
    runtime made it: the second changes nothing and returns the map of
    the first. *)
Example ensureColumns_twice :
  let map1 := [(u "email", u "c2"); (u "phone", u "c3");
               (u "service", u "status7"); (u "note", u "c4")] in
  let board1 := demoBoard ++ [Column (u "c2") (u "Email Address");
                              Column (u "c3") (u "Phone Number");
                              Column (u "c4") (u "Special Note")] in
  @ensureColumns demoEnv None demoBoard
  = (Some map1, board1,
     [CreateColumn (u "Email Address") (u "email");
      CreateColumn (u "Phone Number") (u "phone");
      CreateColumn (u "Special Note") (u "long_text")])
  /\ @ensureColumns demoEnv None board1 = (Some map1, board1, []).
Proof. split; reflexivity. Qed.

(** ** Dedup ledger: at most one creation per message *)

Lemma count_app (p : call -> bool) (a b : list call) :
  count p (a ++ b) = (count p a + count p b)%nat.
Proof. unfold count. rewrite List.filter_app, length_app. reflexivity. Qed.

Lemma count_quiet_add (id : N) (calls : list call) :
  forallb quiet calls = true -> count (is_add_for id) calls = O.
Proof.
  induction calls as [|c calls IH]; intros H; [reflexivity|].
  simpl in H. apply andb_prop in H as [Hc H].
  unfold count in *. simpl. destruct c; try discriminate; simpl; auto.
Qed.

Lemma count_quiet_create (id : N) (calls : list call) :
  forallb quiet calls = true -> count (is_create_for id) calls = O.
Proof.
  induction calls as [|c calls IH]; intros H; [reflexivity|].
  simpl in H. apply andb_prop in H as [Hc H].
  unfold count in *. simpl. destruct c; try discriminate; simpl; auto.
Qed.

Lemma pending_app (id : N) (ts : list task) (t : task) :
  pending id (ts ++ [t]) = (pending id ts + Nat.b2n (parsing id t))%nat.
Proof.
  unfold pending. rewrite List.filter_app, length_app. simpl.
  destruct (parsing id t); reflexivity.
Qed.

Lemma pending_insert (id : N) (ts : list task) (i : nat) (t t' : task) :
  ts !! i = Some t ->
  (pending id (<[i := t']> ts) + Nat.b2n (parsing id t)
   = pending id ts + Nat.b2n (parsing id t'))%nat.
Proof.
  revert i. induction ts as [|x ts IH]; intros i Hi; [discriminate|].
  destruct i as [|i]; simpl in Hi.
  - injection Hi as ->. unfold pending. simpl.
    destruct (parsing id t), (parsing id t'); simpl; lia.
  - specialize (IH i Hi). unfold pending in *. simpl.
    destruct (parsing id x); simpl; lia.
Qed.

Lemma ordered_app (t calls : list call) :
  ordered t ->
  (forall id c, c ∈ calls -> is_create_for id c = true ->
                (1 <= count (is_add_for id) t)%nat) ->
  ordered (t ++ calls).
Proof.
  intros Ht Hnew id t1 c t2 Heq Hc.
  apply app_eq_app in Heq as [l [[-> Hl]|[-> Hl]]].
  - destruct l as [|x l]; simpl in Hl.
    + rewrite app_nil_r in Hnew. apply (Hnew id c); [|exact Hc].
      rewrite <- Hl. left.
    + injection Hl as <- ->. apply (Ht id t1 c l); [reflexivity|exact Hc].
  - rewrite count_app.
    assert (1 <= count (is_add_for id) t)%nat; [|lia].
    apply (Hnew id c); [|exact Hc]. rewrite Hl.
    apply elem_of_app. right. left.
Qed.

(** The three ways a resumption can go: it enters the loop head, it
    issues a creation for the message it was parsing, or it does
    neither and touches neither ledger nor store. *)
Lemma resume_cases {env : Env} (g g' : globals) (b : jsstr) (st st' : stage)
    (a : answer) (calls : list call) :
  resume g b st a = Some (g', st', calls) ->
  (exists l, (g', st', calls) = loop g l)
  \/ (exists m rest token query,
        st = AwaitParse m rest /\ g' = g /\ st' = AwaitCreate m rest
        /\ calls = [CreateItem (uid m) token query])
  \/ (g' = g /\ (forall id, parsing id (Task b st') = false)
      /\ forallb quiet calls = true).
Proof.
  intros H.
  destruct st, a; simpl in H; try discriminate H;
    try (injection H as <- <- <-; right; right; repeat split; reflexivity);
    try (left; eexists; injection H as H; rewrite H; reflexivity).
  unfold after_parse in H.
  destruct (sender_of g (store_get g b)) as [allowed|];
    [|injection H as <- <- <-; right; right; repeat split; reflexivity].
  destruct (sender_rejected _ _);
    [injection H as <- <- <-; right; right; repeat split; reflexivity|].
  destruct (negb _); [left; eexists; injection H as H; rewrite H; reflexivity|].
  destruct (createItem _ _ _ _ _ _ _) as [[token query]|];
    [|injection H as <- <- <-; right; right; repeat split; reflexivity].
  injection H as <- <- <-. right. left. eexists _, _, _, _. repeat split.
Qed.

Lemma loop_cases (g : globals) (l : list message) :
  loop g l = (g, Finished, [])
  \/ exists m rest,
       (uid m ∉ processedUids g)
       /\ loop g l = (claim g (uid m),
                      AwaitParse m rest,
                      [LedgerAdd (uid m); Parse (uid m) (body m)]).
Proof.
  induction l as [|m l IH]; [left; reflexivity|].
  cbn [loop]. destruct (decide (uid m ∈ processedUids g)) as [Hin|Hnin];
    [exact IH|].
  right. exists m, l. split; [exact Hnin|reflexivity].
Qed.

Lemma count_add_step (id : N) (m : message) :
  count (is_add_for id) [LedgerAdd (uid m); Parse (uid m) (body m)]
  = Nat.b2n (uid m =? id).
Proof. unfold count. simpl. destruct (uid m =? id); reflexivity. Qed.

Lemma count_create_step (id : N) (m : message) (token query : jsstr) :
  count (is_create_for id) [CreateItem (uid m) token query]
  = Nat.b2n (uid m =? id).
Proof. unfold count. simpl. destruct (uid m =? id); reflexivity. Qed.

(** A resumption that touches neither ledger nor store and does not
    suspend in the parser keeps the invariant. *)
Lemma ledger_inv_quiet (g g' : globals) (tm tm' : list jsstr) (ts : list task)
    (tr calls : list call) (i : nat) (t t' : task) :
  ledger_inv (Process g tm ts tr) ->
  ts !! i = Some t ->
  (forall id, parsing id t' = false) ->
  forallb quiet calls = true ->
  processedUids g' = processedUids g ->
  ledger_inv (Process g' tm' (<[i := t']> ts) (tr ++ calls)).
Proof.
  intros (I1 & I2 & I3) Hi Hpar Hq Hg. cbn [shared tasks trace] in *.
  split; [|split]; cbn [shared tasks trace].
  - intros id. rewrite count_app, (count_quiet_add id calls Hq), Nat.add_0_r, Hg.
    apply I1.
  - intros id.
    rewrite !count_app, (count_quiet_add id calls Hq),
      (count_quiet_create id calls Hq).
    pose proof (pending_insert id ts i t t' Hi) as Hp. rewrite Hpar in Hp.
    specialize (I2 id). simpl in Hp. lia.
  - apply ordered_app; [exact I3|]. intros id c Hc Hcreate. exfalso.
    rewrite forallb_forall in Hq. apply list_elem_of_In in Hc.
    specialize (Hq c Hc). destruct c; discriminate.
Qed.

(** A new function that does not start in the parser, with calls that
    touch neither ledger nor store, keeps the invariant; so does any
    change of the shared state that leaves the ledger alone. *)
Lemma ledger_inv_spawn (g g' : globals) (tm tm' : list jsstr) (ts : list task)
    (tr calls : list call) (t : task) :
  ledger_inv (Process g tm ts tr) ->
  (forall id, parsing id t = false) ->
  forallb quiet calls = true ->
  processedUids g' = processedUids g ->
  ledger_inv (Process g' tm' (ts ++ [t]) (tr ++ calls)).
Proof.
  intros (I1 & I2 & I3) Hpar Hq Hg. cbn [shared tasks trace] in *.
  split; [|split]; cbn [shared tasks trace].
  - intros id. rewrite count_app, (count_quiet_add id calls Hq), Nat.add_0_r, Hg.
    apply I1.
  - intros id.
    rewrite pending_app, !count_app, (count_quiet_add id calls Hq),
      (count_quiet_create id calls Hq), Hpar.
    specialize (I2 id). simpl. lia.
  - apply ordered_app; [exact I3|]. intros id c Hc Hcreate. exfalso.
    rewrite forallb_forall in Hq. apply list_elem_of_In in Hc.
    specialize (Hq c Hc). destruct c; discriminate.
Qed.

Lemma ledger_inv_shared (g g' : globals) (tm tm' : list jsstr) (ts : list task)
    (tr : list call) :
  ledger_inv (Process g tm ts tr) ->
  processedUids g' = processedUids g ->
  ledger_inv (Process g' tm' ts tr).
Proof.
  intros (I1 & I2 & I3) Hg. cbn [shared tasks trace] in *.
  split; [|split]; cbn [shared tasks trace]; [|exact I2|exact I3].
  intros id. rewrite Hg. apply I1.
Qed.

Lemma configSender_uids {env : Env} (g : globals) (req : senderRequest) :
  processedUids (fst (configSender g req)) = processedUids g.
Proof.
  unfold configSender. destruct (negb _); [reflexivity|].
  destruct (body_sender g req); try reflexivity. cbn [fst].
  unfold store_write. destruct (store_get g (req_boardId req)); try reflexivity.
  destruct (decide _); reflexivity.
Qed.

Lemma registerBoard_uids {env : Env} (g : globals) (b token : jsstr)
    (cols : list (jsstr * jsstr)) :
  processedUids (registerBoard g b token cols) = processedUids g.
Proof. unfold registerBoard. destruct (decide _); reflexivity. Qed.

(** Every action of the process keeps the invariant. *)
Lemma step_ledger_inv {env : Env} (s s' : process) (act : action) :
  ledger_inv s -> step s act = Some s' -> ledger_inv s'.
Proof.
  destruct s as [g tm ts tr]. intros Hinv Hexec.
  destruct act as [k|i a|req|b token cols];
    cbn [step shared timers tasks trace] in Hexec.
  - destruct (tm !! k) as [b|]; [|discriminate].
    injection Hexec as <-.
    apply (ledger_inv_spawn g g tm); auto.
  - destruct (ts !! i) as [t|] eqn:Hi; [|discriminate].
    destruct (resume g (t_board t) (t_stage t) a) as [[[g' st'] calls]|] eqn:Hres;
      [|discriminate].
    injection Hexec as <-.
    apply resume_cases in Hres as [[l Hloop]|[Hcreate|Hquiet]].
    + destruct (loop_cases g l) as [Hfin|(m & rest & Hnew & Hstep)].
      * rewrite Hfin in Hloop. injection Hloop as -> -> ->.
        apply (ledger_inv_quiet g g tm _ ts tr [] i t); auto.
      * rewrite Hstep in Hloop. injection Hloop as -> -> ->.
        destruct Hinv as (I1 & I2 & I3). cbn [shared tasks trace] in *.
        split; [|split]; cbn [shared tasks trace processedUids claim].
        -- intros id. rewrite count_app, count_add_step, I1.
           destruct (N.eqb_spec (uid m) id) as [<-|Hne]; simpl.
           ++ rewrite decide_False by exact Hnew.
              rewrite decide_True; [reflexivity|].
              apply elem_of_union. left. apply elem_of_singleton. reflexivity.
           ++ rewrite Nat.add_0_r.
              destruct (decide (id ∈ processedUids g)) as [Hin|Hnin].
              ** rewrite decide_True; [reflexivity|].
                 apply elem_of_union. right. exact Hin.
              ** rewrite decide_False; [reflexivity|].
                 rewrite elem_of_union, elem_of_singleton. intros [Heq|Hin].
                 --- apply Hne. symmetry. exact Heq.
                 --- apply Hnin. exact Hin.
        -- intros id. rewrite !count_app, count_add_step.
           unfold count at 2. simpl.
           pose proof (pending_insert id ts i t
                         (Task (t_board t) (AwaitParse m rest)) Hi) as Hp.
           unfold parsing at 2 in Hp. cbn [t_stage] in Hp.
           specialize (I2 id). specialize (I1 id).
           destruct (N.eqb_spec (uid m) id) as [<-|Hne]; simpl in *.
           ++ rewrite decide_False in I1 by exact Hnew. lia.
           ++ lia.
        -- apply ordered_app; [exact I3|]. intros id c Hc Hcr. exfalso.
           apply list_elem_of_In in Hc. simpl in Hc.
           destruct Hc as [<-|[<-|[]]]; discriminate.
    + destruct Hcreate as (m & rest & token & query & Hst & -> & -> & ->).
      destruct Hinv as (I1 & I2 & I3). cbn [shared tasks trace] in *.
      pose proof (fun id => pending_insert id ts i t
                              (Task (t_board t) (AwaitCreate m rest)) Hi) as Hp.
      unfold parsing in Hp. rewrite Hst in Hp. cbn [t_stage] in Hp.
      split; [|split]; cbn [shared tasks trace].
      * intros id. rewrite count_app. unfold count at 2. simpl.
        rewrite Nat.add_0_r. apply I1.
      * intros id. rewrite !count_app, count_create_step.
        unfold count at 3. simpl.
        specialize (I2 id). specialize (Hp id).
        unfold pending, parsing in *.
        destruct (uid m =? id); simpl in *; lia.
      * apply ordered_app; [exact I3|]. intros id c Hc Hcr.
        apply list_elem_of_singleton in Hc. subst c. simpl in Hcr.
        specialize (I2 id). specialize (Hp id).
        unfold pending, parsing in *. rewrite Hcr in Hp. simpl in Hp. lia.
    + destruct Hquiet as (-> & Hpar & Hq).
      apply (ledger_inv_quiet g g tm _ ts tr calls i t); auto.
  - injection Hexec as <-.
    apply (ledger_inv_shared g _ tm); [exact Hinv|apply configSender_uids].
  - injection Hexec as <-. unfold startEmailListener.
    cbn [shared timers tasks trace].
    destruct (truthy_found _).
    + apply (ledger_inv_spawn g _ tm); auto. apply registerBoard_uids.
    + apply (ledger_inv_shared g _ tm); [exact Hinv|apply registerBoard_uids].
Qed.

Lemma exec_ledger_inv {env : Env} (s s' : process) (act : action) :
  ledger_inv s -> exec s act = Some s' -> ledger_inv s'.
Proof.
  intros Hinv Hexec. apply (step_ledger_inv s s' act Hinv).
  apply exec_step. exact Hexec.
Qed.

Lemma run_ledger_inv {env : Env} (schedule : list action) (s s' : process) :
  ledger_inv s -> run s schedule = Some s' -> ledger_inv s'.
Proof.
  revert s. induction schedule as [|act schedule IH]; intros s Hinv Hrun.
  - injection Hrun as <-. exact Hinv.
  - cbn [run] in Hrun. destruct (exec s act) as [s1|] eqn:Hexec; [|discriminate].
    apply (IH s1); [|exact Hrun]. exact (exec_ledger_inv s s1 act Hinv Hexec).
Qed.

Lemma start_ledger_inv : ledger_inv start.
Proof.
  split; [|split]; cbn.
  - intros id. rewrite decide_False by set_solver. reflexivity.
  - intros id. apply Nat.le_refl.
  - intros id t1 c t2 H. destruct t1; discriminate H.
Qed.

(** An action that issues a [CreateItem] for a message is the
    resumption of a run that was suspended in the parser on it, and the
    ledger already has the message. *)
Lemma exec_create_after_claim {env : Env} (s s' : process) (act : action)
    (id : N) :
  ledger_inv s -> exec s act = Some s' ->
  (count (is_create_for id) (trace s) < count (is_create_for id) (trace s'))%nat ->
  id ∈ processedUids (shared s).
Proof.
  destruct s as [g tm ts tr]. intros (I1 & I2 & _) Hexec Hlt.
  apply exec_step in Hexec. cbn [shared tasks trace] in *.
  assert (Hquiet : forall calls,
             forallb quiet calls = true ->
             ~ (count (is_create_for id) tr
                < count (is_create_for id) (tr ++ calls))%nat).
  { intros calls Hq. rewrite count_app, (count_quiet_create id calls Hq). lia. }
  destruct act as [k|i a|req|b token cols];
    cbn [step shared timers tasks trace] in Hexec.
  - destruct (tm !! k) as [b|]; [|discriminate].
    injection Hexec as <-. cbn [trace] in Hlt.
    exfalso. exact (Hquiet [SearchUnseen] eq_refl Hlt).
  - destruct (ts !! i) as [t|] eqn:Hi; [|discriminate].
    destruct (resume g (t_board t) (t_stage t) a) as [[[g' st'] calls]|] eqn:Hres;
      [|discriminate].
    injection Hexec as <-. cbn [trace] in Hlt.
    apply resume_cases in Hres as [[l Hloop]|[Hcreate|Hq]].
    + exfalso. destruct (loop_cases g l) as [Hfin|(m & rest & _ & Hstep)].
      * rewrite Hfin in Hloop. injection Hloop as -> -> ->.
        exact (Hquiet [] eq_refl Hlt).
      * rewrite Hstep in Hloop. injection Hloop as -> -> ->.
        rewrite count_app in Hlt. unfold count at 3 in Hlt. simpl in Hlt. lia.
    + destruct Hcreate as (m & rest & token & query & Hst & -> & -> & ->).
      rewrite count_app, count_create_step in Hlt.
      destruct (N.eqb_spec (uid m) id) as [<-|Hne]; [|simpl in Hlt; lia].
      pose proof (pending_insert (uid m) ts i t
                    (Task (t_board t) (AwaitCreate m rest)) Hi) as Hp.
      unfold parsing in Hp. rewrite Hst in Hp. cbn [t_stage] in Hp.
      rewrite N.eqb_refl in Hp. simpl in Hp.
      specialize (I1 (uid m)). specialize (I2 (uid m)).
      destruct (decide (uid m ∈ processedUids g)) as [Hin|_]; [exact Hin|].
      unfold pending in *. lia.
    + exfalso. destruct Hq as (_ & _ & Hq). exact (Hquiet calls Hq Hlt).
  - injection Hexec as <-. cbn [trace] in Hlt. lia.
  - injection Hexec as <-. unfold startEmailListener in Hlt.
    cbn [shared timers tasks trace] in Hlt.
    destruct (truthy_found _); cbn [trace] in Hlt; [|lia].
    exfalso. exact (Hquiet [ImapConnect] eq_refl Hlt).
Qed.

(** C1. In every run of the process (timers of any boards firing at
    any time, their callbacks interleaved at their awaits in any order,
    the same message found unseen by any number of cycles, any answers
    and failures of the collaborators, sender configurations and
    registrations in between), for every message identifier: at most
    one [CreateItem] is ever issued for it; each one comes after the
    [LedgerAdd] for that identifier; the [LedgerAdd] calls of the trace
    are exactly the members of [processedUids]; and an action that
    issues a [CreateItem] for the identifier starts from a state whose
    [processedUids] has it. *)
Theorem C1_ledger_entry_before_single_creation {env : Env}
    (schedule : list action) (s : process) (id : N) :
  run start schedule = Some s ->
  (count (is_create_for id) (trace s) <= 1)%nat
  /\ (forall t1 c t2,
         trace s = t1 ++ c :: t2 -> is_create_for id c = true ->
         LedgerAdd id ∈ t1)
  /\ (LedgerAdd id ∈ trace s <-> id ∈ processedUids (shared s))
  /\ (forall pre act post s1 s2,
         schedule = pre ++ act :: post ->
         run start pre = Some s1 -> exec s1 act = Some s2 ->
         (count (is_create_for id) (trace s1)
          < count (is_create_for id) (trace s2))%nat ->
         id ∈ processedUids (shared s1)).
Proof.
  intros Hrun.
  destruct (run_ledger_inv schedule start s start_ledger_inv Hrun)
    as (I1 & I2 & I3).
  assert (Hadd : forall t, (1 <= count (is_add_for id) t)%nat <-> LedgerAdd id ∈ t).
  { intros t. unfold count. induction t as [|c t IH]; simpl.
    - split; [lia|]. intros H. inversion H.
    - rewrite elem_of_cons.
      destruct c as [| | |id'|id' raw|id'|id' tok q]; simpl;
        try (rewrite IH; split; [tauto|intros [H|H]; [discriminate H|exact H]]).
      destruct (N.eqb_spec id' id) as [->|Hne]; simpl.
      + split; [intros _; left; reflexivity|lia].
      + rewrite IH. split; [tauto|].
        intros [H|H]; [injection H as H; congruence|exact H]. }
  split; [|split; [|split]].
  - specialize (I1 id). specialize (I2 id).
    destruct (decide (id ∈ processedUids (shared s))); lia.
  - intros t1 c t2 Heq Hc. apply Hadd. exact (I3 id t1 c t2 Heq Hc).
  - rewrite <- Hadd, (I1 id).
    destruct (decide (id ∈ processedUids (shared s))); split; try tauto; lia.
  - intros pre act post s1 s2 _ Hpre Hexec Hlt.
    apply (exec_create_after_claim s1 s2 act id); [|exact Hexec|exact Hlt].
    exact (run_ledger_inv pre start s1 start_ledger_inv Hpre).
Qed.

Lemma C1_witness :
  (count (is_create_for 1) (trace demoFinal) <= 1)%nat
  /\ (forall t1 c t2,
         trace demoFinal = t1 ++ c :: t2 -> is_create_for 1 c = true ->
         LedgerAdd 1 ∈ t1)
  /\ (LedgerAdd 1 ∈ trace demoFinal <-> 1 ∈ processedUids (shared demoFinal)).
Proof.
  destruct (@C1_ledger_entry_before_single_creation demoEnv demoSchedule
              demoFinal 1) as (H1 & H2 & H3 & _).
  - vm_compute. reflexivity.
  - split; [exact H1|]. split; [exact H2|exact H3].
Defined.

(** ** The end-to-end scenarios of the specification *)

(** Scenario 1: a message from the allowed sender with a name, a phone,
    an email and a service: one [CreateItem], then the flag. *)
Example scenario_accepted_message :
  exists g query,
    @run_cycle demoEnv demoGlobals (u "42") AwaitSearch
      [Results [msg1]; Parsed mailJane; Done; Done]
    = (g, Finished,
       [LedgerAdd 1; Parse 1 (body msg1); CreateItem 1 (u "tok") query;
        AddFlagsSeen 1])
    /\ query
       = createItem_query (u "42") (u "Jane Doe")
           (createItem_values demoCfg (Some (u "jane@x.com"))
              (Some (u "555-1234")) (Some (u "Checkup")) None).
Proof. eexists _, _. split; reflexivity. Qed.

(** Scenario 2: a message from another sender: flagged, nothing
    created. *)
Example scenario_other_sender :
  snd (@run_cycle demoEnv demoGlobals (u "42") AwaitSearch
         [Results [msg1]; Parsed mailEvil; Done])
  = [LedgerAdd 1; Parse 1 (body msg1); AddFlagsSeen 1].
Proof. reflexivity. Qed.

(** The address is compared as parsed: the allowed sender in another
    case is another sender. *)
Example scenario_sender_in_upper_case :
  snd (@run_cycle demoEnv demoGlobals (u "42") AwaitSearch
         [Results [msg1]; Parsed mailUpperCase; Done])
  = [LedgerAdd 1; Parse 1 (body msg1); AddFlagsSeen 1].
Proof. reflexivity. Qed.

(** Scenario 3: message 1 is found unseen by three cycles, two of them
    overlapping; one [CreateItem] is issued for it.  Message 2 was
    claimed by the second cycle, which is still waiting for the parser
    when the third one skips it, and which fails in the end. *)
Example scenario_same_message_twice :
  @run demoEnv start demoSchedule = Some demoFinal
  /\ trace demoFinal
  = [ImapConnect; OpenBox;
     SearchUnseen; SearchUnseen; LedgerAdd 1; Parse 1 (body msg1);
     LedgerAdd 2; Parse 2 (body msg2);
     CreateItem 1 (u "tok")
       (createItem_query (u "42") (u "Jane Doe")
          (createItem_values demoCfg (Some (u "jane@x.com"))
             (Some (u "555-1234")) (Some (u "Checkup")) None));
     AddFlagsSeen 1; SearchUnseen]
  /\ t_stage <$> tasks demoFinal = [Listening; Finished; Threw; Finished].
Proof. repeat split; vm_compute; reflexivity. Qed.

(** Scenario 4: a message without a non-blank line: nothing created,
    no error, and no flag either. *)
Example scenario_blank_message :
  exists g,
    @run_cycle demoEnv demoGlobals (u "42") AwaitSearch
      [Results [msg1]; Parsed mailBlank]
    = (g, Finished, [LedgerAdd 1; Parse 1 (body msg1)]).
Proof. eexists. reflexivity. Qed.

(* ================================================================== *)
(** * Further properties of the program                                *)
(* ================================================================== *)

(** ** What the extractor returns *)

(** [trimStart] removes a prefix of white space, and what is left does
    not start with white space. *)
Lemma trimStart_split (s : jsstr) :
  exists p, s = p ++ trimStart s /\ forallb is_space p = true.
Proof.
  induction s as [|c s (p & Hs & Hp)]; [exists []; split; reflexivity|].
  simpl. destruct (is_space c) eqn:Hc.
  - exists (c :: p). split; [simpl; congruence|]. simpl. rewrite Hc. exact Hp.
  - exists []. split; reflexivity.
Qed.

(** [trim] cuts white space off both ends and nothing else: what is
    left is empty or has a first and a last code unit that are not
    white space. *)
Lemma trim_split (s : jsstr) :
  exists p q,
    s = p ++ trim s ++ q
    /\ forallb is_space p = true /\ forallb is_space q = true
    /\ (trim s = []
        \/ exists a b, head (trim s) = Some a /\ head (rev (trim s)) = Some b
                       /\ is_space a = false /\ is_space b = false).
Proof.
  destruct (trimStart_split s) as (p & Hs & Hp).
  destruct (trimStart_split (rev (trimStart s))) as (q & Hr & Hq).
  exists p, (rev q). unfold trim, trimEnd.
  assert (Ht : trimStart s = rev (trimStart (rev (trimStart s))) ++ rev q).
  { rewrite <- rev_app_distr, <- Hr, rev_involutive. reflexivity. }
  split; [rewrite <- Ht; exact Hs|]. split; [exact Hp|]. split.
  { rewrite forallb_forall in *. intros x Hx. apply Hq.
    apply in_rev. exact Hx. }
  pose proof (trimStart_head (rev (trimStart s))) as Hlast.
  pose proof (trimStart_head s) as Hfirst.
  destruct (trimStart (rev (trimStart s))) as [|b w] eqn:Hw; [left; reflexivity|].
  right. rewrite rev_involutive.
  destruct (rev (b :: w)) as [|a w'] eqn:Hrev.
  { apply (f_equal (@length N)) in Hrev. rewrite length_rev in Hrev.
    discriminate Hrev. }
  exists a, b. split; [reflexivity|]. split; [reflexivity|].
  split; [|exact Hlast].
  rewrite Ht in Hfirst. exact Hfirst.
Qed.

Lemma trim_in (s : jsstr) (c : N) : In c (trim s) -> In c s.
Proof.
  destruct (trim_split s) as (p & q & Hs & _). intros H.
  rewrite Hs. apply in_or_app. right. apply in_or_app. left. exact H.
Qed.

Lemma all_space_split (s : jsstr) :
  forallb is_space s = true
  <-> Forall (fun l => forallb is_space l = true) (split NL s).
Proof.
  induction s as [|c s IH]; simpl.
  - split; [repeat constructor|reflexivity].
  - destruct (N.eqb_spec c NL) as [->|Hne].
    + change (is_space NL) with true. simpl. rewrite IH. split.
      * intros H. constructor; [reflexivity|exact H].
      * intros H. inversion H; assumption.
    + pose proof (split_not_nil NL s) as Hn.
      destruct (split NL s) as [|l ls]; [contradiction|].
      rewrite andb_true_iff, IH. split.
      * intros [Hc H]. inversion H; subst. constructor; [|assumption].
        simpl. rewrite Hc. assumption.
      * intros H. inversion H as [|? ? Hcl Hls]; subst. simpl in Hcl.
        apply andb_prop in Hcl as [Hc Hl]. split; [exact Hc|].
        constructor; assumption.
Qed.

Lemma first_truthy_none (ls : list jsstr) :
  head (List.filter truthy (List.map trim ls)) = None
  <-> Forall (fun l => forallb is_space l = true) ls.
Proof.
  induction ls as [|l ls IH]; simpl; [split; [constructor|reflexivity]|].
  destruct (truthy (trim l)) eqn:Ht; simpl.
  - split; [discriminate|]. intros H. inversion H as [|? ? Hl _]; subst.
    apply trim_nil in Hl. apply truthy_true in Ht. contradiction.
  - rewrite IH. apply truthy_false, trim_nil in Ht. split.
    + intros H. constructor; assumption.
    + intros H. inversion H; assumption.
Qed.

(** X1. A text yields no name exactly when it consists of white space
    and line terminators only (the empty text included). *)
Theorem extractPatientName_none_iff_blank (text : jsstr) :
  extractPatientName text = None <-> forallb is_space text = true.
Proof.
  unfold extractPatientName. rewrite first_truthy_none, all_space_split.
  reflexivity.
Qed.

Lemma first_truthy_some (ls : list jsstr) (n : jsstr) :
  head (List.filter truthy (List.map trim ls)) = Some n ->
  n <> [] /\ exists l, In l ls /\ n = trim l.
Proof.
  induction ls as [|l ls IH]; simpl; [discriminate|].
  destruct (truthy (trim l)) eqn:Ht; simpl.
  - intros H. injection H as <-. split; [apply truthy_true; exact Ht|].
    exists l. split; [left|]; reflexivity.
  - intros H. destruct (IH H) as (Hn & l' & Hl' & ->).
    split; [exact Hn|]. exists l'. split; [right; exact Hl'|reflexivity].
Qed.

(** X2. A name, when there is one, is not empty, starts and ends with
    a code unit that is not white space, and contains no line feed. *)
Theorem extractPatientName_clean (text n : jsstr) :
  extractPatientName text = Some n ->
  (exists a b, head n = Some a /\ head (rev n) = Some b
               /\ is_space a = false /\ is_space b = false)
  /\ ~ In NL n.
Proof.
  unfold extractPatientName. intros H.
  apply first_truthy_some in H as (Hn & l & Hl & ->). split.
  - destruct (trim_split l) as (_ & _ & _ & _ & _ & [Hnil|Hends]);
      [contradiction|exact Hends].
  - intros Hin. apply trim_in in Hin.
    pose proof (split_pieces NL text) as Hp. rewrite Forall_forall in Hp.
    apply (Hp l); [apply list_elem_of_In; exact Hl|exact Hin].
Qed.

Lemma extractPatientName_clean_witness :
  (exists a b, head (u "Jane Doe") = Some a /\ head (rev (u "Jane Doe")) = Some b
               /\ is_space a = false /\ is_space b = false)
  /\ ~ In NL (u "Jane Doe").
Proof.
  apply (extractPatientName_clean (u "
   Jane Doe  
Phone Number: 1")). reflexivity.
Defined.

Lemma dot_run_no_terminator (s : jsstr) :
  forallb (fun c => negb (is_line_terminator c)) (dot_run s) = true.
Proof.
  induction s as [|c s IH]; simpl; [reflexivity|].
  destruct (is_line_terminator c) eqn:Hc; simpl; [reflexivity|].
  rewrite Hc, IH. reflexivity.
Qed.

Lemma dot_plus_some (s g : jsstr) :
  dot_plus s = Some g ->
  g <> [] /\ forallb (fun c => negb (is_line_terminator c)) g = true.
Proof.
  unfold dot_plus. pose proof (dot_run_no_terminator s) as H.
  destruct (dot_run s) as [|c r]; [discriminate|].
  intros Hg. injection Hg as <-. split; [discriminate|exact H].
Qed.

Lemma spaces_then_group_some (s g : jsstr) :
  spaces_then_group s = Some g ->
  g <> [] /\ forallb (fun c => negb (is_line_terminator c)) g = true.
Proof.
  induction s as [|c s IH]; simpl.
  - intros H. apply dot_plus_some in H. exact H.
  - destruct (is_space c).
    + destruct (spaces_then_group s) as [g'|].
      * intros H. injection H as <-. apply IH. reflexivity.
      * apply dot_plus_some.
    + apply dot_plus_some.
Qed.

Lemma regexp_capture_some (label s g : jsstr) :
  regexp_capture label s = Some g ->
  g <> [] /\ forallb (fun c => negb (is_line_terminator c)) g = true.
Proof.
  induction s as [|c s IH]; cbn [regexp_capture]; unfold match_here.
  - destruct (match_literal (label ++ [COLON]) []) as [rest|]; [|discriminate].
    destruct (spaces_then_group rest) as [g'|] eqn:Hg; [|discriminate].
    intros H. injection H as <-. exact (spaces_then_group_some _ _ Hg).
  - destruct (match_literal (label ++ [COLON]) (c :: s)) as [rest|]; [|exact IH].
    destruct (spaces_then_group rest) as [g'|] eqn:Hg; [|exact IH].
    intros H. injection H as <-. exact (spaces_then_group_some _ _ Hg).
Qed.

(** X4. An extracted field value never contains a line terminator
    (line feed, carriage return, U+2028, U+2029), and it is either the
    empty string or starts and ends with a code unit that is not white
    space. *)
Theorem extractValue_clean (label text v : jsstr) :
  extractValue label text = Some v ->
  forallb (fun c => negb (is_line_terminator c)) v = true
  /\ (v = []
      \/ exists a b, head v = Some a /\ head (rev v) = Some b
                     /\ is_space a = false /\ is_space b = false).
Proof.
  unfold extractValue.
  destruct (regexp_capture label text) as [g|] eqn:Hg; [|discriminate].
  intros H. injection H as <-.
  apply regexp_capture_some in Hg as [_ Hg]. split.
  - rewrite forallb_forall in *. intros c Hc. apply Hg. apply trim_in. exact Hc.
  - destruct (trim_split g) as (_ & _ & _ & _ & _ & Hends). exact Hends.
Qed.

Lemma extractValue_clean_witness :
  forallb (fun c => negb (is_line_terminator c)) (u "Checkup") = true
  /\ (u "Checkup" = []
      \/ exists a b, head (u "Checkup") = Some a
                     /\ head (rev (u "Checkup")) = Some b
                     /\ is_space a = false /\ is_space b = false).
Proof.
  apply (extractValue_clean LABEL_SERVICE (u "Jane
Service:  Checkup  
Special Note: none")). reflexivity.
Defined.

Lemma spaces_then_group_none (s : jsstr) :
  spaces_then_group s = None <-> forallb is_line_terminator s = true.
Proof.
  induction s as [|c s IH]; simpl; [split; reflexivity|].
  unfold dot_plus. simpl.
  destruct (is_line_terminator c) eqn:Hlt; simpl.
  - rewrite (line_terminator_is_space c Hlt).
    destruct (spaces_then_group s) as [g|].
    + split; [discriminate|]. intros H. apply IH in H. discriminate H.
    + rewrite <- IH. split; reflexivity.
  - destruct (is_space c).
    + destruct (spaces_then_group s); split; discriminate.
    + split; discriminate.
Qed.

Lemma regexp_capture_none_iff (label s : jsstr) :
  regexp_capture label s = None
  <-> forall k, match_here label (drop k s) = None.
Proof.
  induction s as [|c s IH]; cbn [regexp_capture].
  - split.
    + intros H k. rewrite drop_nil.
      destruct (match_here label []); [discriminate|reflexivity].
    + intros H. specialize (H O). simpl in H. rewrite H. reflexivity.
  - split.
    + intros H k. destruct (match_here label (c :: s)) eqn:Hh; [discriminate|].
      destruct k as [|k]; [exact Hh|]. simpl. apply IH. exact H.
    + intros H. pose proof (H O) as H0. cbn [drop] in H0. rewrite H0.
      apply IH. intros k. exact (H (S k)).
Qed.

(** X3. A field is [null] exactly when, at every place of the text
    where [<Label>:] stands (in any ASCII case), everything after the
    colon up to the end of the text is line terminators. *)
Theorem extractValue_none_iff (label text : jsstr) :
  extractValue label text = None
  <-> forall k rest,
        match_literal (label ++ [COLON]) (drop k text) = Some rest ->
        forallb is_line_terminator rest = true.
Proof.
  unfold extractValue.
  assert (H : regexp_capture label text = None
              <-> forall k rest,
                    match_literal (label ++ [COLON]) (drop k text) = Some rest ->
                    forallb is_line_terminator rest = true).
  { rewrite regexp_capture_none_iff. unfold match_here. split.
    - intros H k rest Hm. specialize (H k). rewrite Hm in H.
      apply spaces_then_group_none. exact H.
    - intros H k.
      destruct (match_literal (label ++ [COLON]) (drop k text)) as [rest|] eqn:Hm;
        [|reflexivity].
      apply spaces_then_group_none. exact (H k rest Hm). }
  rewrite <- H. destruct (regexp_capture label text); split; congruence.
Qed.

(** ** Tenant store *)

Lemma store_get_board (g : globals) (k : jsstr) (cfg : boardCfg) :
  store_get g k = FBoard cfg ->
  (k = PROTO /\ storePrototype g = Some cfg)
  \/ (k <> PROTO /\ boardStore g !! k = Some cfg).
Proof.
  unfold store_get, object_prototype_get.
  destruct (decide (k = PROTO)) as [->|Hk].
  - destruct (storePrototype g); [|discriminate]. intros [= ->]. left. auto.
  - destruct (boardStore g !! k) as [cfg0|]; [intros [= ->]; right; auto|].
    intros H. exfalso.
    assert (Hop : (if decide (k = SENDER_KEY)
                   then match protoSender g with
                        | Some s => FString s
                        | None => FUndefined
                        end
                   else if bool_decide (k ∈ OBJECT_BUILTINS) then FBuiltin k
                        else FUndefined) <> FBoard cfg).
    { destruct (decide (k = SENDER_KEY)); [destruct (protoSender g)|];
        [discriminate|discriminate|].
      destruct (bool_decide (k ∈ OBJECT_BUILTINS)); discriminate. }
    destruct (storePrototype g) as [cfgP|]; [|exact (Hop H)].
    destruct (decide (k = u "accessToken")); [discriminate H|].
    destruct (decide (k = u "columns")); [discriminate H|].
    destruct (decide (k = SENDER_KEY)) as [Hs|Hs]; [|exact (Hop H)].
    destruct (allowedSenderEmail cfgP); [discriminate H|].
    exact (Hop H).
Qed.

(** The assignment of the handler touches at most the entry it
    names. *)
Lemma store_write_boards (g : globals) (k : jsstr) (f : found) (v : jsstr) :
  store_get g k = f ->
  boardStore (store_write g k f v) = boardStore g
  \/ exists cfg,
       boardStore g !! k = Some cfg
       /\ boardStore (store_write g k f v)
          = <[k := with_sender cfg v]> (boardStore g).
Proof.
  intros Hf. destruct f as [|cfg| |name|s|cols]; cbn [store_write];
    try (left; reflexivity).
  destruct (decide (k = PROTO)) as [->|Hk]; [left; reflexivity|].
  right. exists cfg. split; [|reflexivity].
  destruct (store_get_board g k cfg Hf) as [[Hp _]|[_ H]];
    [contradiction|exact H].
Qed.

(** X5. Whatever the request, the sender-configuration handler neither
    adds nor removes an entry of [boardStore], and it changes no
    entry's token or columns; an entry other than the one named is
    kept as a whole. *)
Theorem configSender_keeps_boards {env : Env} (g : globals)
    (req : senderRequest) :
  dom (boardStore (fst (configSender g req))) = dom (boardStore g)
  /\ forall b cfg',
       boardStore (fst (configSender g req)) !! b = Some cfg' ->
       exists cfg,
         boardStore g !! b = Some cfg
         /\ accessToken cfg' = accessToken cfg
         /\ columns cfg' = columns cfg
         /\ (b <> req_boardId req -> cfg' = cfg).
Proof.
  unfold configSender.
  destruct (negb _);
    [split; [reflexivity|intros k cfg' H; exists cfg'; auto]|].
  destruct (body_sender g req) as [| |vb|vz|s|];
    try (split; [reflexivity|intros k cfg' H; exists cfg'; auto]).
  cbn [fst].
  destruct (store_write_boards g (req_boardId req) _ (toLowerCase s) eq_refl)
    as [->|(cfg0 & H0 & ->)];
    [split; [reflexivity|intros k cfg' H; exists cfg'; auto]|].
  split.
  - rewrite dom_insert_L. apply elem_of_dom_2 in H0.
    apply subseteq_union_1_L, singleton_subseteq_l. exact H0.
  - intros k cfg' H. destruct (decide (req_boardId req = k)) as [<-|Hne].
    + rewrite lookup_insert_eq in H. injection H as <-.
      exists cfg0. repeat split; try assumption. intros Hb. congruence.
    + rewrite lookup_insert_ne in H by exact Hne. exists cfg'. auto.
Qed.

(** X20. POST /config/sender for a board name that [boardStore]
    neither has nor inherits (not [__proto__], not the name of a
    function of [Object.prototype], not a property of a replaced
    prototype or of [Object.prototype]) is answered with 404 "Board not
    registered" and changes nothing.  For a board that is an own
    property of the store: when the body has a string for
    [allowedSenderEmail], or has none and inherits one, the handler
    answers 200 and stores the lower-cased string in the board's entry
    over whatever was there, leaving the token, the columns, every
    other entry and the prototypes alone; when what the body has or
    inherits is not a string, the handler throws and changes
    nothing. *)
Theorem configSender_on_plain_names {env : Env} (g : globals)
    (req : senderRequest) :
  (req_boardId req <> PROTO ->
   boardStore g !! req_boardId req = None ->
   storePrototype g = None ->
   req_boardId req ∉ OBJECT_BUILTINS ->
   req_boardId req <> SENDER_KEY \/ protoSender g = None ->
   configSender g req
   = (g, Respond 404 (ErrorBody (u "Board not registered"))))
  /\ (forall cfg,
         req_boardId req <> PROTO ->
         boardStore g !! req_boardId req = Some cfg ->
         (forall s, body_sender g req <> VString s) ->
         configSender g req = (g, ThrowsTypeError))
  /\ (forall cfg s,
         req_boardId req <> PROTO ->
         boardStore g !! req_boardId req = Some cfg ->
         body_sender g req = VString s ->
         exists g',
           configSender g req
           = (g', Respond 200 (SavedBody (u "Allowed sender email saved")
                                 (req_boardId req) (VString s)))
           /\ boardStore g' !! req_boardId req
              = Some (BoardCfg (accessToken cfg) (columns cfg)
                        (Some (toLowerCase s)))
           /\ (forall b, b <> req_boardId req ->
                         boardStore g' !! b = boardStore g !! b)
           /\ processedUids g' = processedUids g
           /\ storePrototype g' = storePrototype g
           /\ protoSender g' = protoSender g
           /\ builtinSender g' = builtinSender g).
Proof.
  split; [|split].
  - intros Hk Hown Hproto Hbuiltin Hsender. apply configSender_unknown.
    unfold store_get, object_prototype_get.
    destruct (decide (req_boardId req = PROTO)); [contradiction|].
    rewrite Hown, Hproto.
    destruct (decide (req_boardId req = SENDER_KEY)) as [Hs|Hs].
    + destruct Hsender as [Hne| ->]; [contradiction|reflexivity].
    + rewrite bool_decide_eq_false_2 by exact Hbuiltin. reflexivity.
  - intros cfg Hk Hcfg Hns. unfold configSender.
    rewrite (store_get_own g _ cfg Hk Hcfg). cbn [truthy_found negb].
    destruct (body_sender g req) as [| | | |s|]; try reflexivity.
    exfalso. apply (Hns s). reflexivity.
  - intros cfg s Hk Hcfg Hs. eexists. split; [|split; [|split]].
    + apply (configSender_string g req cfg s Hk Hcfg Hs).
    + cbn [boardStore]. apply lookup_insert_eq.
    + intros b Hb. cbn [boardStore]. apply lookup_insert_ne. congruence.
    + repeat split.
Qed.

Lemma configSender_on_plain_names_witness :
  let g := Globals ∅ {[ u "42" := BoardCfg (u "tok") [] (Some (u "old@x.com")) ]}
             None None ∅ in
  @configSender demoEnv g (SenderRequest (u "7") (VString (u "a@x.com")))
  = (g, Respond 404 (ErrorBody (u "Board not registered")))
  /\ @configSender demoEnv g (SenderRequest (u "42") VUndefined)
     = (g, ThrowsTypeError)
  /\ exists g',
       @configSender demoEnv g
         (SenderRequest (u "42") (VString (u "Doc@Clinic.COM")))
       = (g', Respond 200 (SavedBody (u "Allowed sender email saved") (u "42")
                             (VString (u "Doc@Clinic.COM"))))
       /\ boardStore g' !! u "42"
          = Some (BoardCfg (u "tok") [] (Some (u "doc@clinic.com"))).
Proof.
  intros g. split; [|split].
  - apply (proj1 (@configSender_on_plain_names demoEnv g
                    (SenderRequest (u "7") (VString (u "a@x.com"))))).
    + discriminate.
    + reflexivity.
    + reflexivity.
    + apply (bool_decide_eq_false_1 (_ ∈ _)). vm_compute. reflexivity.
    + left. discriminate.
  - apply (proj1 (proj2 (@configSender_on_plain_names demoEnv g
                           (SenderRequest (u "42") VUndefined)))
             (BoardCfg (u "tok") [] (Some (u "old@x.com")))).
    + discriminate.
    + reflexivity.
    + intros s. discriminate.
  - destruct (proj2 (proj2 (@configSender_on_plain_names demoEnv g
                              (SenderRequest (u "42") (VString (u "Doc@Clinic.COM")))))
                (BoardCfg (u "tok") [] (Some (u "old@x.com")))
                (u "Doc@Clinic.COM"))
      as (g' & H1 & H2 & _).
    + discriminate.
    + reflexivity.
    + reflexivity.
    + exists g'. split; [exact H1|exact H2].
Defined.

Lemma store_get_registered (g : globals) (b token : jsstr)
    (cols : list (jsstr * jsstr)) :
  store_get (registerBoard g b token cols) b = FBoard (BoardCfg token cols None).
Proof.
  unfold registerBoard, store_get. destruct (decide (b = PROTO)) as [->|Hb].
  - reflexivity.
  - cbn [boardStore]. rewrite lookup_insert_eq. reflexivity.
Qed.

Lemma insert_snoc (ts : list task) (t t' : task) :
  <[length ts := t']> (ts ++ [t]) = ts ++ [t'].
Proof.
  induction ts as [|x ts IH]; [reflexivity|].
  cbn [length app]. change (<[S (length ts) := t']> (x :: (ts ++ [t])))
    with (x :: <[length ts := t']> (ts ++ [t])).
  rewrite IH. reflexivity.
Qed.

Lemma exited_snoc {env : Env} (g g' : globals) (tm tm' : list jsstr)
    (ts : list task) (tr tr' : list call) (t : task) :
  exited (Process g tm ts tr) = false -> threw t = false ->
  exited (Process g' tm' (ts ++ [t]) tr') = false.
Proof.
  unfold exited. cbn [tasks]. rewrite existsb_app. cbn [existsb].
  intros H ->. rewrite !orb_false_r. exact H.
Qed.

(** X7. An OAuth callback that completes for a board replaces what
    [boardStore] has for the board by a fresh entry without an allowed
    sender of its own (also when one was configured before) and starts
    a listener, which asks for the connection.  No timer is installed
    yet: the listener installs one when the connection and then the
    mailbox have been opened, beside the timers the board already has,
    and it installs none and ends with a rejection when either fails.
    Until a sender is configured again, every message parsed for the
    board is rejected (flagged seen, nothing created) as long as
    [Object.prototype] has no [allowedSenderEmail]. *)
Theorem onboard_resets_sender {env : Env} (s : process)
    (b token : jsstr) (cols : list (jsstr * jsstr)) :
  exited s = false ->
  let g1 := registerBoard (shared s) b token cols in
  let n := length (tasks s) in
  let s1 := Process g1 (timers s) (tasks s ++ [Task b AwaitConnect])
              (trace s ++ [ImapConnect]) in
  exec s (Onboard b token cols) = Some s1
  /\ store_get g1 b = FBoard (BoardCfg token cols None)
  /\ processedUids g1 = processedUids (shared s)
  /\ exec s1 (Resume n Rejected)
     = Some (Process g1 (timers s) (tasks s ++ [Task b Threw])
               (trace s ++ [ImapConnect]))
  /\ run s1 [Resume n Done; Resume n Rejected]
     = Some (Process g1 (timers s) (tasks s ++ [Task b Threw])
               (trace s ++ [ImapConnect; OpenBox]))
  /\ run s1 [Resume n Done; Resume n Done]
     = Some (Process g1 (timers s ++ [b]) (tasks s ++ [Task b Listening])
               (trace s ++ [ImapConnect; OpenBox]))
  /\ (protoSender (shared s) = None ->
      forall m rest parsed,
        resume g1 b (AwaitParse m rest) (Parsed parsed)
        = Some (g1, AwaitRejectFlag m rest, [AddFlagsSeen (uid m)])).
Proof.
  intros Hlive g1 n s1. destruct s as [g tm ts tr].
  cbn [shared timers tasks trace] in *.
  assert (Hget : store_get g1 b = FBoard (BoardCfg token cols None))
    by apply store_get_registered.
  assert (Hlive1 : exited s1 = false)
    by (apply (exited_snoc g _ tm _ ts tr); [exact Hlive|reflexivity]).
  assert (Hlive2 : exited (Process g1 tm (ts ++ [Task b AwaitOpenBox])
                             ((tr ++ [ImapConnect]) ++ [OpenBox])) = false)
    by (apply (exited_snoc g _ tm _ ts tr); [exact Hlive|reflexivity]).
  assert (Hn : (ts ++ [Task b AwaitConnect]) !! n = Some (Task b AwaitConnect))
    by (apply list_lookup_middle; reflexivity).
  assert (Hn2 : (ts ++ [Task b AwaitOpenBox]) !! n = Some (Task b AwaitOpenBox))
    by (apply list_lookup_middle; reflexivity).
  assert (Hfirst : exec s1 (Resume n Done)
                   = Some (Process g1 tm (ts ++ [Task b AwaitOpenBox])
                             ((tr ++ [ImapConnect]) ++ [OpenBox]))).
  { rewrite (exec_live s1 _ Hlive1). subst s1. cbn [step shared timers tasks trace].
    rewrite Hn. cbn [t_board t_stage resume installs_timer].
    subst n. rewrite insert_snoc. reflexivity. }
  split; [|split; [exact Hget|split; [apply registerBoard_uids|]]].
  { rewrite (exec_live _ _ Hlive). cbn [step shared timers tasks trace].
    unfold startEmailListener. cbn [shared timers tasks trace].
    fold g1. rewrite Hget. reflexivity. }
  split; [|split; [|split]].
  - rewrite (exec_live s1 _ Hlive1). subst s1. cbn [step shared timers tasks trace].
    rewrite Hn. cbn [t_board t_stage resume installs_timer].
    subst n. rewrite insert_snoc, app_nil_r. reflexivity.
  - cbn [run]. rewrite Hfirst, (exec_live _ _ Hlive2).
    cbn [step shared timers tasks trace].
    rewrite Hn2. cbn [t_board t_stage resume installs_timer].
    subst n. rewrite insert_snoc, app_nil_r, <- app_assoc. reflexivity.
  - cbn [run]. rewrite Hfirst, (exec_live _ _ Hlive2).
    cbn [step shared timers tasks trace].
    rewrite Hn2. cbn [t_board t_stage resume installs_timer].
    subst n. rewrite insert_snoc, app_nil_r, <- app_assoc. reflexivity.
  - intros Hproto m rest parsed. cbn [resume]. f_equal.
    apply (after_parse_rejected _ _ _ _ _ (BoardCfg token cols None) Hget).
    unfold effective_sender. cbn [allowedSenderEmail].
    assert (Hp : protoSender g1 = None)
      by (subst g1; unfold registerBoard; destruct (decide _); exact Hproto).
    rewrite Hp. reflexivity.
Qed.

Lemma onboard_resets_sender_witness :
  let s1 := Process (registerBoard (shared start) (u "42") (u "tok") demoColumns)
              [] [Task (u "42") AwaitConnect] [ImapConnect] in
  @exec demoEnv start (Onboard (u "42") (u "tok") demoColumns) = Some s1
  /\ @run demoEnv s1 [Resume 0 Done; Resume 0 Done]
     = Some (Process (shared s1) [u "42"] [Task (u "42") Listening]
               [ImapConnect; OpenBox])
  /\ @exec demoEnv s1 (Resume 0 Rejected)
     = Some (Process (shared s1) [] [Task (u "42") Threw] [ImapConnect]).
Proof.
  destruct (@onboard_resets_sender demoEnv start (u "42") (u "tok") demoColumns
              eq_refl) as (H1 & _ & _ & H4 & _ & H6 & _).
  exact (conj H1 (conj H6 H4)).
Defined.

(** ** Mailbox poller: when a record is created *)

Lemma loop_no_create (g : globals) (l : list message) (id : N) :
  count (is_create_for id) (snd (loop g l)) = O.
Proof.
  destruct (loop_cases g l) as [->|(m & rest & _ & ->)]; reflexivity.
Qed.

(** X6. For a claimed message of a board that has an entry, the answer
    of the parser leads to a [CreateItem] exactly when the entry has an
    allowed sender, its own or else the one [Object.prototype] has,
    that sender is not the empty string, the parsed address is that
    very string, and the text has a name.  The request then carries
    the board's token and the mutation built from the name and the
    four extracted fields, and the message is flagged seen once the
    request has been answered. *)
Theorem record_created_iff_accepted_and_named {env : Env}
    (g : globals) (boardId : jsstr) (m : message) (rest : list message)
    (parsed : parsedMail) (cfg : boardCfg) :
  store_get g boardId = FBoard cfg ->
  let accepted :=
    exists a, effective_sender g cfg = Some a /\ a <> []
              /\ p_from parsed = Some a in
  let text := mail_text parsed in
  (forall n,
      accepted -> extractPatientName text = Some n ->
      resume g boardId (AwaitParse m rest) (Parsed parsed)
      = Some (g, AwaitCreate m rest,
              [CreateItem (uid m) (accessToken cfg)
                 (createItem_query boardId n
                    (createItem_values cfg
                       (extractValue LABEL_EMAIL text)
                       (extractValue LABEL_PHONE text)
                       (extractValue LABEL_SERVICE text)
                       (extractValue LABEL_NOTE text)))])
      /\ resume g boardId (AwaitCreate m rest) Done
         = Some (g, AwaitSeenFlag m rest, [AddFlagsSeen (uid m)]))
  /\ (~ accepted \/ extractPatientName text = None ->
      exists r,
        resume g boardId (AwaitParse m rest) (Parsed parsed) = Some r
        /\ forall id, count (is_create_for id) (snd r) = O).
Proof.
  intros Hcfg accepted text. split.
  - intros n Hacc Hname. split; [|reflexivity].
    apply sender_rejected_false in Hacc.
    cbn [resume]. unfold after_parse. rewrite Hcfg. cbn [sender_of].
    fold (effective_sender g cfg). rewrite Hacc.
    fold text. rewrite Hname.
    assert (Hn : truthy n = true).
    { unfold extractPatientName in Hname.
      apply first_truthy_some in Hname as [Hn _]. apply truthy_true. exact Hn. }
    cbn [truthy_opt]. rewrite Hn. cbn [negb default].
    unfold createItem. rewrite Hcfg. reflexivity.
  - intros Hno. eexists. split; [reflexivity|]. intros id.
    unfold after_parse. rewrite Hcfg. cbn [sender_of].
    fold (effective_sender g cfg).
    destruct (sender_rejected (effective_sender g cfg) (p_from parsed)) eqn:Hrej;
      [reflexivity|].
    destruct Hno as [Hno|Hno].
    + exfalso. apply Hno. apply sender_rejected_false. exact Hrej.
    + fold text. rewrite Hno. cbn [truthy_opt negb]. apply loop_no_create.
Qed.

Lemma record_created_witness :
  @resume demoEnv demoGlobals (u "42") (AwaitParse msg1 [msg2]) (Parsed mailJane)
  = Some (demoGlobals, AwaitCreate msg1 [msg2],
          [CreateItem 1 (u "tok")
             (createItem_query (u "42") (u "Jane Doe")
                (createItem_values demoCfg (Some (u "jane@x.com"))
                   (Some (u "555-1234")) (Some (u "Checkup")) None))])
  /\ exists r,
       @resume demoEnv demoGlobals (u "42") (AwaitParse msg1 [msg2])
         (Parsed mailBlank) = Some r
       /\ forall id, count (is_create_for id) (snd r) = O.
Proof.
  split.
  - apply (proj1 (@record_created_iff_accepted_and_named demoEnv demoGlobals
                    (u "42") msg1 [msg2] mailJane demoCfg eq_refl)
             (u "Jane Doe")).
    + exists (u "doc@clinic.com"). repeat split. discriminate.
    + reflexivity.
  - apply (proj2 (@record_created_iff_accepted_and_named demoEnv demoGlobals
                    (u "42") msg1 [msg2] mailBlank demoCfg eq_refl)).
    right. reflexivity.
Defined.

(** X19. A claimed message of a board that has an entry is rejected
    when the entry has no allowed sender, neither its own nor one
    [Object.prototype] has, or when the parsed address is not the very
    string the entry has or else inherits: the message gets exactly one
    call, the one that flags it seen; no record is created, the run
    does not throw, and once the flag call returns the loop goes on
    with the next message. *)
Theorem sender_mismatch_flags_and_skips {env : Env}
    (g : globals) (boardId : jsstr) (m : message) (rest : list message)
    (parsed : parsedMail) (cfg : boardCfg) :
  store_get g boardId = FBoard cfg ->
  effective_sender g cfg = None \/ p_from parsed <> effective_sender g cfg ->
  resume g boardId (AwaitParse m rest) (Parsed parsed)
  = Some (g, AwaitRejectFlag m rest, [AddFlagsSeen (uid m)])
  /\ resume g boardId (AwaitRejectFlag m rest) Done = Some (loop g rest).
Proof.
  intros Hcfg Hwhy. split; [|reflexivity].
  cbn [resume]. f_equal. apply (after_parse_rejected _ _ _ _ _ cfg Hcfg).
  apply sender_rejected_true. exact Hwhy.
Qed.

Lemma sender_mismatch_flags_and_skips_witness :
  @resume demoEnv demoGlobals (u "42") (AwaitParse msg1 [msg2]) (Parsed mailEvil)
  = Some (demoGlobals, AwaitRejectFlag msg1 [msg2], [AddFlagsSeen 1])
  /\ @resume demoEnv demoGlobals (u "42") (AwaitRejectFlag msg1 [msg2]) Done
     = Some (@loop demoGlobals [msg2]).
Proof.
  apply (@sender_mismatch_flags_and_skips demoEnv demoGlobals (u "42")
           msg1 [msg2] mailEvil demoCfg).
  - reflexivity.
  - right. discriminate.
Defined.

(** ** Schema resolution: every outcome *)

(** What a run of the loop does to the board and which mutations it
    issues, whether it succeeds or stops at a failed mutation. *)
Lemma ensure_loop_effects {env : Env} (snap : list column)
    (todo : list (jsstr * option (jsstr * jsstr))) :
  NoDup (List.map (fun e => spec_title (snd e)) todo) ->
  forall board map r board' calls,
    ensure_loop snap board todo map = (r, board', calls) ->
    exists added,
      board' = board ++ added
      /\ NoDup (col_title <$> added)
      /\ (forall c, c ∈ added ->
                    exists e, e ∈ todo /\ col_title c = spec_title (snd e)
                              /\ find_spec (snd e) snap = None)
      /\ calls `prefix_of` creates_for snap todo
      /\ (col_title <$> added) `prefix_of` (cc_title <$> calls)
      /\ (is_Some r ->
          calls = creates_for snap todo /\ length calls = length added)
      /\ (r = None -> length calls = S (length added)).
Proof.
  induction todo as [|[key spec] todo IH];
    intros Hnd board map r board' calls Hrun.
  - simpl in Hrun. injection Hrun as <- <- <-.
    exists []. rewrite app_nil_r. unfold creates_for. simpl.
    split; [reflexivity|]. split; [constructor|].
    split; [intros c Hc; inversion Hc|].
    split; [reflexivity|]. split; [reflexivity|].
    split; [intros _; split; reflexivity|discriminate].
  - cbn [List.map fst snd] in Hnd. apply NoDup_cons in Hnd as [Hfresh Hnd].
    cbn [ensure_loop] in Hrun.
    unfold creates_for. cbn [List.filter List.map fst snd].
    destruct (find_spec spec snap) as [found|] eqn:Hfound.
    + destruct (IH Hnd board (map ++ [(key, col_id found)]) r board' calls Hrun)
        as (added & -> & Hnd' & Hadded & Hpre & Htitles & Hok & Hfail).
      exists added. split; [reflexivity|]. split; [exact Hnd'|].
      split; [|auto].
      intros c Hc. destruct (Hadded c Hc) as (e & He & Ht & Hn).
      exists e. split; [right; exact He|auto].
    + destruct (newColumnId board (spec_title spec) (spec_type spec))
        as [id|] eqn:Hid.
      * destruct (ensure_loop snap (add_column board id (spec_title spec)) todo
                    (map ++ [(key, id)])) as [[r2 b2] calls2] eqn:Hrec.
        injection Hrun as <- <- <-.
        destruct (IH Hnd _ _ _ _ _ Hrec)
          as (added & -> & Hnd' & Hadded & Hpre & Htitles & Hok & Hfail).
        exists (Column id (spec_title spec) :: added). unfold add_column.
        rewrite <- app_assoc. cbn [app fmap list_fmap col_title cc_title length].
        split; [reflexivity|]. split.
        { apply NoDup_cons. split; [|exact Hnd'].
          intros Hin. apply list_elem_of_fmap in Hin as (c & Hc & Hin).
          apply Hfresh. rewrite Hc.
          destruct (Hadded c Hin) as (e & He & -> & _).
          apply list_elem_of_fmap. exists e. split; [reflexivity|exact He]. }
        split.
        { intros c Hc. apply elem_of_cons in Hc as [->|Hc].
          - exists (key, spec). split; [left|]. split; [reflexivity|exact Hfound].
          - destruct (Hadded c Hc) as (e & He & Ht & Hn).
            exists e. split; [right; exact He|auto]. }
        split; [apply prefix_cons; exact Hpre|].
        split; [apply prefix_cons; exact Htitles|].
        split.
        { intros Hr. destruct (Hok Hr) as [-> Hlen]. split; [reflexivity|].
          f_equal. exact Hlen. }
        { intros Hr. f_equal. apply Hfail. exact Hr. }
      * injection Hrun as <- <- <-. exists []. rewrite app_nil_r.
        split; [reflexivity|]. split; [constructor|].
        split; [intros c Hc; inversion Hc|].
        split; [eexists; reflexivity|]. split; [apply prefix_nil|].
        split; [intros [x Hx]; discriminate Hx|reflexivity].
Qed.

(** X8. Whether it succeeds or stops at a failed mutation,
    [ensureColumns] only adds columns after the existing ones, at most
    one for a title, and only for the keys the loop visits whose title
    no column of the board carried; the inherited key, when there is
    one, has no title, so no column carries it and its column is
    titled [undefined].  The mutations issued are an initial part of
    those for these keys, in the order the loop visits them, and each
    added column answers one of them.  On success it has issued all of
    them; on failure exactly one mutation, the last, has no column. *)
Theorem ensureColumns_effects {env : Env} (inherited : option jsstr)
    (board board' : list column)
    (r : option (list (jsstr * jsstr))) (calls : list createColumn) :
  ensureColumns inherited board = (r, board', calls) ->
  exists added,
    board' = board ++ added
    /\ NoDup (col_title <$> added)
    /\ (forall c, c ∈ added ->
                  exists e, e ∈ for_in_required inherited
                            /\ col_title c = spec_title (snd e)
                            /\ find_spec (snd e) board = None)
    /\ calls `prefix_of` creates_for board (for_in_required inherited)
    /\ (col_title <$> added) `prefix_of` (cc_title <$> calls)
    /\ (is_Some r ->
        calls = creates_for board (for_in_required inherited)
        /\ length calls = length added)
    /\ (r = None -> length calls = S (length added)).
Proof.
  unfold ensureColumns. intros Hrun.
  exact (ensure_loop_effects board (for_in_required inherited)
           (for_in_titles_NoDup inherited) board [] r board' calls Hrun).
Qed.

Lemma ensureColumns_effects_witness :
  exists added,
    demoBoard ++ [Column (u "c2") (u "Email Address")] = demoBoard ++ added
    /\ NoDup (col_title <$> added)
    /\ [CreateColumn (u "Email Address") (u "email");
        CreateColumn (u "Phone Number") (u "phone")]
       `prefix_of` creates_for demoBoard (for_in_required None).
Proof.
  destruct (@ensureColumns_effects failingEnv None demoBoard
              (demoBoard ++ [Column (u "c2") (u "Email Address")]) None
              [CreateColumn (u "Email Address") (u "email");
               CreateColumn (u "Phone Number") (u "phone")] eq_refl)
    as (added & H1 & H2 & H3 & H4 & _).
  exists added. repeat split; assumption.
Defined.

(** X9. After a successful run the map has an entry for each key the
    loop has visited, in that order: the four keys of [required], and
    after them [allowedSenderEmail] when [Object.prototype] has that
    property.  Every entry names a column that is on the board; for one
    of the four keys the column carries the title required for the
    key, for the inherited key it is titled [undefined]. *)
Theorem ensureColumns_map_sound {env : Env} (inherited : option jsstr)
    (board board1 : list column)
    (map1 : list (jsstr * jsstr)) (calls1 : list createColumn) :
  ensureColumns inherited board = (Some map1, board1, calls1) ->
  Forall2
    (fun e entry =>
       fst entry = fst e
       /\ exists c, c ∈ board1 /\ col_id c = snd entry
                    /\ col_title c = spec_title (snd e))
    (for_in_required inherited) map1.
Proof.
  unfold ensureColumns. intros Hrun.
  destruct (ensure_loop_success board (for_in_required inherited)
              (for_in_titles_NoDup inherited)
              board [] map1 board1 calls1 (fun _ _ => eq_refl) Hrun)
    as (entries & added & Hmap & -> & Hres & _).
  cbn [app] in Hmap. subst map1.
  eapply Forall2_impl; [exact Hres|].
  intros [key spec] entry [Hk Hspec]. split; [exact Hk|]. cbn [snd] in *.
  destruct spec as [[title type]|].
  - destruct Hspec as (c & Hc & Hid).
    exists c. unfold find_column in Hc. apply find_some in Hc as [Hin Ht].
    apply bool_decide_eq_true_1 in Ht.
    split; [apply list_elem_of_In; exact Hin|].
    split; [symmetry; exact Hid|exact Ht].
  - exists (Column (snd entry) UNDEFINED). split; [exact Hspec|].
    split; reflexivity.
Qed.

Lemma ensureColumns_map_sound_witness :
  Forall2
    (fun e entry =>
       fst entry = fst e
       /\ exists c,
            c ∈ demoBoard ++ [Column (u "c2") (u "Email Address");
                              Column (u "c3") (u "Phone Number");
                              Column (u "c4") (u "Special Note");
                              Column (u "c5") UNDEFINED]
            /\ col_id c = snd entry /\ col_title c = spec_title (snd e))
    (for_in_required (Some (u "doc@clinic.com")))
    [(u "email", u "c2"); (u "phone", u "c3"); (u "service", u "status7");
     (u "note", u "c4"); (SENDER_KEY, u "c5")].
Proof.
  apply (@ensureColumns_map_sound demoEnv (Some (u "doc@clinic.com")) demoBoard
           _ _
           [CreateColumn (u "Email Address") (u "email");
            CreateColumn (u "Phone Number") (u "phone");
            CreateColumn (u "Special Note") (u "long_text");
            CreateColumn UNDEFINED UNDEFINED]).
  reflexivity.
Defined.

(** ** The process: what it keeps and what it never does *)

Lemma store_get_same (g g' : globals) (k : jsstr) :
  same_store g g' -> store_get g' k = store_get g k.
Proof.
  intros (H1 & H2 & H3 & H4). unfold store_get, object_prototype_get.
  rewrite H1, H2, H3. reflexivity.
Qed.

Lemma sender_of_same (g g' : globals) (f : found) :
  same_store g g' -> sender_of g' f = sender_of g f.
Proof.
  intros (H1 & H2 & H3 & H4). unfold sender_of. rewrite H3, H4. reflexivity.
Qed.

Lemma loop_keeps (g : globals) (l : list message) :
  same_store g (fst (fst (loop g l)))
  /\ processedUids g ⊆ processedUids (fst (fst (loop g l)))
  /\ snd (fst (loop g l)) <> Threw.
Proof.
  destruct (loop_cases g l) as [->|(m & rest & _ & ->)]; cbn.
  - repeat split; [reflexivity|discriminate].
  - repeat split; [apply union_subseteq_r|discriminate].
Qed.

Lemma resume_keeps {env : Env} (g g' : globals) (b : jsstr) (st st' : stage)
    (a : answer) (calls : list call) :
  resume g b st a = Some (g', st', calls) ->
  same_store g g' /\ processedUids g ⊆ processedUids g'.
Proof.
  intros H. apply resume_cases in H as [[l Hl]|[H|H]].
  - pose proof (loop_keeps g l) as (Hs & Hp & _). rewrite <- Hl in Hs, Hp.
    split; assumption.
  - destruct H as (m & rest & token & query & _ & -> & _).
    split; [repeat split|reflexivity].
  - destruct H as (-> & _). split; [repeat split|reflexivity].
Qed.

(** [boardStore[b]] is a board entry exactly when [b] is an own
    property, or the prototype has been replaced and [b] names it. *)
Lemma is_board_spec (g : globals) (b : jsstr) :
  is_board (store_get g b) = true
  <-> if decide (b = PROTO) then is_Some (storePrototype g)
      else is_Some (boardStore g !! b).
Proof.
  split.
  - destruct (store_get g b) as [|cfg| | | |] eqn:Hget; try discriminate.
    intros _. destruct (store_get_board g b cfg Hget) as [[-> H]|[Hb H]].
    + rewrite decide_True by reflexivity. eexists. exact H.
    + rewrite decide_False by exact Hb. eexists. exact H.
  - unfold store_get. destruct (decide (b = PROTO)).
    + intros [cfg ->]. reflexivity.
    + intros [cfg ->]. reflexivity.
Qed.

Lemma store_write_keeps (g : globals) (k : jsstr) (f : found) (v : jsstr) :
  (forall b, is_Some (boardStore g !! b) ->
             is_Some (boardStore (store_write g k f v) !! b))
  /\ (is_Some (storePrototype g) ->
      is_Some (storePrototype (store_write g k f v))).
Proof.
  destruct f as [|cfg| |name|s|cols]; cbn [store_write]; try (split; auto; fail).
  - destruct (decide (k = PROTO)); cbn [boardStore storePrototype].
    + split; [auto|]. intros _. eexists. reflexivity.
    + split; [|auto]. intros b Hb. apply lookup_insert_is_Some'. right. exact Hb.
  - cbn [boardStore storePrototype]. split; [auto|].
    intros [cfgP ->]. eexists. reflexivity.
Qed.

Lemma configSender_keeps {env : Env} (g : globals) (req : senderRequest) :
  (forall b, is_Some (boardStore g !! b) ->
             is_Some (boardStore (fst (configSender g req)) !! b))
  /\ (is_Some (storePrototype g) ->
      is_Some (storePrototype (fst (configSender g req)))).
Proof.
  unfold configSender. destruct (negb _); [split; auto|].
  destruct (body_sender g req); try (split; auto; fail).
  cbn [fst]. apply store_write_keeps.
Qed.

Lemma registerBoard_keeps (g : globals) (b token : jsstr)
    (cols : list (jsstr * jsstr)) :
  (forall b', is_Some (boardStore g !! b') ->
              is_Some (boardStore (registerBoard g b token cols) !! b'))
  /\ (is_Some (storePrototype g) ->
      is_Some (storePrototype (registerBoard g b token cols))).
Proof.
  unfold registerBoard. destruct (decide (b = PROTO));
    cbn [boardStore storePrototype].
  - split; [auto|]. intros _. eexists. reflexivity.
  - split; [|auto]. intros b' Hb. apply lookup_insert_is_Some'. right. exact Hb.
Qed.

Lemma is_board_keeps (g g' : globals) (b : jsstr) :
  (forall b', is_Some (boardStore g !! b') -> is_Some (boardStore g' !! b')) ->
  (is_Some (storePrototype g) -> is_Some (storePrototype g')) ->
  is_board (store_get g b) = true -> is_board (store_get g' b) = true.
Proof.
  intros H1 H2. rewrite !is_board_spec. destruct (decide (b = PROTO)); auto.
Qed.

Lemma configSender_is_board {env : Env} (g : globals) (req : senderRequest)
    (b : jsstr) :
  is_board (store_get g b) = true ->
  is_board (store_get (fst (configSender g req)) b) = true.
Proof.
  destruct (configSender_keeps g req) as [H1 H2]. apply is_board_keeps; auto.
Qed.

Lemma registerBoard_is_board (g : globals) (b token : jsstr)
    (cols : list (jsstr * jsstr)) (b' : jsstr) :
  is_board (store_get g b') = true ->
  is_board (store_get (registerBoard g b token cols) b') = true.
Proof.
  destruct (registerBoard_keeps g b token cols) as [H1 H2].
  apply is_board_keeps; auto.
Qed.

Lemma step_boards_registered {env : Env} (s s' : process) (act : action) :
  boards_registered s -> step s act = Some s' -> boards_registered s'.
Proof.
  destruct s as [g tm ts tr]. intros [Htm Hts] Hexec.
  cbn [shared timers tasks] in *.
  destruct act as [k|i a|req|b token cols];
    cbn [step shared timers tasks trace] in Hexec.
  - destruct (tm !! k) as [b|] eqn:Hk; [|discriminate].
    injection Hexec as <-. split; cbn [shared timers tasks]; [exact Htm|].
    intros i t Hi. apply lookup_snoc_Some in Hi as [[_ Hi]|[_ <-]].
    + exact (Hts i t Hi).
    + exact (Htm k b Hk).
  - destruct (ts !! i) as [t|] eqn:Hi; [|discriminate].
    destruct (resume g (t_board t) (t_stage t) a) as [[[g' st'] calls]|] eqn:Hres;
      [|discriminate].
    injection Hexec as <-. apply resume_keeps in Hres as [Hstore _].
    split; cbn [shared timers tasks].
    + intros k b Hk. rewrite (store_get_same g g' b Hstore).
      destruct (installs_timer _ _); [|exact (Htm k b Hk)].
      apply lookup_snoc_Some in Hk as [[_ Hk]|[_ <-]];
        [exact (Htm k b Hk)|exact (Hts i t Hi)].
    + intros j t' Hj. rewrite (store_get_same g g' _ Hstore).
      apply list_lookup_insert_Some in Hj as [(_ & <- & _)|[_ Hj]].
      * exact (Hts i t Hi).
      * exact (Hts j t' Hj).
  - injection Hexec as <-. split; cbn [shared timers tasks].
    + intros k b Hk. apply configSender_is_board. exact (Htm k b Hk).
    + intros i t Hi. apply configSender_is_board. exact (Hts i t Hi).
  - injection Hexec as <-. unfold startEmailListener.
    cbn [shared timers tasks trace].
    assert (Hnew : is_board (store_get (registerBoard g b token cols) b) = true)
      by (rewrite store_get_registered; reflexivity).
    destruct (truthy_found _); split; cbn [shared timers tasks].
    + intros k b' Hk. apply registerBoard_is_board. exact (Htm k b' Hk).
    + intros i t Hi. apply lookup_snoc_Some in Hi as [[_ Hi]|[_ <-]].
      * apply registerBoard_is_board. exact (Hts i t Hi).
      * exact Hnew.
    + intros k b' Hk. apply registerBoard_is_board. exact (Htm k b' Hk).
    + intros i t Hi. apply registerBoard_is_board. exact (Hts i t Hi).
Qed.

Lemma exec_boards_registered {env : Env} (s s' : process) (act : action) :
  boards_registered s -> exec s act = Some s' -> boards_registered s'.
Proof.
  intros Hinv Hexec. apply (step_boards_registered s s' act Hinv).
  apply exec_step. exact Hexec.
Qed.

Lemma run_boards_registered {env : Env} (schedule : list action)
    (s s' : process) :
  boards_registered s -> run s schedule = Some s' -> boards_registered s'.
Proof.
  revert s. induction schedule as [|act schedule IH]; intros s Hinv Hrun.
  - injection Hrun as <-. exact Hinv.
  - cbn [run] in Hrun. destruct (exec s act) as [s1|] eqn:Hexec; [|discriminate].
    apply (IH s1); [|exact Hrun].
    exact (exec_boards_registered s s1 act Hinv Hexec).
Qed.

Lemma start_boards_registered : boards_registered start.
Proof. split; intros k x H; discriminate H. Qed.

(** X10. In every run of the process, a run of the callback throws
    only when the collaborator it waits for rejects: the board it
    polls for always has its entry in the store, so neither the sender
    check nor [createItem] ever reads a missing configuration. *)
Theorem callback_throws_only_on_rejection {env : Env}
    (schedule : list action) (s : process) (i : nat) (t : task) (a : answer)
    (g' : globals) (calls : list call) :
  run start schedule = Some s ->
  tasks s !! i = Some t ->
  resume (shared s) (t_board t) (t_stage t) a = Some (g', Threw, calls) ->
  a = Rejected.
Proof.
  intros Hrun Hi Hres.
  destruct (run_boards_registered schedule start s start_boards_registered Hrun)
    as [_ Hts].
  pose proof (Hts i t Hi) as Hb.
  destruct (store_get (shared s) (t_board t)) as [|cfg| | | |] eqn:Hcfg;
    try discriminate Hb.
  destruct a as [results|parsed| |]; [| | |reflexivity]; exfalso.
  - destruct (t_stage t); simpl in Hres; try discriminate Hres.
    injection Hres as Hres. pose proof (loop_keeps (shared s) results) as (_ & _ & H).
    rewrite Hres in H. apply H. reflexivity.
  - destruct (t_stage t) as [| | | |m rest| | | | |]; simpl in Hres;
      try discriminate Hres.
    injection Hres as Hres. unfold after_parse in Hres. rewrite Hcfg in Hres.
    cbn [sender_of] in Hres.
    destruct (sender_rejected _ _); [discriminate Hres|].
    destruct (negb _).
    + pose proof (loop_keeps (shared s) rest) as (_ & _ & H).
      rewrite Hres in H. apply H. reflexivity.
    + unfold createItem in Hres. rewrite Hcfg in Hres. discriminate Hres.
  - destruct (t_stage t) as [| | | |m rest|m rest|m rest|m rest| |];
      simpl in Hres; try discriminate Hres; injection Hres as Hres;
      pose proof (loop_keeps (shared s) rest) as (_ & _ & H);
      rewrite Hres in H; apply H; reflexivity.
Qed.

Lemma callback_throws_only_on_rejection_witness : Rejected = Rejected.
Proof.
  apply (@callback_throws_only_on_rejection demoEnv demoOnboarding
           demoStarted 1 (Task (u "42") AwaitSearch) Rejected
           (shared demoStarted) []).
  - vm_compute. reflexivity.
  - reflexivity.
  - reflexivity.
Defined.

Lemma exec_grows {env : Env} (s s' : process) (act : action) :
  exec s act = Some s' ->
  processedUids (shared s) ⊆ processedUids (shared s')
  /\ (forall b, is_Some (boardStore (shared s) !! b) ->
                is_Some (boardStore (shared s') !! b))
  /\ timers s `prefix_of` timers s'
  /\ trace s `prefix_of` trace s'
  /\ (length (tasks s) <= length (tasks s'))%nat.
Proof.
  destruct s as [g tm ts tr]. intros Hexec. apply exec_step in Hexec.
  destruct act as [k|i a|req|b token cols];
    cbn [step shared timers tasks trace] in Hexec.
  - destruct (tm !! k) as [b|]; [|discriminate]. injection Hexec as <-.
    cbn [shared timers tasks trace].
    split; [reflexivity|]. split; [auto|]. split; [reflexivity|].
    split; [apply prefix_app_r; reflexivity|]. rewrite length_app. lia.
  - destruct (ts !! i) as [t|]; [|discriminate].
    destruct (resume g (t_board t) (t_stage t) a) as [[[g' st'] calls]|] eqn:Hres;
      [|discriminate].
    injection Hexec as <-. apply resume_keeps in Hres as [(Hstore & _) Hled].
    cbn [shared timers tasks trace].
    split; [exact Hled|]. split; [rewrite Hstore; auto|].
    split; [destruct (installs_timer _ _);
            [apply prefix_app_r|]; reflexivity|].
    split; [apply prefix_app_r; reflexivity|].
    rewrite length_insert. lia.
  - injection Hexec as <-. cbn [shared timers tasks trace].
    split; [rewrite configSender_uids; reflexivity|].
    split; [apply configSender_keeps|].
    split; [reflexivity|]. split; [reflexivity|lia].
  - injection Hexec as <-. unfold startEmailListener.
    cbn [shared timers tasks trace].
    destruct (truthy_found _); cbn [shared timers tasks trace];
      (split; [rewrite registerBoard_uids; reflexivity|]);
      (split; [apply registerBoard_keeps|]);
      (split; [reflexivity|]).
    + split; [apply prefix_app_r; reflexivity|]. rewrite length_app. lia.
    + split; [reflexivity|lia].
Qed.

(** X12. Nothing is ever taken back: along any run of the process the
    ledger keeps every identifier it has, the store keeps every board,
    the timers installed stay installed, the calls made stay in the
    trace in their order, and no started run of the callback
    disappears. *)
Theorem run_never_forgets {env : Env} (schedule : list action)
    (s s' : process) :
  run s schedule = Some s' ->
  processedUids (shared s) ⊆ processedUids (shared s')
  /\ (forall b, is_Some (boardStore (shared s) !! b) ->
                is_Some (boardStore (shared s') !! b))
  /\ timers s `prefix_of` timers s'
  /\ trace s `prefix_of` trace s'
  /\ (length (tasks s) <= length (tasks s'))%nat.
Proof.
  revert s. induction schedule as [|act schedule IH]; intros s Hrun.
  - injection Hrun as <-. repeat split; auto.
  - cbn [run] in Hrun. destruct (exec s act) as [s1|] eqn:Hexec; [|discriminate].
    destruct (exec_grows s s1 act Hexec) as (A1 & A2 & A3 & A4 & A5).
    destruct (IH s1 Hrun) as (B1 & B2 & B3 & B4 & B5).
    split; [etransitivity; eassumption|]. split; [auto|].
    split; [etransitivity; eassumption|].
    split; [etransitivity; eassumption|lia].
Qed.

Lemma run_never_forgets_witness :
  processedUids (shared demoStarted) ⊆ processedUids (shared demoFinal)
  /\ trace demoStarted `prefix_of` trace demoFinal.
Proof.
  destruct (@run_never_forgets demoEnv demoContinuation
              demoStarted demoFinal) as (H1 & _ & _ & H4 & _).
  - vm_compute. reflexivity.
  - split; assumption.
Defined.

(** ** The process: parsing and flagging at most once *)

Lemma filter_insert_length (p : task -> bool) (ts : list task) (i : nat)
    (t t' : task) :
  ts !! i = Some t ->
  (length (List.filter p (<[i := t']> ts)) + Nat.b2n (p t)
   = length (List.filter p ts) + Nat.b2n (p t'))%nat.
Proof.
  revert i. induction ts as [|x ts IH]; intros i Hi; [discriminate|].
  destruct i as [|i]; simpl in Hi.
  - injection Hi as ->. simpl. destruct (p t), (p t'); simpl; lia.
  - specialize (IH i Hi). simpl. destruct (p x); simpl; lia.
Qed.

Lemma preceded_by_app (p q : N -> call -> bool) (t calls : list call) :
  preceded_by p q t ->
  (forall id c, c ∈ calls -> q id c = true -> (1 <= count (p id) t)%nat) ->
  preceded_by p q (t ++ calls).
Proof.
  intros Ht Hnew id t1 c t2 Heq Hc.
  apply app_eq_app in Heq as [l [[-> Hl]|[-> Hl]]].
  - destruct l as [|x l]; simpl in Hl.
    + rewrite app_nil_r in Hnew. apply (Hnew id c); [|exact Hc].
      rewrite <- Hl. left.
    + injection Hl as <- ->. apply (Ht id t1 c l); [reflexivity|exact Hc].
  - rewrite count_app.
    assert (1 <= count (p id) t)%nat; [|lia].
    apply (Hnew id c); [|exact Hc]. rewrite Hl.
    apply elem_of_app. right. left.
Qed.

Lemma count_pos (p : call -> bool) (t : list call) :
  (1 <= count p t)%nat <-> exists c, c ∈ t /\ p c = true.
Proof.
  unfold count. induction t as [|x t IH]; simpl.
  - split; [lia|]. intros (c & Hc & _). inversion Hc.
  - destruct (p x) eqn:Hx; simpl.
    + split; [|lia]. intros _. exists x. split; [left|exact Hx].
    + rewrite IH. split.
      * intros (c & Hc & Hp). exists c. split; [right; exact Hc|exact Hp].
      * intros (c & Hc & Hp). apply elem_of_cons in Hc as [->|Hc];
          [congruence|]. exists c. split; assumption.
Qed.

(** The ways a resumption can go, told apart by what they do to the
    message in hand. *)
Lemma resume_cases_flag {env : Env} (g g' : globals) (b : jsstr)
    (st st' : stage) (a : answer) (calls : list call) :
  resume g b st a = Some (g', st', calls) ->
  (exists l, (g', st', calls) = loop g l)
  \/ (exists m rest,
        ((st = AwaitParse m rest /\ st' = AwaitRejectFlag m rest)
         \/ (st = AwaitCreate m rest /\ st' = AwaitSeenFlag m rest))
        /\ g' = g /\ calls = [AddFlagsSeen (uid m)])
  \/ (exists m rest token query,
        st = AwaitParse m rest /\ g' = g /\ st' = AwaitCreate m rest
        /\ calls = [CreateItem (uid m) token query])
  \/ (g' = g /\ st' = Threw /\ calls = [])
  \/ (g' = g
      /\ ((st = AwaitConnect /\ st' = AwaitOpenBox /\ calls = [OpenBox])
          \/ (st = AwaitOpenBox /\ st' = Listening /\ calls = []))).
Proof.
  intros H.
  destruct st as [| | | |m rest|m rest|m rest|m rest| |],
    a as [results|parsed| |];
    simpl in H; try discriminate H;
    try (injection H as <- <- <-; right; right; right; left;
         repeat split; reflexivity);
    try (injection H as <- <- <-; right; right; right; right;
         split; [reflexivity|]; auto; fail);
    try (left; eexists; injection H as H; rewrite H; reflexivity).
  - unfold after_parse in H.
    destruct (sender_of g (store_get g b)) as [allowed|];
      [|injection H as <- <- <-; right; right; right; left;
        repeat split; reflexivity].
    destruct (sender_rejected _ _).
    { injection H as <- <- <-. right. left. exists m, rest.
      split; [left; split; reflexivity|split; reflexivity]. }
    destruct (negb _); [left; eexists; injection H as H; rewrite H; reflexivity|].
    destruct (createItem _ _ _ _ _ _ _) as [[token query]|];
      [|injection H as <- <- <-; right; right; right; left;
        repeat split; reflexivity].
    injection H as <- <- <-. right. right. left. eexists _, _, _, _.
    repeat split.
  - injection H as <- <- <-. right. left. exists m, rest.
    split; [right; split; reflexivity|split; reflexivity].
Qed.

Lemma count_cons (p : call -> bool) (c : call) (t : list call) :
  count p (c :: t) = (Nat.b2n (p c) + count p t)%nat.
Proof. unfold count. simpl. destruct (p c); reflexivity. Qed.

Lemma count_nil (p : call -> bool) : count p [] = O.
Proof. reflexivity. Qed.

Ltac count_calls :=
  rewrite ?count_app, ?count_cons, ?count_nil;
  cbn [is_parse_for is_add_for is_flag_for is_create_for Nat.b2n].

Lemma exec_flag_inv {env : Env} (s s' : process) (act : action) :
  ledger_inv s -> flag_inv s -> exec s act = Some s' -> flag_inv s'.
Proof.
  destruct s as [g tm ts tr]. intros (L1 & _ & _) (F1 & F2 & F3) Hexec.
  apply exec_step in Hexec.
  cbn [shared timers tasks trace] in *.
  destruct act as [k|i a|req|b token cols];
    cbn [step shared timers tasks trace] in Hexec.
  - destruct (tm !! k) as [b|]; [|discriminate]. injection Hexec as <-.
    split; [|split]; cbn [shared timers tasks trace].
    + intros id. count_calls. rewrite (F1 id). reflexivity.
    + intros id. rewrite List.filter_app, length_app. count_calls.
      specialize (F2 id). simpl. lia.
    + apply preceded_by_app; [exact F3|]. intros id c Hc Hf.
      apply list_elem_of_singleton in Hc. subst c. discriminate.
  - destruct (ts !! i) as [t|] eqn:Hi; [|discriminate].
    destruct (resume g (t_board t) (t_stage t) a) as [[[g' st'] calls]|] eqn:Hres;
      [|discriminate].
    injection Hexec as <-.
    pose proof (fun id => filter_insert_length (handling id) ts i t
                            (Task (t_board t) st') Hi) as Hp.
    unfold handling at 2 4 in Hp. cbn [t_stage] in Hp.
    apply resume_cases_flag
      in Hres as [[l Hloop]|[Hflag|[Hcreate|[Hthrow|Hlisten]]]].
    + destruct (loop_cases g l) as [Hfin|(m & rest & Hnew & Hstep)].
      * rewrite Hfin in Hloop. injection Hloop as -> -> ->.
        split; [|split]; cbn [shared timers tasks trace].
        -- intros id. rewrite app_nil_r. apply F1.
        -- intros id. rewrite app_nil_r. specialize (F2 id). specialize (Hp id).
           simpl in Hp. lia.
        -- rewrite app_nil_r. exact F3.
      * rewrite Hstep in Hloop. injection Hloop as -> -> ->.
        split; [|split]; cbn [shared timers tasks trace].
        -- intros id. count_calls. rewrite (F1 id). lia.
        -- intros id. count_calls. specialize (F2 id). specialize (Hp id).
           specialize (L1 id).
           destruct (N.eqb_spec (uid m) id) as [<-|Hne]; simpl in *.
           ++ rewrite decide_False in L1 by exact Hnew. lia.
           ++ lia.
        -- apply preceded_by_app; [exact F3|]. intros id c Hc Hf. exfalso.
           apply list_elem_of_In in Hc. simpl in Hc.
           destruct Hc as [<-|[<-|[]]]; discriminate.
    + destruct Hflag as (m & rest & Hst & -> & ->).
      assert (Hold : forall id, (match t_stage t with
                                 | AwaitParse m0 _ | AwaitCreate m0 _ => uid m0 =? id
                                 | _ => false
                                 end) = (uid m =? id))
        by (intros id; destruct Hst as [[-> _]|[-> _]]; reflexivity).
      assert (Hnew : forall id, (match st' with
                                 | AwaitParse m0 _ | AwaitCreate m0 _ => uid m0 =? id
                                 | _ => false
                                 end) = false)
        by (intros id; destruct Hst as [[_ ->]|[_ ->]]; reflexivity).
      split; [|split]; cbn [shared timers tasks trace].
      * intros id. count_calls. rewrite (F1 id). lia.
      * intros id. count_calls. specialize (F2 id). specialize (Hp id).
        rewrite Hold, Hnew in Hp.
        destruct (uid m =? id); simpl in *; lia.
      * apply preceded_by_app; [exact F3|]. intros id c Hc Hf.
        apply list_elem_of_singleton in Hc. subst c. simpl in Hf.
        specialize (F2 id). specialize (Hp id). rewrite Hold, Hnew, Hf in Hp.
        rewrite (F1 id). simpl in Hp. lia.
    + destruct Hcreate as (m & rest & token & query & Hst & -> & -> & ->).
      rewrite Hst in Hp.
      split; [|split]; cbn [shared timers tasks trace].
      * intros id. count_calls. rewrite (F1 id). lia.
      * intros id. count_calls. specialize (F2 id). specialize (Hp id).
        destruct (uid m =? id); simpl in *; lia.
      * apply preceded_by_app; [exact F3|]. intros id c Hc Hf.
        apply list_elem_of_singleton in Hc. subst c. discriminate.
    + destruct Hthrow as (-> & -> & ->).
      split; [|split]; cbn [shared timers tasks trace].
      * intros id. rewrite app_nil_r. apply F1.
      * intros id. rewrite app_nil_r. specialize (F2 id). specialize (Hp id).
        destruct (t_stage t); simpl in Hp; try lia;
          destruct (uid m =? id); simpl in Hp; lia.
      * rewrite app_nil_r. exact F3.
    + destruct Hlisten as (-> & [(Hst & -> & ->)|(Hst & -> & ->)]);
        rewrite Hst in Hp; simpl in Hp;
        (split; [|split]; cbn [shared timers tasks trace]).
      * intros id. count_calls. rewrite (F1 id). lia.
      * intros id. count_calls. specialize (F2 id). specialize (Hp id). lia.
      * apply preceded_by_app; [exact F3|]. intros id c Hc Hf.
        apply list_elem_of_singleton in Hc. subst c. discriminate.
      * intros id. rewrite app_nil_r. apply F1.
      * intros id. rewrite app_nil_r. specialize (F2 id). specialize (Hp id).
        lia.
      * rewrite app_nil_r. exact F3.
  - injection Hexec as <-. split; [|split]; assumption.
  - injection Hexec as <-. unfold startEmailListener.
    cbn [shared timers tasks trace].
    destruct (truthy_found _); [|split; try split; assumption].
    split; [|split]; cbn [shared timers tasks trace].
    + intros id. count_calls. rewrite (F1 id). lia.
    + intros id. rewrite List.filter_app, length_app. count_calls.
      specialize (F2 id). simpl. lia.
    + apply preceded_by_app; [exact F3|]. intros id c Hc Hf.
      apply list_elem_of_singleton in Hc. subst c. discriminate.
Qed.

Lemma run_flag_inv {env : Env} (schedule : list action) (s s' : process) :
  ledger_inv s -> flag_inv s -> run s schedule = Some s' -> flag_inv s'.
Proof.
  revert s. induction schedule as [|act schedule IH]; intros s HL HF Hrun.
  - injection Hrun as <-. exact HF.
  - cbn [run] in Hrun. destruct (exec s act) as [s1|] eqn:Hexec; [|discriminate].
    apply (IH s1); [| |exact Hrun].
    + exact (exec_ledger_inv s s1 act HL Hexec).
    + exact (exec_flag_inv s s1 act HL HF Hexec).
Qed.

Lemma start_flag_inv : flag_inv start.
Proof.
  split; [|split]; cbn.
  - reflexivity.
  - intros id. apply Nat.le_refl.
  - intros id t1 c t2 H. destruct t1; discriminate H.
Qed.

(** X11. In every run of the process, for every message identifier:
    the message is handed to the parser at most once and flagged seen
    at most once, by whichever exit of the loop body; it is parsed as
    often as it is entered into the ledger; and a flag call for it
    comes after its parse call. *)
Theorem parsed_and_flagged_at_most_once {env : Env}
    (schedule : list action) (s : process) (id : N) :
  run start schedule = Some s ->
  (count (is_parse_for id) (trace s) <= 1)%nat
  /\ (count (is_flag_for id) (trace s) <= 1)%nat
  /\ count (is_parse_for id) (trace s) = count (is_add_for id) (trace s)
  /\ (forall t1 c t2,
         trace s = t1 ++ c :: t2 -> is_flag_for id c = true ->
         exists c', c' ∈ t1 /\ is_parse_for id c' = true).
Proof.
  intros Hrun.
  pose proof (run_ledger_inv schedule start s start_ledger_inv Hrun) as HL.
  destruct (run_flag_inv schedule start s start_ledger_inv start_flag_inv Hrun)
    as (F1 & F2 & F3).
  destruct HL as (L1 & _ & _).
  specialize (L1 id). specialize (F2 id).
  assert (Hadd : (count (is_add_for id) (trace s) <= 1)%nat)
    by (destruct (decide (id ∈ processedUids (shared s))); lia).
  split; [rewrite (F1 id); exact Hadd|]. split; [lia|].
  split; [apply F1|].
  intros t1 c t2 Heq Hc. apply count_pos. exact (F3 id t1 c t2 Heq Hc).
Qed.

Lemma parsed_and_flagged_at_most_once_witness :
  (count (is_parse_for 1) (trace demoFinal) <= 1)%nat
  /\ (count (is_flag_for 1) (trace demoFinal) <= 1)%nat.
Proof.
  destruct (@parsed_and_flagged_at_most_once demoEnv demoSchedule demoFinal 1)
    as (H1 & H2 & _).
  - vm_compute. reflexivity.
  - split; assumption.
Defined.

(** ** One cycle that runs to its end *)

Lemma loop_covers (l : list message) (g : globals) :
  forall m,
    uid m ∈ processedUids g \/ m ∈ l ->
    uid m ∈ processedUids (fst (fst (loop g l)))
    \/ m ∈ remaining (snd (fst (loop g l))).
Proof.
  induction l as [|x l IH]; intros m Hm.
  - left. destruct Hm as [Hm|Hm]; [exact Hm|inversion Hm].
  - cbn [loop]. destruct (decide (uid x ∈ processedUids g)) as [Hx|Hx].
    + apply IH. destruct Hm as [Hm|Hm]; [left; exact Hm|].
      apply elem_of_cons in Hm as [->|Hm]; [left; exact Hx|right; exact Hm].
    + cbn. destruct Hm as [Hm|Hm].
      * left. apply elem_of_union. right. exact Hm.
      * apply elem_of_cons in Hm as [->|Hm]; [left|right; exact Hm].
        apply elem_of_union. left. apply elem_of_singleton. reflexivity.
Qed.

Lemma resume_covers {env : Env} (g g' : globals) (b : jsstr) (st st' : stage)
    (a : answer) (calls : list call) :
  resume g b st a = Some (g', st', calls) ->
  st <> AwaitSearch -> st' <> Threw ->
  st' <> AwaitSearch
  /\ forall m,
       uid m ∈ processedUids g \/ m ∈ remaining st ->
       uid m ∈ processedUids g' \/ m ∈ remaining st'.
Proof.
  intros H Hst Hst'.
  assert (Hloop : forall rest,
             remaining st = rest -> (g', st', calls) = loop g rest ->
             st' <> AwaitSearch
             /\ forall m,
                  uid m ∈ processedUids g \/ m ∈ remaining st ->
                  uid m ∈ processedUids g' \/ m ∈ remaining st').
  { intros rest Hrest Heq. split.
    - destruct (loop_cases g rest) as [E|(m & r & _ & E)];
        rewrite E in Heq; injection Heq as _ -> _; discriminate.
    - intros m Hm. rewrite Hrest in Hm.
      pose proof (loop_covers rest g m Hm) as Hc. rewrite <- Heq in Hc.
      exact Hc. }
  destruct st as [| | | |m rest|m rest|m rest|m rest| |],
    a as [results|parsed| |];
    simpl in H; try discriminate H; try contradiction;
    try (injection H as <- <- <-; contradiction);
    try (injection H as H; apply (Hloop rest eq_refl); symmetry; exact H);
    try (injection H as <- <- <-; split; [discriminate|auto]; fail).
  unfold after_parse in H.
  destruct (sender_of g (store_get g b)) as [allowed|];
    [|injection H as <- <- <-; contradiction].
  destruct (sender_rejected _ _);
    [injection H as <- <- <-; split; [discriminate|auto]|].
  destruct (negb _);
    [injection H as H; apply (Hloop rest eq_refl); symmetry; exact H|].
  destruct (createItem _ _ _ _ _ _ _) as [[token query]|];
    injection H as <- <- <-; [split; [discriminate|auto]|contradiction].
Qed.

Lemma run_cycle_finished_covers {env : Env} (answers : list answer)
    (g g' : globals) (b : jsstr) (st : stage) (calls : list call) :
  run_cycle g b st answers = (g', Finished, calls) ->
  st <> AwaitSearch ->
  forall m,
    uid m ∈ processedUids g \/ m ∈ remaining st -> uid m ∈ processedUids g'.
Proof.
  revert g st calls. induction answers as [|a answers IH];
    intros g st calls Hrun Hst m Hm.
  - simpl in Hrun. injection Hrun as <- -> _.
    destruct Hm as [Hm|Hm]; [exact Hm|inversion Hm].
  - cbn [run_cycle] in Hrun.
    destruct (resume g b st a) as [[[g1 st1] calls1]|] eqn:Hres.
    + destruct (run_cycle g1 b st1 answers) as [[g2 st2] calls2] eqn:Hrec.
      injection Hrun as <- -> _.
      assert (Hst1 : st1 <> Threw).
      { intros ->. destruct answers as [|a' answers']; simpl in Hrec.
        - injection Hrec as _ Hx _. discriminate Hx.
        - destruct a'; simpl in Hrec; injection Hrec as _ Hx _; discriminate Hx. }
      destruct (resume_covers g g1 b st st1 a calls1 Hres Hst Hst1) as [Hns Hcov].
      apply (IH g1 st1 calls2 Hrec Hns). apply Hcov. exact Hm.
    + injection Hrun as <- -> _.
      destruct Hm as [Hm|Hm]; [exact Hm|inversion Hm].
Qed.

(** X13. A cycle that runs to its end leaves every message of its
    search result in the ledger, whether the message was created,
    rejected, skipped for want of a name, or already there. *)
Theorem finished_cycle_claims_every_message {env : Env}
    (g g' : globals) (boardId : jsstr) (results : list message)
    (answers : list answer) (calls : list call) :
  run_cycle g boardId AwaitSearch (Results results :: answers)
  = (g', Finished, calls) ->
  forall m, m ∈ results -> uid m ∈ processedUids g'.
Proof.
  cbn [run_cycle resume]. intros Hrun m Hm.
  destruct (loop g results) as [[g1 st1] calls1] eqn:Hloop.
  destruct (run_cycle g1 boardId st1 answers) as [[g2 st2] calls2] eqn:Hrec.
  injection Hrun as <- -> _.
  assert (Hns : st1 <> AwaitSearch).
  { destruct (loop_cases g results) as [E|(x & r & _ & E)];
      rewrite E in Hloop; injection Hloop as _ <- _; discriminate. }
  apply (run_cycle_finished_covers answers g1 g2 boardId st1 calls2 Hrec Hns).
  pose proof (loop_covers results g m (or_intror Hm)) as Hc.
  rewrite Hloop in Hc. exact Hc.
Qed.

Lemma finished_cycle_claims_every_message_witness :
  uid msg2 ∈ processedUids
               (fst (fst (@run_cycle demoEnv demoGlobals (u "42") AwaitSearch
                            [Results [msg1; msg2]; Parsed mailJane; Done;
                             Done; Parsed mailBlank]))).
Proof.
  apply (@finished_cycle_claims_every_message demoEnv demoGlobals _ (u "42")
           [msg1; msg2] [Parsed mailJane; Done; Done; Parsed mailBlank]
           (snd (@run_cycle demoEnv demoGlobals (u "42") AwaitSearch
                   [Results [msg1; msg2]; Parsed mailJane; Done; Done;
                    Parsed mailBlank]))).
  - vm_compute. reflexivity.
  - right. left.
Defined.

(** ** Record creator: when the request is well formed *)

(** What a literal stands for is shorter than the literal. *)
Lemma gql_string_length (s v r : jsstr) :
  gql_string s = Some (v, r) -> (length v + length r < length s)%nat.
Proof.
  revert v r.
  assert (H : forall n s, (length s <= n)%nat -> forall v r,
               gql_string s = Some (v, r) ->
               (length v + length r < length s)%nat);
    [|intros v r; exact (H (length s) s (Nat.le_refl _) v r)].
  clear s. induction n as [|n IH]; intros s Hn v r Hs.
  - destruct s; [discriminate Hs|simpl in Hn; lia].
  - destruct s as [|c s]; [discriminate Hs|]. simpl in Hn.
    cbn [gql_string] in Hs.
    destruct (c =? QUOTE); [injection Hs as <- <-; simpl; lia|].
    destruct (gql_control c); [discriminate Hs|].
    destruct (c =? BACKSLASH).
    + destruct s as [|e s]; [discriminate Hs|]. simpl in Hn.
      destruct (e =? 117).
      * destruct s as [|h1 [|h2 [|h3 [|h4 s5]]]]; try discriminate Hs.
        destruct (hex4 h1 h2 h3 h4) as [w|]; [|discriminate Hs].
        destruct (is_low_surrogate w); [discriminate Hs|].
        simpl in Hn.
        destruct (is_high_surrogate w).
        -- destruct s5 as [|b [|e' [|k1 [|k2 [|k3 [|k4 s11]]]]]];
             try discriminate Hs.
           destruct ((b =? BACKSLASH) && (e' =? 117)); [|discriminate Hs].
           destruct (hex4 k1 k2 k3 k4) as [w'|]; [|discriminate Hs].
           destruct (gql_string s11) as [[v' r']|] eqn:H5; [|discriminate Hs].
           destruct (is_low_surrogate w'); [|discriminate Hs].
           injection Hs as <- <-. simpl in Hn.
           specialize (IH s11 ltac:(lia) v' r' H5). simpl. lia.
        -- destruct (gql_string s5) as [[v' r']|] eqn:H5; [|discriminate Hs].
           injection Hs as <- <-.
           specialize (IH s5 ltac:(lia) v' r' H5). simpl. lia.
      * destruct (gql_escape e); [|discriminate Hs].
        destruct (gql_string s) as [[v' r']|] eqn:H5; [|discriminate Hs].
        injection Hs as <- <-.
        specialize (IH s ltac:(lia) v' r' H5). simpl. lia.
    + destruct (is_high_surrogate c).
      * destruct s as [|d s]; [discriminate Hs|].
        destruct (is_low_surrogate d); [|discriminate Hs]. simpl in Hn.
        destruct (gql_string s) as [[v' r']|] eqn:H5; [|discriminate Hs].
        injection Hs as <- <-.
        specialize (IH s ltac:(lia) v' r' H5). simpl. lia.
      * destruct (is_low_surrogate c); [discriminate Hs|].
        destruct (gql_string s) as [[v' r']|] eqn:H5; [|discriminate Hs].
        injection Hs as <- <-.
        specialize (IH s ltac:(lia) v' r' H5). simpl. lia.
Qed.

(** A literal that starts with a backslash stands for a text that is
    shorter by two code units at least. *)
Lemma gql_string_escape_length (s v r : jsstr) :
  gql_string (BACKSLASH :: s) = Some (v, r) ->
  (length v + length r < length s)%nat.
Proof.
  intros Hs. cbn [gql_string] in Hs.
  change (BACKSLASH =? QUOTE) with false in Hs.
  change (gql_control BACKSLASH) with false in Hs.
  change (BACKSLASH =? BACKSLASH) with true in Hs. cbn iota in Hs.
  destruct s as [|e s]; [discriminate Hs|].
  destruct (e =? 117).
  - destruct s as [|h1 [|h2 [|h3 [|h4 s5]]]]; try discriminate Hs.
    destruct (hex4 h1 h2 h3 h4) as [w|]; [|discriminate Hs].
    destruct (is_low_surrogate w); [discriminate Hs|].
    destruct (is_high_surrogate w).
    + destruct s5 as [|b [|e' [|k1 [|k2 [|k3 [|k4 s11]]]]]];
        try discriminate Hs.
      destruct ((b =? BACKSLASH) && (e' =? 117)); [|discriminate Hs].
      destruct (hex4 k1 k2 k3 k4) as [w'|]; [|discriminate Hs].
      destruct (gql_string s11) as [[v' r']|] eqn:H5; [|discriminate Hs].
      destruct (is_low_surrogate w'); [|discriminate Hs].
      injection Hs as <- <-. apply gql_string_length in H5. simpl. lia.
    + destruct (gql_string s5) as [[v' r']|] eqn:H5; [|discriminate Hs].
      injection Hs as <- <-. apply gql_string_length in H5. simpl. lia.
  - destruct (gql_escape e); [|discriminate Hs].
    destruct (gql_string s) as [[v' r']|] eqn:H5; [|discriminate Hs].
    injection Hs as <- <-. apply gql_string_length in H5. simpl. lia.
Qed.

(** Only such a text is read back as it is. *)
Lemma gql_string_exact_verbatim (name rest : jsstr) :
  gql_string (name ++ QUOTE :: rest) = Some (name, rest) ->
  gql_verbatim name = true.
Proof.
  remember (length name) as n eqn:Hn.
  assert (Hle : (length name <= n)%nat) by lia. clear Hn.
  revert name Hle. induction n as [|n IH]; intros name Hle H.
  - destruct name; [reflexivity|simpl in Hle; lia].
  - destruct name as [|c name]; [reflexivity|]. simpl in Hle.
    cbn [gql_verbatim].
    destruct (c =? BACKSLASH) eqn:Hb.
    { exfalso. apply N.eqb_eq in Hb. subst c. cbn [app] in H.
      apply gql_string_escape_length in H.
      rewrite length_app in H. simpl in H. lia. }
    cbn [app gql_string] in H. rewrite Hb in H.
    destruct (c =? QUOTE) eqn:Hq; [discriminate H|].
    destruct (gql_control c) eqn:Hc; [discriminate H|]. cbn [orb].
    destruct (is_high_surrogate c) eqn:Hh.
    + destruct name as [|d name]; cbn [app] in H.
      * change (is_low_surrogate QUOTE) with false in H. discriminate H.
      * destruct (is_low_surrogate d) eqn:Hd; [|discriminate H].
        destruct (gql_string (name ++ QUOTE :: rest)) as [[v' r']|] eqn:H5;
          [|discriminate H].
        injection H as <- <-. cbn [andb]. apply IH; [simpl in Hle; lia|].
        exact H5.
    + destruct (is_low_surrogate c); [discriminate H|].
      destruct (gql_string (name ++ QUOTE :: rest)) as [[v' r']|] eqn:H5;
        [|discriminate H].
      injection H as <- <-. apply IH; [lia|exact H5].
Qed.

Lemma gql_literal_string (s : jsstr) (x : jsstr * jsstr) :
  gql_literal s = Some x -> gql_string s = Some x.
Proof.
  unfold gql_literal. destruct s as [|q1 [|q2 s]]; try (intros H; exact H).
  destruct ((q1 =? QUOTE) && (q2 =? QUOTE)); [discriminate|]. trivial.
Qed.

(** X14. The [item_name] literal of the mutation, read as GraphQL
    reads a string, is the name, and ends where the program meant it
    to end, exactly when the name contains no quote, no backslash, no
    control character other than the tabulator (so no line break), and
    no surrogate that is not half of a pair. *)
Theorem item_name_literal_exact_iff_plain (boardId name : jsstr)
    (values : list (jsstr * json)) :
  let rest := tl QUERY_VALUES ++ escape_quotes (stringify (JObject values))
              ++ QUERY_TAIL in
  createItem_query boardId name values
  = QUERY_HEAD ++ boardId ++ QUERY_NAME ++ name ++ QUOTE :: rest
  /\ (gql_literal (name ++ QUOTE :: rest) = Some (name, rest)
      <-> gql_verbatim name = true).
Proof.
  intros rest. split; [reflexivity|]. split.
  - intros H. apply (gql_string_exact_verbatim name rest).
    apply gql_literal_string. exact H.
  - intros H. apply gql_literal_verbatim; [exact H|reflexivity].
Qed.

(** A name with a smiling face in it, which is a pair of surrogates,
    is read back as it is; half of the pair is no literal, and neither
    is the control character of a form feed. *)
Example item_name_literals :
  let rest := tl QUERY_VALUES ++ escape_quotes (stringify (JObject []))
              ++ QUERY_TAIL in
  gql_literal ((u "Jane " ++ [55357; 56832]) ++ QUOTE :: rest)
  = Some (u "Jane " ++ [55357; 56832], rest)
  /\ gql_literal ((u "Jane " ++ [55357]) ++ QUOTE :: rest) = None
  /\ gql_literal ((u "Jane" ++ [12]) ++ QUOTE :: rest) = None.
Proof. repeat split; reflexivity. Qed.

Lemma json_induction (P : json -> Prop) :
  (forall s, P (JString s)) ->
  (forall props, Forall (fun kv => P (snd kv)) props -> P (JObject props)) ->
  forall v, P v.
Proof.
  intros Hs Ho. fix IH 1. intros [s|props]; [apply Hs|]. apply Ho.
  induction props as [|[k w] props IHp]; constructor; [apply IH|exact IHp].
Qed.

Lemma stringify_object (props : list (jsstr * json)) :
  stringify (JObject props)
  = u "{" ++ join 44 (List.map member_text props) ++ u "}".
Proof.
  cbn [stringify]. do 3 f_equal.
  induction props as [|[k w] props IH]; [reflexivity|].
  cbn [List.map]. rewrite <- IH. reflexivity.
Qed.

Lemma json_all_plain_object (props : list (jsstr * json)) :
  json_all_plain (JObject props) = forallb member_plain props.
Proof.
  cbn [json_all_plain].
  induction props as [|[k w] props IH]; [reflexivity|].
  cbn [forallb]. rewrite <- IH. reflexivity.
Qed.

Lemma json_plain_facts (c : N) :
  json_plain c = true ->
  32 <= c /\ c <> QUOTE /\ c <> BACKSLASH /\ ~ (55296 <= c /\ c <= 57343).
Proof.
  unfold json_plain. rewrite !andb_true_iff, !negb_true_iff.
  intros [[[H32 Hq] Hb] Hs]. apply N.leb_le in H32.
  apply N.eqb_neq in Hq. apply N.eqb_neq in Hb.
  repeat split; try assumption.
  intros [H1 H2]. apply N.leb_le in H1. apply N.leb_le in H2.
  rewrite H1, H2 in Hs. discriminate Hs.
Qed.

Lemma quote_json_body_plain (s : jsstr) :
  forallb json_plain s = true -> quote_json_body s = s.
Proof.
  induction s as [|c s IH]; intros H; [reflexivity|].
  simpl in H. apply andb_prop in H as [Hc H]. specialize (IH H).
  apply json_plain_facts in Hc as (H32 & Hq & Hb & Hs).
  unfold QUOTE, BACKSLASH in *. cbn [quote_json_body].
  rewrite (proj2 (N.eqb_neq c 8)) by lia.
  rewrite (proj2 (N.eqb_neq c 9)) by lia.
  rewrite (proj2 (N.eqb_neq c 10)) by lia.
  rewrite (proj2 (N.eqb_neq c 12)) by lia.
  rewrite (proj2 (N.eqb_neq c 13)) by lia.
  unfold QUOTE, BACKSLASH.
  rewrite (proj2 (N.eqb_neq c 34)) by lia.
  rewrite (proj2 (N.eqb_neq c 92)) by lia.
  rewrite (proj2 (N.ltb_ge c 32)) by lia.
  assert (Hh : is_high_surrogate c = false).
  { unfold is_high_surrogate. apply andb_false_iff.
    destruct (N.leb_spec 55296 c); [right; apply N.leb_gt; lia|left; reflexivity]. }
  assert (Hl : is_low_surrogate c = false).
  { unfold is_low_surrogate. apply andb_false_iff.
    destruct (N.leb_spec 56320 c); [right; apply N.leb_gt; lia|left; reflexivity]. }
  rewrite Hh, Hl, IH. reflexivity.
Qed.

Lemma json_plain_gql_ok (c : N) : json_plain c = true -> gql_ok c = true.
Proof.
  intros H. pose proof H as H'.
  apply json_plain_facts in H as (H32 & _ & Hb & _).
  unfold json_plain in H'. rewrite !andb_true_iff in H'.
  destruct H' as [_ Hs].
  unfold gql_ok, gql_control. rewrite Hs, andb_true_r.
  rewrite (proj2 (N.eqb_neq c BACKSLASH) Hb).
  rewrite (proj2 (N.ltb_ge c 32) H32). reflexivity.
Qed.

Lemma not_surrogate (c : N) :
  (55296 <=? c) && (c <=? 57343) = false ->
  is_high_surrogate c = false /\ is_low_surrogate c = false.
Proof.
  unfold is_high_surrogate, is_low_surrogate. intros H.
  apply andb_false_iff in H as [H|H].
  - apply N.leb_gt in H. split; apply andb_false_iff; left; apply N.leb_gt; lia.
  - apply N.leb_gt in H. split; apply andb_false_iff; right; apply N.leb_gt; lia.
Qed.

Lemma forallb_join (p : N -> bool) (sep : N) (ls : list jsstr) :
  p sep = true -> Forall (fun l => forallb p l = true) ls ->
  forallb p (join sep ls) = true.
Proof.
  intros Hsep H. induction H as [|l ls Hl Hls IH]; [reflexivity|].
  cbn [join]. destruct ls as [|l' ls']; [exact Hl|].
  rewrite forallb_app. cbn [forallb]. rewrite Hl, Hsep, IH. reflexivity.
Qed.

Lemma quote_json_ok (s : jsstr) :
  forallb json_plain s = true -> forallb gql_ok (quote_json s) = true.
Proof.
  intros H. unfold quote_json. rewrite (quote_json_body_plain s H).
  cbn [forallb]. rewrite forallb_app. cbn [forallb].
  assert (Hs : forallb gql_ok s = true).
  { rewrite forallb_forall in *. intros c Hc. apply json_plain_gql_ok, H, Hc. }
  rewrite Hs. reflexivity.
Qed.

(** The text [JSON.stringify] gives for a value of plain strings has
    no backslash and no line break. *)
Lemma stringify_ok (v : json) :
  json_all_plain v = true -> forallb gql_ok (stringify v) = true.
Proof.
  induction v as [s|props IH] using json_induction; intros H.
  - apply quote_json_ok. exact H.
  - rewrite stringify_object. rewrite json_all_plain_object in H.
    rewrite !forallb_app.
    change (forallb gql_ok (u "{")) with true.
    change (forallb gql_ok (u "}")) with true.
    rewrite andb_true_r. cbn [andb].
    apply forallb_join; [reflexivity|].
    induction props as [|[k w] props IHp]; [constructor|].
    cbn [forallb] in H. apply andb_prop in H as [Hkv H].
    unfold member_plain in Hkv. cbn [fst snd] in Hkv.
    apply andb_prop in Hkv as [Hk Hw].
    inversion IH as [|? ? IHw IHprops]; subst. cbn [snd] in IHw.
    constructor; [|exact (IHp IHprops H)].
    unfold member_text. cbn [fst snd]. rewrite forallb_app. cbn [forallb].
    rewrite (quote_json_ok k Hk), (IHw Hw). reflexivity.
Qed.

Lemma gql_string_escape_quotes (j rest : jsstr) :
  forallb gql_ok j = true ->
  gql_string (escape_quotes j ++ QUOTE :: rest) = Some (j, rest).
Proof.
  induction j as [|c j IH]; intros H; [reflexivity|].
  cbn [forallb] in H. apply andb_prop in H as [Hc H]. specialize (IH H).
  unfold escape_quotes in *. cbn [flat_map].
  destruct (c =? QUOTE) eqn:Hq.
  - apply N.eqb_eq in Hq. subst c. cbn [app gql_string].
    change (BACKSLASH =? QUOTE) with false.
    change (gql_control BACKSLASH) with false.
    change (BACKSLASH =? BACKSLASH) with true.
    change (QUOTE =? 117) with false.
    change (gql_escape QUOTE) with (Some QUOTE).
    cbn iota. rewrite IH. reflexivity.
  - unfold gql_ok in Hc. rewrite !andb_true_iff, !negb_true_iff in Hc.
    destruct Hc as [[Hb Hn] Hr]. apply not_surrogate in Hr as [Hh Hl].
    cbn [app gql_string]. rewrite Hq, Hn, Hb, Hh, Hl, IH.
    reflexivity.
Qed.

Lemma obj_set_plain (o : list (jsstr * json)) (k : jsstr) (v : json) :
  forallb member_plain o = true -> member_plain (k, v) = true ->
  forallb member_plain (obj_set o k v) = true.
Proof.
  intros Ho Hkv. unfold obj_set.
  destruct (decide (k = PROTO)); [exact Ho|].
  destruct (obj_has o k).
  - unfold obj_replace. rewrite forallb_forall in *. intros e He.
    apply in_map_iff in He as (e0 & <- & He0).
    destruct (bool_decide (fst e0 = k)); [exact Hkv|exact (Ho e0 He0)].
  - destruct (array_index k) as [n0|].
    + induction o as [|[k' v'] o IH]; cbn [obj_insert_index forallb].
      * rewrite Hkv. reflexivity.
      * cbn [forallb] in Ho. pose proof Ho as Ho'.
        apply andb_prop in Ho as [Hh Ho].
        destruct (array_index k') as [n'|]; [destruct (n' <? n0)|];
          cbn [forallb]; rewrite ?Hkv, ?Hh, ?(IH Ho), ?Ho; reflexivity.
    + rewrite forallb_app. cbn [forallb]. rewrite Ho, Hkv. reflexivity.
Qed.

Lemma encoded_member_plain (k : fieldKey) (col v : jsstr) :
  forallb json_plain col = true -> forallb json_plain v = true ->
  member_plain (col, spec_encode k v) = true.
Proof.
  intros Hcol Hv. unfold member_plain.
  destruct k; cbn [fst snd spec_encode json_all_plain];
    rewrite Hcol, ?Hv; reflexivity.
Qed.

Lemma createItem_values_plain (cfg : boardCfg)
    (email phone service note : option jsstr) :
  (forall k, forallb json_plain (column_of cfg k) = true) ->
  (forall k v, field_of email phone service note k = Some v ->
               forallb json_plain v = true) ->
  forallb member_plain (createItem_values cfg email phone service note) = true.
Proof.
  intros Hcol Hval. unfold createItem_values.
  pose proof (Hval KEmail) as He. pose proof (Hval KPhone) as Hp.
  pose proof (Hval KService) as Hs. pose proof (Hval KNote) as Hn.
  cbn [field_of] in He, Hp, Hs, Hn.
  assert (Hstep : forall o k v,
             forallb member_plain o = true -> forallb json_plain v = true ->
             forallb member_plain (obj_set o (column_of cfg k) (spec_encode k v))
             = true).
  { intros o k v Ho Hv. apply obj_set_plain; [exact Ho|].
    apply encoded_member_plain; [apply Hcol|exact Hv]. }
  set (v1 := match email with
             | Some e => if truthy e then _ else _
             | None => _
             end).
  assert (H1 : forallb member_plain v1 = true).
  { subst v1. destruct email as [e|]; [|reflexivity].
    destruct (truthy e); [|reflexivity].
    exact (Hstep [] KEmail e eq_refl (He e eq_refl)). }
  clearbody v1.
  set (v2 := match phone with
             | Some p => if truthy p then _ else _
             | None => _
             end).
  assert (H2 : forallb member_plain v2 = true).
  { subst v2. destruct phone as [p|]; [|exact H1].
    destruct (truthy p); [|exact H1].
    exact (Hstep v1 KPhone p H1 (Hp p eq_refl)). }
  clearbody v2.
  set (v3 := match service with
             | Some sv => if truthy sv then _ else _
             | None => _
             end).
  assert (H3 : forallb member_plain v3 = true).
  { subst v3. destruct service as [sv|]; [|exact H2].
    destruct (truthy sv); [|exact H2].
    exact (Hstep v2 KService sv H2 (Hs sv eq_refl)). }
  clearbody v3.
  destruct note as [n|]; [|exact H3].
  destruct (truthy n); [|exact H3].
  exact (Hstep v3 KNote n H3 (Hn n eq_refl)).
Qed.

(** X15. When the four column identifiers and the extracted field
    values contain only code units that JSON copies as they are (none
    below 32, no quote, no backslash, no surrogate), the
    [column_values] literal of the mutation, read as GraphQL reads a
    string, is exactly the JSON text of [values], and it ends at the
    quote the program put after it. *)
Theorem column_values_literal_reads_back (cfg : boardCfg)
    (email phone service note : option jsstr) :
  (forall k, forallb json_plain (column_of cfg k) = true) ->
  (forall k v, field_of email phone service note k = Some v ->
               forallb json_plain v = true) ->
  let values := createItem_values cfg email phone service note in
  gql_string (escape_quotes (stringify (JObject values)) ++ QUERY_TAIL)
  = Some (stringify (JObject values), tl QUERY_TAIL).
Proof.
  intros Hcol Hval values.
  change QUERY_TAIL with (QUOTE :: tl QUERY_TAIL) at 1.
  apply gql_string_escape_quotes, stringify_ok.
  rewrite json_all_plain_object.
  apply createItem_values_plain; assumption.
Qed.

Lemma column_values_literal_reads_back_witness :
  let values :=
    createItem_values demoCfg (Some (u "jane@x.com")) (Some (u "555-1234"))
      (Some (u "Checkup")) None in
  gql_string (escape_quotes (stringify (JObject values)) ++ QUERY_TAIL)
  = Some (stringify (JObject values), tl QUERY_TAIL).
Proof.
  apply (column_values_literal_reads_back demoCfg).
  - intros []; reflexivity.
  - intros [] v H; try discriminate H; injection H as <-; reflexivity.
Defined.

(** ** The transport: the query text arrives as it was built *)

Lemma hex_digit_value (d : N) : d < 16 -> hex_value (hex_digit d) = Some d.
Proof.
  intros Hd. unfold hex_digit, hex_value.
  destruct (N.ltb_spec d 10) as [Hlt|Hge].
  - rewrite (proj2 (N.leb_le 48 (48 + d))) by lia.
    rewrite (proj2 (N.leb_le (48 + d) 57)) by lia.
    cbn [andb]. f_equal. lia.
  - rewrite (proj2 (N.leb_le 48 (87 + d))) by lia.
    rewrite (proj2 (N.leb_gt (87 + d) 57)) by lia.
    rewrite (proj2 (N.leb_le 97 (87 + d))) by lia.
    rewrite (proj2 (N.leb_le (87 + d) 102)) by lia.
    cbn [andb]. f_equal. lia.
Qed.

Lemma unicode_escape_read (c : N) (rest : jsstr) :
  c < 65536 ->
  json_string (unicode_escape c ++ rest)
  = match json_string rest with
    | Some (v, r) => Some (c :: v, r)
    | None => None
    end.
Proof.
  intros Hc. unfold unicode_escape. cbn [app json_string].
  change (BACKSLASH =? QUOTE) with false.
  change (BACKSLASH <? 32) with false.
  change (BACKSLASH =? BACKSLASH) with true.
  change (117 =? 117) with true. cbn iota.
  rewrite !hex_digit_value by (apply N.mod_lt; discriminate).
  destruct (json_string rest) as [[v r]|]; [|reflexivity].
  do 2 f_equal. f_equal.
  assert (H : c / 4096 < 16) by (apply N.Div0.div_lt_upper_bound; lia).
  rewrite (N.mod_small (c / 4096) 16 H).
  pose proof (N.div_mod' c 16) as E1.
  pose proof (N.div_mod' (c / 16) 16) as E2.
  pose proof (N.div_mod' (c / 16 / 16) 16) as E3.
  rewrite !N.Div0.div_div in E2, E3. change (16 * 16) with 256 in *.
  rewrite (N.Div0.div_div c 256 16) in E3. change (256 * 16) with 4096 in *.
  lia.
Qed.

Lemma json_string_copies (c : N) (s : jsstr) :
  (c =? QUOTE) = false -> (c <? 32) = false -> (c =? BACKSLASH) = false ->
  json_string (c :: s)
  = match json_string s with
    | Some (v, r) => Some (c :: v, r)
    | None => None
    end.
Proof. intros H1 H2 H3. cbn [json_string]. rewrite H1, H2, H3. reflexivity. Qed.

Lemma json_string_short_escape (e d : N) (s : jsstr) :
  (e =? 117) = false -> gql_escape e = Some d ->
  json_string (BACKSLASH :: e :: s)
  = match json_string s with
    | Some (v, r) => Some (d :: v, r)
    | None => None
    end.
Proof.
  intros H1 H2. cbn [json_string].
  change (BACKSLASH =? QUOTE) with false.
  change (BACKSLASH <? 32) with false.
  change (BACKSLASH =? BACKSLASH) with true. cbn iota.
  rewrite H1, H2. destruct (json_string s) as [[v r]|]; reflexivity.
Qed.

(** What [JSON.stringify] writes for a string is read back by a JSON
    parser as that string, whatever code units it has. *)
Lemma json_string_quote_body (s rest : jsstr) :
  json_string (quote_json_body s ++ QUOTE :: rest) = Some (s, rest).
Proof.
  assert (H : forall n s, (length s <= n)%nat ->
               json_string (quote_json_body s ++ QUOTE :: rest) = Some (s, rest));
    [|exact (H (length s) s (Nat.le_refl _))].
  clear s. induction n as [|n IH]; intros s Hn.
  - destruct s; [reflexivity|simpl in Hn; lia].
  - destruct s as [|c s]; [reflexivity|]. simpl in Hn.
    assert (IHs : json_string (quote_json_body s ++ QUOTE :: rest) = Some (s, rest))
      by (apply IH; lia).
    cbn [quote_json_body].
    destruct (c =? 8) eqn:E8.
    { apply N.eqb_eq in E8. subst c. cbn [app].
      rewrite (json_string_short_escape 98 8) by reflexivity.
      rewrite IHs. reflexivity. }
    destruct (c =? 9) eqn:E9.
    { apply N.eqb_eq in E9. subst c. cbn [app].
      rewrite (json_string_short_escape 116 9) by reflexivity.
      rewrite IHs. reflexivity. }
    destruct (c =? 10) eqn:E10.
    { apply N.eqb_eq in E10. subst c. cbn [app].
      rewrite (json_string_short_escape 110 10) by reflexivity.
      rewrite IHs. reflexivity. }
    destruct (c =? 12) eqn:E12.
    { apply N.eqb_eq in E12. subst c. cbn [app].
      rewrite (json_string_short_escape 102 12) by reflexivity.
      rewrite IHs. reflexivity. }
    destruct (c =? 13) eqn:E13.
    { apply N.eqb_eq in E13. subst c. cbn [app].
      rewrite (json_string_short_escape 114 13) by reflexivity.
      rewrite IHs. reflexivity. }
    destruct (c =? QUOTE) eqn:Eq.
    { apply N.eqb_eq in Eq. subst c. cbn [app].
      rewrite (json_string_short_escape QUOTE QUOTE) by reflexivity.
      rewrite IHs. reflexivity. }
    destruct (c =? BACKSLASH) eqn:Eb.
    { apply N.eqb_eq in Eb. subst c. cbn [app].
      rewrite (json_string_short_escape BACKSLASH BACKSLASH) by reflexivity.
      rewrite IHs. reflexivity. }
    destruct (c <? 32) eqn:E32.
    { apply N.ltb_lt in E32. rewrite <- app_assoc.
      rewrite unicode_escape_read by lia. rewrite IHs. reflexivity. }
    destruct (is_high_surrogate c) eqn:Eh.
    { unfold is_high_surrogate in Eh. apply andb_prop in Eh as [Eh1 Eh2].
      apply N.leb_le in Eh1. apply N.leb_le in Eh2.
      destruct s as [|d s'].
      - rewrite unicode_escape_read by lia. reflexivity.
      - destruct (is_low_surrogate d) eqn:El.
        + unfold is_low_surrogate in El. apply andb_prop in El as [El1 El2].
          apply N.leb_le in El1. apply N.leb_le in El2. cbn [app].
          rewrite (json_string_copies c) by
            (first [apply N.eqb_neq; unfold QUOTE, BACKSLASH; lia
                   |apply N.ltb_ge; lia]).
          rewrite (json_string_copies d) by
            (first [apply N.eqb_neq; unfold QUOTE, BACKSLASH; lia
                   |apply N.ltb_ge; lia]).
          simpl in Hn. rewrite (IH s') by lia. reflexivity.
        + rewrite <- app_assoc. rewrite unicode_escape_read by lia.
          rewrite IHs. reflexivity. }
    destruct (is_low_surrogate c) eqn:El.
    { unfold is_low_surrogate in El. apply andb_prop in El as [El1 El2].
      apply N.leb_le in El1. apply N.leb_le in El2.
      rewrite <- app_assoc. rewrite unicode_escape_read by lia.
      rewrite IHs. reflexivity. }
    cbn [app]. rewrite (json_string_copies c) by assumption.
    rewrite IHs. reflexivity.
Qed.

(** X16. The body [mondayQuery] posts is a JSON object with the one
    member [query], and a JSON parser reads that member back as
    exactly the query text it was given, whatever code units the text
    contains; the token goes into the [Authorization] header as it
    is. *)
Theorem mondayQuery_body_carries_query (token query : jsstr) :
  fr_body (mondayQuery token query)
  = u "{" ++ quote_json (u "query") ++ [COLON; QUOTE]
      ++ quote_json_body query ++ [QUOTE] ++ u "}"
  /\ json_string (quote_json_body query ++ [QUOTE] ++ u "}")
     = Some (query, u "}")
  /\ List.find (fun h => bool_decide (fst h = u "Authorization"))
       (fr_headers (mondayQuery token query))
     = Some (u "Authorization", token).
Proof.
  split; [|split].
  - unfold mondayQuery. cbn [fr_body]. rewrite stringify_object.
    cbn [List.map join]. unfold member_text. cbn [fst snd stringify].
    unfold quote_json at 2. f_equal. rewrite <- app_assoc. f_equal.
    cbn [app]. rewrite <- app_assoc. reflexivity.
  - apply json_string_quote_body.
  - reflexivity.
Qed.

(** ** Mailbox poller: messages already in the ledger *)

(** X17. Messages whose identifier is in the ledger are passed over
    without any call: a search result made of such messages ends the
    cycle at once with nothing changed, and when such messages come
    before one that is not in the ledger, that one is the message
    claimed and handed to the parser. *)
Theorem claimed_messages_are_skipped {env : Env} (g : globals)
    (boardId : jsstr) (pre : list message) :
  Forall (fun m => uid m ∈ processedUids g) pre ->
  resume g boardId AwaitSearch (Results pre) = Some (g, Finished, [])
  /\ forall m rest,
       uid m ∉ processedUids g ->
       resume g boardId AwaitSearch (Results (pre ++ m :: rest))
       = Some (Globals ({[uid m]} ∪ processedUids g) (boardStore g)
                 (storePrototype g) (protoSender g) (builtinSender g),
               AwaitParse m rest,
               [LedgerAdd (uid m); Parse (uid m) (body m)]).
Proof.
  intros Hpre. cbn [resume]. split.
  - f_equal. induction Hpre as [|x pre Hx _ IH]; [reflexivity|].
    cbn [loop]. rewrite decide_True by exact Hx. exact IH.
  - intros m rest Hm. f_equal.
    induction Hpre as [|x pre Hx _ IH]; cbn [app loop].
    + rewrite decide_False by exact Hm. reflexivity.
    + rewrite decide_True by exact Hx. exact IH.
Qed.

Lemma claimed_messages_are_skipped_witness :
  let g := Globals {[1]} (boardStore demoGlobals) None None ∅ in
  @resume demoEnv g (u "42") AwaitSearch (Results [msg1]) = Some (g, Finished, [])
  /\ @resume demoEnv g (u "42") AwaitSearch (Results [msg1; msg2])
     = Some (Globals ({[2]} ∪ {[1]}) (boardStore demoGlobals) None None ∅,
             AwaitParse msg2 [],
             [LedgerAdd 2; Parse 2 (body msg2)]).
Proof.
  intros g.
  destruct (@claimed_messages_are_skipped demoEnv g (u "42") [msg1]) as [H1 H2].
  - constructor; [|constructor].
    apply (bool_decide_eq_true_1 (uid msg1 ∈ processedUids g)).
    vm_compute. reflexivity.
  - split; [exact H1|]. apply (H2 msg2 []).
    apply (bool_decide_eq_false_1 (uid msg2 ∈ processedUids g)).
    vm_compute. reflexivity.
Defined.

(** ** Sender policy: an address is compared as parsed *)

Lemma store_write_lowercased {env : Env} (g : globals) (k : jsstr)
    (f : found) (s : jsstr) :
  store_get g k = f ->
  senders_lowercased g ->
  senders_lowercased (store_write g k f (toLowerCase s)).
Proof.
  intros Hf (H1 & H2 & H3).
  destruct f as [|cfg| |name|x|cols]; cbn [store_write];
    try (split; [exact H1|split; [exact H2|exact H3]]).
  - destruct (decide (k = PROTO)).
    + split; [exact H1|]. split; [|exact H3].
      cbn [storePrototype]. intros cfg' a [= <-] Ha. cbn in Ha.
      injection Ha as <-. exists s. reflexivity.
    + split; [|split; [exact H2|exact H3]].
      cbn [boardStore]. intros b cfg' a Hb Ha.
      destruct (decide (k = b)) as [<-|Hne].
      * rewrite lookup_insert_eq in Hb. injection Hb as <-. cbn in Ha.
        injection Ha as <-. exists s. reflexivity.
      * rewrite lookup_insert_ne in Hb by exact Hne. exact (H1 b cfg' a Hb Ha).
  - split; [exact H1|]. split; [exact H2|].
    cbn [protoSender]. intros a [= <-]. exists s. reflexivity.
  - split; [exact H1|]. split; [|exact H3].
    cbn [storePrototype]. intros cfg' a Hp Ha.
    destruct (storePrototype g) as [cfgP|] eqn:HP; [|discriminate Hp].
    injection Hp as <-. cbn [allowedSenderEmail] in Ha.
    exact (H2 cfgP a eq_refl Ha).
Qed.

Lemma configSender_lowercased {env : Env} (g : globals)
    (req : senderRequest) :
  senders_lowercased g -> senders_lowercased (fst (configSender g req)).
Proof.
  intros H. unfold configSender.
  destruct (negb _); [exact H|].
  destruct (body_sender g req) as [| |vb|vz|s|]; try exact H.
  cbn [fst]. apply store_write_lowercased; [reflexivity|exact H].
Qed.

Lemma registerBoard_lowercased {env : Env} (g : globals) (b token : jsstr)
    (cols : list (jsstr * jsstr)) :
  senders_lowercased g -> senders_lowercased (registerBoard g b token cols).
Proof.
  intros (H1 & H2 & H3). unfold registerBoard. destruct (decide (b = PROTO)).
  - split; [exact H1|]. split; [|exact H3].
    cbn [storePrototype]. intros cfg a [= <-] Ha. discriminate Ha.
  - split; [|split; [exact H2|exact H3]].
    cbn [boardStore]. intros b' cfg a Hb Ha.
    destruct (decide (b = b')) as [<-|Hne].
    + rewrite lookup_insert_eq in Hb. injection Hb as <-. discriminate Ha.
    + rewrite lookup_insert_ne in Hb by exact Hne. exact (H1 b' cfg a Hb Ha).
Qed.

Lemma senders_lowercased_same {env : Env} (g g' : globals) :
  same_store g g' -> senders_lowercased g -> senders_lowercased g'.
Proof.
  intros (E1 & E2 & E3 & _) (H1 & H2 & H3). unfold senders_lowercased.
  rewrite E1, E2, E3. auto.
Qed.

Lemma exec_senders_lowercased {env : Env} (s s' : process) (act : action) :
  senders_lowercased (shared s) -> exec s act = Some s' ->
  senders_lowercased (shared s').
Proof.
  destruct s as [g tm ts tr]. intros H Hexec. apply exec_step in Hexec.
  cbn [shared] in H.
  destruct act as [k|i a|req|b token cols];
    cbn [step shared timers tasks trace] in Hexec.
  - destruct (tm !! k); [|discriminate]. injection Hexec as <-. exact H.
  - destruct (ts !! i) as [t|]; [|discriminate].
    destruct (resume g (t_board t) (t_stage t) a) as [[[g' st'] calls]|] eqn:Hres;
      [|discriminate].
    injection Hexec as <-. apply resume_keeps in Hres as [Hstore _].
    cbn [shared]. exact (senders_lowercased_same g g' Hstore H).
  - injection Hexec as <-. cbn [shared].
    apply configSender_lowercased. exact H.
  - injection Hexec as <-. unfold startEmailListener.
    cbn [shared timers tasks trace].
    destruct (truthy_found _); cbn [shared];
      apply registerBoard_lowercased; exact H.
Qed.

Lemma run_senders_lowercased {env : Env} (schedule : list action)
    (s s' : process) :
  senders_lowercased (shared s) -> run s schedule = Some s' ->
  senders_lowercased (shared s').
Proof.
  revert s. induction schedule as [|act schedule IH]; intros s Hinv Hrun.
  - injection Hrun as <-. exact Hinv.
  - cbn [run] in Hrun. destruct (exec s act) as [s1|] eqn:Hexec; [|discriminate].
    apply (IH s1); [|exact Hrun].
    exact (exec_senders_lowercased s s1 act Hinv Hexec).
Qed.

(** X18. The sender a board entry has or inherits is always a
    lower-cased string and the parsed address is compared with it as
    it is.  So, [toLowerCase] being idempotent, in every run of the
    process a message whose parsed address is changed by [toLowerCase]
    (it has an upper-case letter) is rejected for every board,
    whatever sender has been configured: it is flagged seen and no
    record is created. *)
Theorem address_with_upper_case_is_never_accepted {env : Env}
    (schedule : list action) (s : process) (i : nat) (t : task)
    (m : message) (rest : list message) (parsed : parsedMail) (a : jsstr) :
  (forall x, toLowerCase (toLowerCase x) = toLowerCase x) ->
  run start schedule = Some s ->
  tasks s !! i = Some t ->
  p_from parsed = Some a ->
  toLowerCase a <> a ->
  resume (shared s) (t_board t) (AwaitParse m rest) (Parsed parsed)
  = Some (shared s, AwaitRejectFlag m rest, [AddFlagsSeen (uid m)]).
Proof.
  intros Hidem Hrun Hi Hfrom Hupper.
  destruct (run_boards_registered schedule start s start_boards_registered Hrun)
    as [_ Hts].
  pose proof (Hts i t Hi) as Hb.
  destruct (store_get (shared s) (t_board t)) as [|cfg| | | |] eqn:Hcfg;
    try discriminate Hb.
  assert (Hlow : senders_lowercased (shared s)).
  { apply (run_senders_lowercased schedule start s); [|exact Hrun].
    split; [|split]; cbn.
    - intros b c x Hx. discriminate Hx.
    - intros c x Hx. discriminate Hx.
    - intros x Hx. discriminate Hx. }
  destruct Hlow as (H1 & H2 & H3).
  cbn [resume]. f_equal.
  apply (after_parse_rejected _ _ _ _ _ cfg Hcfg).
  apply sender_rejected_true. right. rewrite Hfrom. intros Heq.
  assert (Hx : exists x, a = toLowerCase x).
  { unfold effective_sender in Heq.
    destruct (allowedSenderEmail cfg) as [own|] eqn:Hown.
    - injection Heq as ->.
      destruct (store_get_board _ _ _ Hcfg) as [[_ Hp]|[_ Hp]].
      + exact (H2 cfg own Hp Hown).
      + exact (H1 (t_board t) cfg own Hp Hown).
    - exact (H3 a (eq_sym Heq)). }
  destruct Hx as [x ->]. apply Hupper. apply Hidem.
Qed.

Lemma ascii_lower_idempotent (x : jsstr) :
  List.map ascii_lower (List.map ascii_lower x) = List.map ascii_lower x.
Proof.
  induction x as [|c x IH]; [reflexivity|]. cbn [List.map]. rewrite IH.
  f_equal. unfold ascii_lower.
  destruct ((65 <=? c) && (c <=? 90)) eqn:E; [|rewrite E; reflexivity].
  apply andb_prop in E as [E1 E2]. apply N.leb_le in E1. apply N.leb_le in E2.
  rewrite (proj2 (N.leb_gt (c + 32) 90)) by lia. rewrite andb_false_r.
  reflexivity.
Qed.

Lemma address_with_upper_case_is_never_accepted_witness :
  @resume demoEnv (shared demoFinal) (u "42") (AwaitParse msg2 [])
    (Parsed mailUpperCase)
  = Some (shared demoFinal, AwaitRejectFlag msg2 [], [AddFlagsSeen 2]).
Proof.
  apply (@address_with_upper_case_is_never_accepted demoEnv demoSchedule
           demoFinal 1 (Task (u "42") Finished) msg2 [] mailUpperCase
           (u "Doc@Clinic.com")).
  - exact ascii_lower_idempotent.
  - vm_compute. reflexivity.
  - vm_compute. reflexivity.
  - reflexivity.
  - discriminate.
Defined.
